(** * ZenStack access-policy enforcement: compiler and runtime

    A shallow embedding of the policy guard generator
    (plugins/access-policy: [PolicyGuardGenerator], utils/ast-utils:
    [analyzePolicies]) and of the runtime enforcement utilities
    (runtime/src/enhancements/policy/policy-utils.ts: [PolicyUtil]),
    together with the properties of the specification that concern them. *)

From Stdlib Require Import String Ascii List ZArith Lia Bool.
From stdpp Require Import base option list strings pretty.

Set Warnings "-register-all".

Local Open Scope string_scope.
Local Open Scope list_scope.

(** ** JavaScript strings: the two [String.prototype] methods the code uses *)

Module JsString.

(** [s.split(sep)] for a one-character separator. *)
Fixpoint split (sep : ascii) (s : string) : list string :=
  match s with
  | EmptyString => [EmptyString]
  | String c s' =>
      if Ascii.eqb c sep then EmptyString :: split sep s'
      else match split sep s' with
           | [] => [String c EmptyString]
           | hd :: tl => String c hd :: tl
           end
  end.

(** White space of [trim] within ASCII: TAB, LF, VT, FF, CR, SP. *)
Definition isWhiteSpace (c : ascii) : bool :=
  let n := nat_of_ascii c in
  ((9 <=? n)%nat && (n <=? 13)%nat) || (n =? 32)%nat.

Fixpoint trimStart (s : string) : string :=
  match s with
  | EmptyString => EmptyString
  | String c s' => if isWhiteSpace c then trimStart s' else s
  end.

Fixpoint trimEnd (s : string) : string :=
  match s with
  | EmptyString => EmptyString
  | String c s' =>
      let t := trimEnd s' in
      if isWhiteSpace c && String.eqb t EmptyString then EmptyString
      else String c t
  end.

Definition trim (s : string) : string := trimEnd (trimStart s).

(** [arr.includes(x)] on an array of strings. *)
Definition includes (x : string) (arr : list string) : bool :=
  existsb (String.eqb x) arr.

End JsString.

(** ** Operation kinds (runtime/src/types: [PolicyOperationKind], [PolicyKind]) *)

Inductive PolicyOperationKind := create | read | update | postUpdate | delete.

Definition opName (k : PolicyOperationKind) : string :=
  match k with
  | create => "create"
  | read => "read"
  | update => "update"
  | postUpdate => "postUpdate"
  | delete => "delete"
  end.

Definition op_eqb (a b : PolicyOperationKind) : bool :=
  match a, b with
  | create, create | read, read | update, update
  | postUpdate, postUpdate | delete, delete => true
  | _, _ => false
  end.

Inductive PolicyKind := allow | deny.

Definition kindName (k : PolicyKind) : string :=
  match k with allow => "allow" | deny => "deny" end.

(** ** The policy compiler *)

Module PolicyGuardGenerator.

(** *** ZModel expressions (language/ast)

    The node kinds of the ZModel expression grammar that rule expressions
    are made of.  An invocation records the name its callee resolves to
    and whether that declaration comes from the standard library. *)

Inductive Literal :=
| LBool (b : bool)
| LNumber (n : Z)
| LString (s : string).

Inductive Expression :=
| LiteralExpr (value : Literal)
| ArrayExpr (items : list Expression)
| ReferenceExpr (target : string)
| MemberAccessExpr (operand : Expression) (member : string)
| InvocationExpr (function : string) (fromStdlib : bool) (args : list Expression)
| UnaryExpr (operator : string) (operand : Expression)
| BinaryExpr (operator : string) (left right : Expression)
| ThisExpr
| NullExpr.

(** Induction over expressions that reaches into argument lists. *)
Section ExpressionInd.
Variable P : Expression -> Prop.
Hypothesis HLit : forall v, P (LiteralExpr v).
Hypothesis HArr : forall items, Forall P items -> P (ArrayExpr items).
Hypothesis HRef : forall t, P (ReferenceExpr t).
Hypothesis HMem : forall e m, P e -> P (MemberAccessExpr e m).
Hypothesis HInv : forall f b args, Forall P args -> P (InvocationExpr f b args).
Hypothesis HUn : forall op e, P e -> P (UnaryExpr op e).
Hypothesis HBin : forall op l r, P l -> P r -> P (BinaryExpr op l r).
Hypothesis HThis : P ThisExpr.
Hypothesis HNull : P NullExpr.

Fixpoint Expression_ind' (e : Expression) : P e :=
  match e with
  | LiteralExpr v => HLit v
  | ArrayExpr items =>
      HArr items
        ((fix go (l : list Expression) : Forall P l :=
            match l with
            | [] => @List.Forall_nil Expression P
            | x :: xs => @List.Forall_cons Expression P x xs (Expression_ind' x) (go xs)
            end) items)
  | ReferenceExpr t => HRef t
  | MemberAccessExpr e m => HMem e m (Expression_ind' e)
  | InvocationExpr f b args =>
      HInv f b args
        ((fix go (l : list Expression) : Forall P l :=
            match l with
            | [] => @List.Forall_nil Expression P
            | x :: xs => @List.Forall_cons Expression P x xs (Expression_ind' x) (go xs)
            end) args)
  | UnaryExpr op e => HUn op e (Expression_ind' e)
  | BinaryExpr op l r => HBin op l r (Expression_ind' l) (Expression_ind' r)
  | ThisExpr => HThis
  | NullExpr => HNull
  end.
End ExpressionInd.

(** [streamAllContents(node)] of langium: every node contained in [node],
    directly or indirectly, in document order; the node itself is not part
    of the stream. *)
Fixpoint streamAst (e : Expression) : list Expression :=
  e ::
  match e with
  | ArrayExpr items => flat_map streamAst items
  | MemberAccessExpr o _ => streamAst o
  | InvocationExpr _ _ args => flat_map streamAst args
  | UnaryExpr _ o => streamAst o
  | BinaryExpr _ l r => streamAst l ++ streamAst r
  | _ => []
  end.

Definition streamAllContents (e : Expression) : list Expression :=
  tl (streamAst e).

(** [getLiteral<T>(expr)] of the sdk: the value of a literal node,
    [undefined] for any other node. *)
Definition getLiteral (e : Expression) : option Literal :=
  match e with
  | LiteralExpr v => Some v
  | _ => None
  end.

(** [getLiteral<boolean>(e) === true] *)
Definition isLiteralTrue (e : Expression) : bool :=
  match getLiteral e with
  | Some (LBool true) => true
  | _ => false
  end.

(** [getLiteral<string>(e)] where the result is used as a string: the
    first parameter of [@@allow]/[@@deny] is declared [String], so the only
    literal that can stand there is a string literal. *)
Definition getLiteralString (e : Expression) : option string :=
  match getLiteral e with
  | Some (LString s) => Some s
  | _ => None
  end.

(** A model-level attribute.  [@@allow] and [@@deny] are declared with two
    parameters, so [args[0].value] and [args[1].value] are always there. *)
Record DataModelAttribute := {
  decl : string;
  arg0 : Expression;
  arg1 : Expression;
}.

Record DataModel := {
  name : string;
  attributes : list DataModelAttribute;
}.

(** *** utils/ast-utils.ts *)

Definition forOperation (operation : PolicyOperationKind)
    (rules : list DataModelAttribute) : list DataModelAttribute :=
  List.filter (fun rule =>
    match getLiteralString (arg0 rule) with
    | None => false
    | Some ops =>
        if String.eqb ops "" then false
        else if String.eqb ops "all" then true
        else
          let splitOps := map JsString.trim (JsString.split "," ops) in
          JsString.includes (opName operation) splitOps
    end) rules.

(** Result: [Some b] for a constant policy, [None] for [undefined]. *)
Definition toStaticPolicy (operation : PolicyOperationKind)
    (allows denies : list DataModelAttribute) : option bool :=
  let filteredDenies := forOperation operation denies in
  if existsb (fun rule => isLiteralTrue (arg1 rule)) filteredDenies then
    (* any constant true deny rule *)
    Some false
  else
    let filteredAllows := forOperation operation allows in
    if (length filteredAllows =? 0)%nat then
      (* no allow rule *)
      Some false
    else if (length filteredDenies =? 0)%nat
            && existsb (fun rule => isLiteralTrue (arg1 rule)) filteredAllows then
      (* any constant true allow rule *)
      Some true
    else None.

Record Policies := {
  allows : list DataModelAttribute;
  denies : list DataModelAttribute;
  p_create : option bool;
  p_read : option bool;
  p_update : option bool;
  p_delete : option bool;
  allowAll : bool;
  denyAll : bool;
}.

Definition is_const (b : bool) (p : option bool) : bool :=
  match p with Some b' => Bool.eqb b b' | None => false end.

Definition analyzePolicies (dataModel : DataModel) : Policies :=
  let allows := List.filter (fun attr => String.eqb (decl attr) "@@allow") (attributes dataModel) in
  let denies := List.filter (fun attr => String.eqb (decl attr) "@@deny") (attributes dataModel) in
  let create := toStaticPolicy create allows denies in
  let read := toStaticPolicy read allows denies in
  let update := toStaticPolicy update allows denies in
  let del := toStaticPolicy delete allows denies in
  {| allows := allows;
     denies := denies;
     p_create := create;
     p_read := read;
     p_update := update;
     p_delete := del;
     allowAll := is_const true create && is_const true read
                 && is_const true update && is_const true del;
     denyAll := is_const false create && is_const false read
                && is_const false update && is_const false del |}.

(** [policies[kind]]: the record has no [postUpdate] entry. *)
Definition policies_get (p : Policies) (kind : PolicyOperationKind) : option bool :=
  match kind with
  | create => p_create p
  | read => p_read p
  | update => p_update p
  | delete => p_delete p
  | postUpdate => None
  end.

(** *** policy-guard-generator.ts *)

Definition isFutureInvocation (node : Expression) : bool :=
  match node with
  | InvocationExpr f fromStdlib _ => String.eqb f "future" && fromStdlib
  | _ => false
  end.

Definition hasFutureReference (expr : Expression) : bool :=
  existsb isFutureInvocation (streamAllContents expr).

Definition isLogicalOperator (op : string) : bool :=
  String.eqb op "&&" || String.eqb op "||".

(** The part of [visitPolicyExpression] reached by every expression that is
    neither a logical binary node nor a negation. *)
Definition visitLeaf (expr : Expression) (postUpdate : bool) : option Expression :=
  if postUpdate && negb (hasFutureReference expr) then None
  else if negb postUpdate && hasFutureReference expr then None
  else Some expr.

Fixpoint visitPolicyExpression (expr : Expression) (postUpdate : bool)
    : option Expression :=
  match expr with
  | BinaryExpr op l r =>
      if isLogicalOperator op then
        let left := visitPolicyExpression l postUpdate in
        let right := visitPolicyExpression r postUpdate in
        match left, right with
        | None, _ => right
        | Some _, None => left
        | Some left', Some right' => Some (BinaryExpr op left' right')
        end
      else visitLeaf expr postUpdate
  | UnaryExpr op o =>
      if String.eqb op "!" then
        match visitPolicyExpression o postUpdate with
        | None => None
        | Some operand => Some (UnaryExpr op operand)
        end
      else visitLeaf expr postUpdate
  | _ => visitLeaf expr postUpdate
  end.

Definition processUpdatePolicies (expressions : list Expression) (postUpdate : bool)
    : list Expression :=
  omap (fun expr => visitPolicyExpression expr postUpdate) expressions.

Definition getPolicyExpressions (model : DataModel) (kind : PolicyKind)
    (operation : PolicyOperationKind) : list Expression :=
  let attrs := List.filter (fun attr => String.eqb (decl attr) ("@@" ++ kindName kind))
                 (attributes model) in
  let checkOperation :=
    match operation with postUpdate => update | _ => operation end in
  let result :=
    map arg1
      (List.filter (fun attr =>
         match getLiteralString (arg0 attr) with
         | None => false
         | Some opsValue =>
             if String.eqb opsValue "" then false
             else
               let ops := map JsString.trim (JsString.split "," opsValue) in
               JsString.includes (opName checkOperation) ops
               || JsString.includes "all" ops
         end) attrs) in
  match operation with
  | update => processUpdatePolicies result false
  | postUpdate => processUpdatePolicies result true
  | _ => result
  end.

(** An entry of the generated table: a constant, or the name of the guard
    function written to the generated source file. *)
Inductive GuardEntry :=
| EConst (b : bool)
| EFunc (name : string).

(** What [generateQueryGuardFunction] adds to the source file: a function
    named [model.name + '_' + kind] whose body combines the deny and allow
    expressions. *)
Record FunctionDeclaration := {
  getName : string;
  fn_kind : PolicyOperationKind;
  fn_allows : list Expression;
  fn_denies : list Expression;
}.

Definition generateQueryGuardFunction (model : DataModel)
    (kind : PolicyOperationKind) (allows denies : list Expression)
    : FunctionDeclaration :=
  {| getName := name model ++ "_" ++ opName kind;
     fn_kind := kind;
     fn_allows := allows;
     fn_denies := denies |}.

(** One turn of the loop of [generateQueryGuardForModel]: the entry for
    [kind], and the function added to the source file if one is. *)
Definition guardEntryFor (model : DataModel) (kind : PolicyOperationKind)
    : GuardEntry * option FunctionDeclaration :=
  let policies := analyzePolicies model in
  match policies_get policies kind with
  | Some b => (EConst b, None)
  | None =>
      let denies := getPolicyExpressions model deny kind in
      let allows := getPolicyExpressions model allow kind in
      if op_eqb kind update && (length allows =? 0)%nat then
        (* no allow rule for 'update', policy is constant based on if
           there's post-update counterpart *)
        if (length (getPolicyExpressions model allow postUpdate) =? 0)%nat
        then (EConst false, None)
        else (EConst true, None)
      else if op_eqb kind postUpdate && (length allows =? 0)%nat
              && (length denies =? 0)%nat then
        (* no rule 'postUpdate', always allow *)
        (EConst true, None)
      else
        let func := generateQueryGuardFunction model kind allows denies in
        (EFunc (getName func), Some func)
  end.

(** [ALL_OPERATION_KINDS] of plugin-utils, in its order. *)
Definition ALL_OPERATION_KINDS : list PolicyOperationKind :=
  [create; update; postUpdate; read; delete].

Definition generateQueryGuardForModel (model : DataModel)
    : list (string * GuardEntry) * list FunctionDeclaration :=
  (map (fun kind => (opName kind, fst (guardEntryFor model kind))) ALL_OPERATION_KINDS,
   omap (fun kind => snd (guardEntryFor model kind)) ALL_OPERATION_KINDS).

(** *** Vocabulary for the properties of the split *)

(** The nodes [visitPolicyExpression] recurses through; every other
    expression is a leaf of the rule. *)
Definition isLogicalNode (e : Expression) : bool :=
  match e with
  | BinaryExpr op _ _ => isLogicalOperator op
  | UnaryExpr op _ => String.eqb op "!"
  | _ => false
  end.

(** The leaves of a rule expression, left to right. *)
Fixpoint leaves (e : Expression) : list Expression :=
  match e with
  | BinaryExpr op l r =>
      if isLogicalOperator op then leaves l ++ leaves r else [e]
  | UnaryExpr op o => if String.eqb op "!" then leaves o else [e]
  | _ => [e]
  end.

Definition leavesOpt (o : option Expression) : list Expression :=
  match o with Some e => leaves e | None => [] end.

(** [pruned e e']: [e'] is [e] with some operands of its logical nodes
    taken away, every remaining node keeping its operator and the order of
    its operands. *)
Inductive pruned : Expression -> Expression -> Prop :=
| pruned_leaf e :
    isLogicalNode e = false -> pruned e e
| pruned_not op o o' :
    String.eqb op "!" = true -> pruned o o' ->
    pruned (UnaryExpr op o) (UnaryExpr op o')
| pruned_both op l r l' r' :
    isLogicalOperator op = true -> pruned l l' -> pruned r r' ->
    pruned (BinaryExpr op l r) (BinaryExpr op l' r')
| pruned_left op l r l' :
    isLogicalOperator op = true -> pruned l l' ->
    pruned (BinaryExpr op l r) l'
| pruned_right op l r r' :
    isLogicalOperator op = true -> pruned r r' ->
    pruned (BinaryExpr op l r) r'.

(** The applicable rules of a model for an operation, as
    [toStaticPolicy] sees them. *)
Definition applicableAllows (model : DataModel) (op : PolicyOperationKind) :=
  forOperation op (allows (analyzePolicies model)).
Definition applicableDenies (model : DataModel) (op : PolicyOperationKind) :=
  forOperation op (denies (analyzePolicies model)).
Definition someConstantTrue (rules : list DataModelAttribute) : bool :=
  existsb (fun rule => isLiteralTrue (arg1 rule)) rules.

(** *** Sample schemas *)

(** [future().value > 0] *)
Definition futureValuePositive : Expression :=
  BinaryExpr ">"
    (MemberAccessExpr (InvocationExpr "future" true []) "value")
    (LiteralExpr (LNumber 0)).

(** [owner == auth()] *)
Definition ownerIsAuth : Expression :=
  BinaryExpr "==" (ReferenceExpr "owner") (InvocationExpr "auth" true []).

(** model Counter { ... @@allow('update', future().value > 0) } *)
Definition counterModel : DataModel :=
  {| name := "Counter";
     attributes :=
       [ {| decl := "@@allow";
            arg0 := LiteralExpr (LString "update");
            arg1 := futureValuePositive |} ] |}.

End PolicyGuardGenerator.

(** ** JavaScript values

    Query arguments, filters, guards and result rows are plain JavaScript
    data.  Two views of it are needed: an immutable tree ([value]), for what
    is handed to or returned by the store, and objects in a heap addressed by
    reference ([hval], [hobj]), for the argument objects the code mutates in
    place. *)

Module Js.

Inductive value :=
| VUndef
| VNull
| VBool (b : bool)
| VNum (n : Z)
| VStr (s : string)
| VArr (items : list value)
| VObj (fields : list (string * value)).

(** Induction over values that reaches into arrays and objects. *)
Section ValueInd.
Variable P : value -> Prop.
Hypothesis HUndef : P VUndef.
Hypothesis HNull : P VNull.
Hypothesis HBool : forall b, P (VBool b).
Hypothesis HNum : forall n, P (VNum n).
Hypothesis HStr : forall s, P (VStr s).
Hypothesis HArr : forall items, Forall P items -> P (VArr items).
Hypothesis HObj : forall fs, Forall (fun kv => P (snd kv)) fs -> P (VObj fs).

Fixpoint value_ind' (v : value) : P v :=
  match v with
  | VUndef => HUndef
  | VNull => HNull
  | VBool b => HBool b
  | VNum n => HNum n
  | VStr s => HStr s
  | VArr items =>
      HArr items
        ((fix go (l : list value) : Forall P l :=
            match l with
            | [] => @List.Forall_nil value P
            | x :: xs => @List.Forall_cons value P x xs (value_ind' x) (go xs)
            end) items)
  | VObj fs =>
      HObj fs
        ((fix go (l : list (string * value)) : Forall (fun kv => P (snd kv)) l :=
            match l with
            | [] => @List.Forall_nil _ (fun kv => P (snd kv))
            | kv :: xs =>
                @List.Forall_cons _ (fun kv => P (snd kv)) kv xs
                  (value_ind' (snd kv)) (go xs)
            end) fs)
  end.
End ValueInd.

(** Property tables: keys in insertion order, first binding wins. *)
Fixpoint lookup {A} (k : string) (fs : list (string * A)) : option A :=
  match fs with
  | [] => None
  | (k', x) :: rest => if String.eqb k k' then Some x else lookup k rest
  end.

Fixpoint assign {A} (k : string) (x : A) (fs : list (string * A))
    : list (string * A) :=
  match fs with
  | [] => [(k, x)]
  | (k', y) :: rest =>
      if String.eqb k k' then (k, x) :: rest else (k', y) :: assign k x rest
  end.

(** The index an array key denotes, if any. *)
Definition arrayIndex (k : string) (len : nat) : option nat :=
  List.find (fun i => String.eqb (pretty i) k) (seq 0 len).

(** [!!v] *)
Definition truthy (v : value) : bool :=
  match v with
  | VUndef | VNull => false
  | VBool b => b
  | VNum n => negb (n =? 0)%Z
  | VStr s => negb (String.eqb s "")
  | VArr _ | VObj _ => true
  end.

(** [v === undefined || v === null] *)
Definition nullish (v : value) : bool :=
  match v with VUndef | VNull => true | _ => false end.

(** [typeof v === 'object'] *)
Definition typeofObject (v : value) : bool :=
  match v with VNull | VArr _ | VObj _ => true | _ => false end.

(** [a ?? b] *)
Definition coalesce (a b : value) : value := if nullish a then b else a.

(** [v[k]] for a [v] that is neither [undefined] nor [null]; and [v?.[k]],
    which is [undefined] for those two. *)
Definition get (v : value) (k : string) : value :=
  match v with
  | VObj fs => default VUndef (lookup k fs)
  | VArr items =>
      match arrayIndex k (length items) with
      | Some i => nth i items VUndef
      | None => VUndef
      end
  | _ => VUndef
  end.

(** [Object.keys(v)] for objects and arrays. *)
Definition keys (v : value) : list string :=
  match v with
  | VObj fs => map fst fs
  | VArr items => map pretty (seq 0 (length items))
  | _ => []
  end.

(** The own properties copied by [{ ...v }]. *)
Definition spread (v : value) : list (string * value) :=
  match v with
  | VObj fs => fs
  | VArr items => combine (map pretty (seq 0 (length items))) items
  | _ => []
  end.

(** [a === b] on primitives; two object values coming from different
    places are different objects. *)
Definition strictEq (a b : value) : bool :=
  match a, b with
  | VUndef, VUndef | VNull, VNull => true
  | VBool x, VBool y => Bool.eqb x y
  | VNum x, VNum y => (x =? y)%Z
  | VStr x, VStr y => String.eqb x y
  | _, _ => false
  end.

Definition isFalse (v : value) : bool := strictEq v (VBool false).
Definition isTrue (v : value) : bool := strictEq v (VBool true).

(** *** The heap *)

Inductive hval :=
| HUndef
| HNull
| HBool (b : bool)
| HNum (n : Z)
| HStr (s : string)
| HRef (l : nat).

Inductive hobj :=
| HObj (fields : list (string * hval))
| HArr (items : list hval).

(** Objects are allocated at the end and never freed. *)
Abbreviation heap := (list hobj).

Definition h_truthy (v : hval) : bool :=
  match v with
  | HUndef | HNull => false
  | HBool b => b
  | HNum n => negb (n =? 0)%Z
  | HStr s => negb (String.eqb s "")
  | HRef _ => true
  end.

Definition h_nullish (v : hval) : bool :=
  match v with HUndef | HNull => true | _ => false end.

Definition h_typeofObject (v : hval) : bool :=
  match v with HNull | HRef _ => true | _ => false end.

Definition h_isFalse (v : hval) : bool :=
  match v with HBool false => true | _ => false end.

Definition h_isTrue (v : hval) : bool :=
  match v with HBool true => true | _ => false end.

Definition h_isArray (h : heap) (v : hval) : bool :=
  match v with
  | HRef l => match h !! l with Some (HArr _) => true | _ => false end
  | _ => false
  end.

(** [v[k]]: [None] stands for the TypeError of reading a property of
    [undefined] or [null]. *)
Definition h_get (h : heap) (v : hval) (k : string) : option hval :=
  match v with
  | HUndef | HNull => None
  | HRef l =>
      match h !! l with
      | Some (HObj fs) => Some (default HUndef (lookup k fs))
      | Some (HArr items) =>
          Some (match arrayIndex k (length items) with
                | Some i => nth i items HUndef
                | None => HUndef
                end)
      | None => Some HUndef
      end
  | _ => Some HUndef
  end.

(** [v[k] = x] in strict mode: [None] stands for the TypeError of writing a
    property of anything but an object.  An array only keeps what is
    written to one of its indices. *)
Definition h_set (h : heap) (v : hval) (k : string) (x : hval) : option heap :=
  match v with
  | HRef l =>
      match h !! l with
      | Some (HObj fs) => Some (<[l := HObj (assign k x fs)]> h)
      | Some (HArr items) =>
          Some (match arrayIndex k (length items) with
                | Some i => <[l := HArr (<[i := x]> items)]> h
                | None => h
                end)
      | None => Some h
      end
  | _ => None
  end.

Definition h_keys (h : heap) (v : hval) : list string :=
  match v with
  | HRef l =>
      match h !! l with
      | Some (HObj fs) => map fst fs
      | Some (HArr items) => map pretty (seq 0 (length items))
      | None => []
      end
  | _ => []
  end.

Definition h_new (h : heap) (o : hobj) : hval * heap :=
  (HRef (length h), h ++ [o]).

(** Building a tree of fresh objects for a value: children first, left to
    right, then the object that holds them. *)
Section AllocMembers.
Variable allocOne : value -> heap -> hval * heap.

Fixpoint allocItems (l : list value) (h : heap) : list hval * heap :=
  match l with
  | [] => ([], h)
  | x :: rest =>
      let '(x', h1) := allocOne x h in
      let '(rest', h2) := allocItems rest h1 in
      (x' :: rest', h2)
  end.

Fixpoint allocFields (l : list (string * value)) (h : heap)
    : list (string * hval) * heap :=
  match l with
  | [] => ([], h)
  | kv :: rest =>
      let '(x', h1) := allocOne (snd kv) h in
      let '(rest', h2) := allocFields rest h1 in
      ((fst kv, x') :: rest', h2)
  end.
End AllocMembers.

Fixpoint alloc (v : value) (h : heap) : hval * heap :=
  match v with
  | VUndef => (HUndef, h)
  | VNull => (HNull, h)
  | VBool b => (HBool b, h)
  | VNum n => (HNum n, h)
  | VStr s => (HStr s, h)
  | VArr items =>
      let '(items', h1) := allocItems alloc items h in
      h_new h1 (HArr items')
  | VObj fs =>
      let '(fs', h1) := allocFields alloc fs h in
      h_new h1 (HObj fs')
  end.

(** Reading a value back out of the heap.  [fuel] bounds the nesting; a
    structure that is not a tree of that depth at most has no reading. *)
Fixpoint reify (fuel : nat) (h : heap) (v : hval) : option value :=
  match v with
  | HUndef => Some VUndef
  | HNull => Some VNull
  | HBool b => Some (VBool b)
  | HNum n => Some (VNum n)
  | HStr s => Some (VStr s)
  | HRef l =>
      match fuel with
      | O => None
      | S fuel' =>
          match h !! l with
          | Some (HObj fs) =>
              VObj <$> mapM (fun '(k, x) => pair k <$> reify fuel' h x) fs
          | Some (HArr items) =>
              VArr <$> mapM (reify fuel' h) items
          | None => Some VUndef
          end
      end
  end.

(** Query arguments are trees, and a tree in a heap has fewer levels than
    the heap has objects. *)
Definition snapshot (h : heap) (v : hval) : option value :=
  reify (length h) h v.

(** *** Conjunctions of query conditions

    [PolicyUtil.and] inspects its arguments the same way wherever they
    live; [Conjunction] is what it finds. *)
Inductive Conjunction (A : Type) :=
| AlwaysFalse
| NoCondition
| OneCondition (c : A)
| AllOf (cs : list A).
Arguments AlwaysFalse {A}.
Arguments NoCondition {A}.
Arguments OneCondition {A} c.
Arguments AllOf {A} cs.

Definition conjunction {A} (isFalse isObject : A -> bool) (conditions : list A)
    : Conjunction A :=
  if existsb isFalse conditions then AlwaysFalse
  else
    let filtered := List.filter isObject conditions in
    match filtered with
    | [] => NoCondition
    | [c] => OneCondition c
    | _ => AllOf filtered
    end.

(** [typeof c === 'object' && !!c] *)
Definition isObject (c : value) : bool := typeofObject c && truthy c.
Definition h_isObject (c : hval) : bool := h_typeofObject c && h_truthy c.

End Js.

(** ** The runtime enforcement utilities (policy-utils.ts) *)

Module Runtime.
Import Js.

(** *** Errors *)

Inductive Error :=
| PrismaClientKnownRequestError (message code : string)
| PrismaClientUnknownRequestError (message : string)
| TypeError (message : string)
| RangeError (message : string).

Inductive Outcome (A : Type) :=
| Returned (a : A)
| Thrown (e : Error).
Arguments Returned {A} a.
Arguments Thrown {A} e.

Definition deniedByPolicy (model : string) (operation : PolicyOperationKind)
    (extra : option string) : Error :=
  PrismaClientKnownRequestError
    ("denied by policy: entities failed '" ++ opName operation ++ "' check, "
     ++ model
     ++ match extra with
        | Some e => if String.eqb e "" then "" else ", " ++ e
        | None => ""
        end)
    "P2004".

Definition notFound (model : string) : Error :=
  PrismaClientKnownRequestError ("entity not found for model " ++ model) "P2025".

Definition unknownError (message : string) : Error :=
  PrismaClientUnknownRequestError message.

(** A policy denial is a known request error with code P2004. *)
Definition isPolicyDenied (e : Error) : bool :=
  match e with
  | PrismaClientKnownRequestError _ code => String.eqb code "P2004"
  | _ => false
  end.

(** *** Collaborators (runtime/src/types, model-meta, the store) *)

Record FieldInfo := {
  name : string;
  type : string;
  isDataModel : bool;
  isArray : bool;
  backLink : option string;
}.

(** Modelled from the spec: the field metadata and its lookup
    [resolveField(modelMeta, model, field)], "for each model: ordered set of
    fields; for relation fields, target model, cardinality and back-link
    field name". *)
Record ModelMeta := {
  resolveField : string -> string -> option FieldInfo;
}.

Record QueryContext := {
  ctx_user : value;
  ctx_preValue : value;
}.

(** An entry of a model's guard table: a constant or a guard function. *)
Inductive PolicyProvider :=
| ConstantPolicy (b : bool)
| PolicyFunc (f : QueryContext -> value).

Record PolicyDef := {
  guard : string -> option (PolicyOperationKind -> option PolicyProvider);
}.

(** The operations of the store the engine calls, over the state [Store]
    of the database: [db[model].count(args)] and [db[model].findMany(args)]. *)
Record DbClientContract (Store : Type) := {
  count : string -> value -> Store -> nat;
  findMany : string -> value -> Store -> list value;
}.
Arguments count {Store} _ _ _ _.
Arguments findMany {Store} _ _ _ _.

(** What the class is constructed with. *)
Record PolicyUtil (Store : Type) := {
  db : DbClientContract Store;
  modelMeta : ModelMeta;
  policy : PolicyDef;
  user : value;
}.
Arguments db {Store} _.
Arguments modelMeta {Store} _.
Arguments policy {Store} _.
Arguments user {Store} _.

(** Which client a call goes through: the client itself or the client of
    the running transaction. *)
Inductive DbHandle := ThisDb | Tx.

Inductive DbCall :=
| CallCount (via : DbHandle) (model : string) (args : value)
| CallFindMany (via : DbHandle) (model : string) (args : value)
| CallWrite (via : DbHandle) (model : string) (args : value)
| CallTransaction.

(** *** State: the heap of JavaScript objects, the database, and the calls
    made to the database so far (latest last). *)

Record World (Store : Type) := {
  w_heap : heap;
  w_store : Store;
  w_trace : list DbCall;
}.
Arguments w_heap {Store} _.
Arguments w_store {Store} _.
Arguments w_trace {Store} _.
Arguments Build_World {Store} _ _ _.

Definition M (Store A : Type) : Type := World Store -> Outcome A * World Store.

Section Monad.
Context {Store : Type}.

Definition ret {A} (a : A) : M Store A := fun w => (Returned a, w).

Definition throw {A} (e : Error) : M Store A := fun w => (Thrown e, w).

Definition bind {A B} (m : M Store A) (k : A -> M Store B) : M Store B :=
  fun w =>
    match m w with
    | (Returned a, w') => k a w'
    | (Thrown e, w') => (Thrown e, w')
    end.

Definition lift {A} (o : Outcome A) : M Store A := fun w => (o, w).

(** [for (const x of xs) { await body(x) }] *)
Fixpoint forEach {A} (xs : list A) (body : A -> M Store unit) : M Store unit :=
  match xs with
  | [] => ret tt
  | x :: rest => bind (body x) (fun _ => forEach rest body)
  end.

Definition setHeap (h : heap) (w : World Store) : World Store :=
  Build_World h (w_store w) (w_trace w).

Definition heapSize : M Store nat := fun w => (Returned (length (w_heap w)), w).

Definition getProp (o : hval) (k : string) : M Store hval :=
  fun w =>
    match h_get (w_heap w) o k with
    | Some v => (Returned v, w)
    | None => (Thrown (TypeError ("Cannot read properties of undefined (reading '" ++ k ++ "')")), w)
    end.

(** [o?.[k]] *)
Definition getPropOpt (o : hval) (k : string) : M Store hval :=
  if h_nullish o then ret HUndef else getProp o k.

Definition setProp (o : hval) (k : string) (x : hval) : M Store unit :=
  fun w =>
    match h_set (w_heap w) o k x with
    | Some h' => (Returned tt, setHeap h' w)
    | None => (Thrown (TypeError ("Cannot set properties of undefined (setting '" ++ k ++ "')")), w)
    end.

Definition newObject (o : hobj) : M Store hval :=
  fun w => let '(r, h') := h_new (w_heap w) o in (Returned r, setHeap h' w).

Definition allocValue (v : value) : M Store hval :=
  fun w => let '(r, h') := alloc v (w_heap w) in (Returned r, setHeap h' w).

Definition isArray_ (v : hval) : M Store bool :=
  fun w => (Returned (h_isArray (w_heap w) v), w).

Definition objectKeys (v : hval) : M Store (list string) :=
  fun w => (Returned (h_keys (w_heap w) v), w).

(** The value an argument object has at this moment, as the store is
    given it. *)
Definition snapshotOf (v : hval) : M Store value :=
  fun w =>
    match snapshot (w_heap w) v with
    | Some t => (Returned t, w)
    | None => (Thrown (TypeError "Converting circular structure"), w)
    end.

Definition record (c : DbCall) (w : World Store) : World Store :=
  Build_World (w_heap w) (w_store w) (w_trace w ++ [c]).

Definition dbCount (this : PolicyUtil Store) (via : DbHandle) (model : string)
    (args : value) : M Store nat :=
  fun w => (Returned (count (db this) model args (w_store w)),
            record (CallCount via model args) w).

Definition dbFindMany (this : PolicyUtil Store) (via : DbHandle) (model : string)
    (args : value) : M Store (list value) :=
  fun w => (Returned (findMany (db this) model args (w_store w)),
            record (CallFindMany via model args) w).

(** Modelled from the spec: [db.$transaction(body)], "transactional
    multi-statement execution with rollback-on-exception": the body runs
    on the database; if it throws, the database is what it was when the
    transaction began. *)
Definition transaction {A} (body : M Store A) : M Store A :=
  fun w =>
    match body (record CallTransaction w) with
    | (Returned a, w') => (Returned a, w')
    | (Thrown e, w') =>
        (Thrown e, Build_World (w_heap w') (w_store w) (w_trace w'))
    end.

End Monad.

Declare Scope monad_scope.
Delimit Scope monad_scope with monad.
Notation "x <- m ;; k" := (bind m (fun x => k))
  (at level 100, m at next level, right associativity) : monad_scope.
Notation "m ;; k" := (bind m (fun _ => k))
  (at level 100, right associativity) : monad_scope.
Local Open Scope monad_scope.

(** *** Helpers of enhancements/utils *)

(** [getModelFields(data)]: the keys of [data], none if there is no data.
    (Keys of internal fields, which name no relation, make no difference to
    the loops that use it.) *)
Definition getModelFields (data : value) : list string :=
  if truthy data then keys data else [].

(** [isToOneRelation(field)] *)
Definition isToOneRelation (field : option FieldInfo) : bool :=
  match field with
  | Some f => isDataModel f && negb (isArray f)
  | None => false
  end.

(** *** [and], [or] *)

Definition and (conditions : list value) : value :=
  match conjunction isFalse isObject conditions with
  | AlwaysFalse => VObj [("id", VObj [("in", VArr [])])]
  | NoCondition => VUndef
  | OneCondition c => c
  | AllOf cs => VObj [("AND", VArr cs)]
  end.

Definition or (conditions : list value) : value :=
  match conjunction isTrue isObject conditions with
  | AlwaysFalse => VObj [("id", VObj [("notIn", VArr [])])]
  | NoCondition => VUndef
  | OneCondition c => c
  | AllOf cs => VObj [("OR", VArr cs)]
  end.

(** [and] where the conditions are objects of the heap: what it creates is
    created there. *)
Definition h_and {Store} (conditions : list hval) : M Store hval :=
  match conjunction h_isFalse h_isObject conditions with
  | AlwaysFalse => allocValue (VObj [("id", VObj [("in", VArr [])])])
  | NoCondition => ret HUndef
  | OneCondition c => ret c
  | AllOf cs =>
      arr <- newObject (HArr cs) ;;
      newObject (HObj [("AND", arr)])
  end.

(** *** Nested write traversal (nested-write-vistor)

    The path of a visited operation: the relation field and the filter at
    every level from the root down to the operation. *)

Record NestingPathItem := {
  np_field : option FieldInfo;
  np_where : value;
}.

Record VisitorContext := {
  parent : hval;
  field : option FieldInfo;
  nestingPath : list NestingPathItem;
}.

(** The callbacks the engine gives to the visitor. *)
Inductive NestedWriteKind :=
| on_create
| on_connectOrCreate
| on_update
| on_updateMany
| on_upsert
| on_delete
| on_deleteMany.

Record VisitEvent := {
  ev_kind : NestedWriteKind;
  ev_model : string;
  ev_args : hval;
  ev_context : VisitorContext;
}.

(** Modelled from the spec: [NestedWriteVisitor.visit], "visit every nested
    operation at every depth, in the structural order they appear in the
    argument tree, invoking the caller-supplied callback for each".  A
    traversal is the sequence of callback invocations; what comes after an
    invocation may depend on the argument tree as the callback left it. *)
Inductive Traversal :=
| VisitDone
| VisitNext (e : VisitEvent) (next : heap -> Traversal).

(** *** The transaction ledger of one write call *)

Record Ledger := {
  createdModels : list string;
  updatedModels : list (string * list (value * value));
}.

(** [Set.prototype.add] *)
Definition setAdd (x : string) (s : list string) : list string :=
  if existsb (String.eqb x) s then s else s ++ [x].

(** [Map.prototype.set] on a map keyed by entity ids. *)
Fixpoint mapSet (k : value) (x : value) (m : list (value * value))
    : list (value * value) :=
  match m with
  | [] => [(k, x)]
  | (k', y) :: rest =>
      if strictEq k k' then (k, x) :: rest else (k', y) :: mapSet k x rest
  end.

(** Nesting depth of a value. *)
Fixpoint depth (v : value) : nat :=
  match v with
  | VArr items => S (list_max (map depth items))
  | VObj fs => S (list_max (map (fun kv => depth (snd kv)) fs))
  | _ => O
  end.

(** [root.p1. ... .pn[k] = x], where every object on the way is the
    root's own. *)
Fixpoint assignAt (path : list string) (k : string) (x : value) (root : value)
    : value :=
  match path with
  | [] => VObj (assign k x (spread root))
  | p :: ps => VObj (assign p (assignAt ps k x (get root p)) (spread root))
  end.

Section Methods.
Context {Store : Type}.
Variable this : PolicyUtil Store.

(** [camelCase] of change-case. *)
Variable camelCase : string -> string.
(** [TRANSACTION_FIELD_NAME] of the sdk. *)
Variable TRANSACTION_FIELD_NAME : string.
(** The id [cuid()] draws for the call. *)
Variable cuid : string.
(** The traversal of the visitor for a root model, action and argument
    object, in a heap. *)
Variable visit : string -> string -> hval -> heap -> Traversal.

Definition getAuthGuard (model : string) (operation : PolicyOperationKind)
    (preValue : value) : Outcome value :=
  match guard (policy this) (camelCase model) with
  | None => Thrown (unknownError ("unable to load policy guard for " ++ model))
  | Some guard =>
      match guard operation with
      | Some (ConstantPolicy provider) => Returned (VBool provider)
      | None =>
          Thrown (unknownError
                    ("zenstack: unable to load authorization guard for " ++ model))
      | Some (PolicyFunc provider) =>
          Returned (provider {| ctx_user := user this; ctx_preValue := preValue |})
      end
  end.

(** [args.where = this.and(args.where, guard)] *)
Definition injectAuthGuard (args : hval) (model : string)
    (operation : PolicyOperationKind) : M Store unit :=
  guard <- lift (getAuthGuard model operation VUndef) ;;
  guard <- allocValue guard ;;
  where_ <- getProp args "where" ;;
  c <- h_and [where_; guard] ;;
  setProp args "where" c.

(** [value ? deepcopy(value) : {}]; [deepcopy] gives a value of the same
    shape made of new objects. *)
Definition clone (value : hval) : M Store hval :=
  if h_truthy value then (t <- snapshotOf value ;; allocValue t)
  else newObject (HObj []).

(** The recursion follows the nesting of [select]/[include]; [fuel] bounds
    its depth, and a nesting deeper than that ends as JavaScript's own
    runaway recursion does. *)
Fixpoint injectNestedReadConditions (fuel : nat) (model : string) (args : hval)
    : M Store unit :=
  match fuel with
  | O => throw (RangeError "Maximum call stack size exceeded")
  | S fuel' =>
      select <- getProp args "select" ;;
      injectTarget <- (if h_nullish select then getProp args "include"
                       else ret select) ;;
      if negb (h_truthy injectTarget) then ret tt
      else
        fields <- objectKeys injectTarget ;;
        forEach fields (fun field =>
          match resolveField (modelMeta this) model field with
          | None => ret tt
          | Some fieldInfo =>
              if negb (isDataModel fieldInfo) then
                (* only care about relation fields *)
                ret tt
              else
                (if isArray fieldInfo then
                   current <- getProp injectTarget field ;;
                   (if negb (h_typeofObject current) then
                      o <- newObject (HObj []) ;;
                      setProp injectTarget field o
                    else ret tt) ;;
                   (* inject extra condition for to-many relation *)
                   guard <- lift (getAuthGuard (type fieldInfo) read VUndef) ;;
                   guard <- allocValue guard ;;
                   target <- getProp injectTarget field ;;
                   where_ <- getProp injectTarget "where" ;;
                   c <- h_and [where_; guard] ;;
                   setProp target "where" c
                 else
                   (* make sure 'id' field is selected *)
                   sub <- getProp injectTarget field ;;
                   sel <- getPropOpt sub "select" ;;
                   if h_truthy sel then
                     id <- getProp sel "id" ;;
                     if negb (h_isTrue id) then setProp sel "id" (HBool true)
                     else ret tt
                   else ret tt) ;;
                (* recurse *)
                sub <- getProp injectTarget field ;;
                injectNestedReadConditions fuel' (type fieldInfo) sub
          end)
  end.

Definition checkPolicyForFilter (model : string) (filter : value)
    (operation : PolicyOperationKind) (via : DbHandle) : M Store unit :=
  count <- dbCount this via model (VObj [("where", filter)]) ;;
  guard <- lift (getAuthGuard model operation VUndef) ;;
  (* build a query condition with policy injected *)
  let guardedQuery := VObj [("where", and [filter; guard])] in
  (* query with policy injected *)
  guardedCount <- dbCount this via model guardedQuery ;;
  (* see if we get fewer items with policy, if so, reject with an throw *)
  if (guardedCount <? count)%nat then
    throw (deniedByPolicy model operation
             (Some (String.append (pretty (count - guardedCount)%nat)
                                   " entities failed policy check")))
  else ret tt.

Definition checkPostUpdate (model : string) (id : value) (via : DbHandle)
    (preValue : value) : M Store unit :=
  guard <- lift (getAuthGuard model postUpdate preValue) ;;
  let guardedQuery := VObj [("where", and [VObj [("id", id)]; guard])] in
  guardedCount <- dbCount this via model guardedQuery ;;
  if (guardedCount =? 0)%nat then
    throw (deniedByPolicy model postUpdate (Some "entity failed policy check"))
  else ret tt.

(** [postProcessForRead] with a bound on the depth of its recursion. *)
Fixpoint postProcessForRead_from (fuel : nat) (entityData : value)
    (model : string) (args : value) (operation : PolicyOperationKind)
    : M Store unit :=
  match fuel with
  | O => throw (RangeError "Maximum call stack size exceeded")
  | S fuel' =>
      if negb (truthy (get entityData "id")) then ret tt
      else if nullish args then
        throw (TypeError "Cannot read properties of undefined (reading 'select')")
      else
        let injectTarget := coalesce (get args "select") (get args "include") in
        if negb (truthy injectTarget) then ret tt
        else
          (* to-one relation data cannot be trimmed by injected guards, we
             have to post-check them *)
          forEach (getModelFields injectTarget) (fun field =>
            match resolveField (modelMeta this) model field with
            | None => ret tt
            | Some fieldInfo =>
                if negb (isDataModel fieldInfo) || isArray fieldInfo
                   || negb (truthy (get (get entityData field) "id"))
                then ret tt
                else
                  checkPolicyForFilter (type fieldInfo)
                    (VObj [("id", get (get entityData field) "id")])
                    operation ThisDb ;;
                  (* recurse *)
                  postProcessForRead_from fuel' (get entityData field)
                    (type fieldInfo) (get injectTarget field) operation
            end)
  end.

(** The recursion goes down the entity, one level at a time: its depth
    bounds it. *)
Definition postProcessForRead (entityData : value) (model : string)
    (args : value) (operation : PolicyOperationKind) : M Store unit :=
  postProcessForRead_from (S (depth entityData)) entityData model args operation.

(** [Promise.all] over the result rows is taken in order: the read fails
    if the check of some row fails.  A tree of arguments is never nested
    deeper than the heap has objects, which bounds the injection. *)
Definition readWithCheck (model : string) (args : hval) : M Store (list value) :=
  args <- clone args ;;
  injectAuthGuard args model read ;;
  (* recursively inject read guard conditions into the query args *)
  n <- heapSize ;;
  injectNestedReadConditions n model args ;;
  query <- snapshotOf args ;;
  result <- dbFindMany this ThisDb model query ;;
  forEach result (fun item => postProcessForRead item model query read) ;;
  ret result.

(** *** [processWrite] *)

(** [enumerate(x)] of enhancements/utils: [Array.isArray(x) ? x : [x]] *)
Definition enumerate (x : hval) : M Store (list hval) :=
  fun w =>
    match x with
    | HRef l =>
        match w_heap w !! l with
        | Some (HArr items) => (Returned items, w)
        | _ => (Returned [x], w)
        end
    | _ => (Returned [x], w)
    end.

(** [for (const x of xs) { ... }] around a body that updates the ledger. *)
Fixpoint forEachWith {A} (xs : list A) (ledger : Ledger)
    (body : A -> Ledger -> M Store Ledger) : M Store Ledger :=
  match xs with
  | [] => ret ledger
  | x :: rest =>
      ledger' <- body x ledger ;;
      forEachWith rest ledger' body
  end.

(** [xs.map(f)] for an [f] that allocates. *)
Fixpoint mapEach {A B} (xs : list A) (f : A -> M Store B) : M Store (list B) :=
  match xs with
  | [] => ret []
  | x :: rest =>
      y <- f x ;;
      ys <- mapEach rest f ;;
      ret (y :: ys)
  end.

(** [`${transactionId}:create`] *)
Definition transactionTag : string := String.append cuid ":create".

(** args processor for create *)
Definition processCreate (model : string) (args : hval) (ledger : Ledger)
    : M Store Ledger :=
  guard <- lift (getAuthGuard model create VUndef) ;;
  if isFalse guard then throw (deniedByPolicy model create None)
  else if negb (isTrue guard) then
    (* mark the create with a transaction tag so we can check them later *)
    setProp args TRANSACTION_FIELD_NAME (HStr transactionTag) ;;
    ret {| createdModels := setAdd model (createdModels ledger);
           updatedModels := updatedModels ledger |}
  else ret ledger.

(** The state of the loop of [buildReversedQuery]: the query built so
    far, where in it [currQuery] points, and [currField]. *)
Record ReversedQuery := {
  rq_result : value;
  rq_currQuery : list string;
  rq_currField : option FieldInfo;
}.

Fixpoint buildReversedQuery_loop (segments : list NestingPathItem)
    (state : option ReversedQuery) : Outcome (option ReversedQuery) :=
  match segments with
  | [] => Returned state
  | segment :: rest =>
      match state with
      | None =>
          (* first segment (bottom), just use its where clause *)
          buildReversedQuery_loop rest
            (Some {| rq_result := VObj (spread (np_where segment));
                     rq_currQuery := [];
                     rq_currField := np_field segment |})
      | Some st =>
          match rq_currField st with
          | None => Thrown (unknownError "missing field in nested path")
          | Some currField =>
              match backLink currField with
              | Some link =>
                  if String.eqb link "" then
                    Thrown (unknownError
                      ("field " ++ type currField ++ "." ++ name currField
                       ++ " doesn't have a backLink"))
                  else
                    buildReversedQuery_loop rest
                      (Some {| rq_result :=
                                 assignAt (rq_currQuery st) link
                                   (VObj (spread (np_where segment)))
                                   (rq_result st);
                               rq_currQuery := rq_currQuery st ++ [link];
                               rq_currField := np_field segment |})
              | None =>
                  Thrown (unknownError
                    ("field " ++ type currField ++ "." ++ name currField
                     ++ " doesn't have a backLink"))
              end
          end
      end
  end.

(** build a reversed query for fetching entities affected by nested
    updates: the path is walked from its last segment to its first. *)
Definition buildReversedQuery (context : VisitorContext) : Outcome value :=
  match buildReversedQuery_loop (rev (nestingPath context)) None with
  | Returned (Some st) => Returned (rq_result st)
  | Returned None => Returned VUndef
  | Thrown e => Thrown e
  end.

(** for models with post-update rules, we need to read and store entity
    values before the update for post-update check *)
Definition fetchAndRecordPreValues (model : string) (context : VisitorContext)
    (ledger : Ledger) : M Store Ledger :=
  postGuard <- lift (getAuthGuard model postUpdate VUndef) ;;
  if negb (isTrue postGuard) then
    let modelEntities := default [] (lookup model (updatedModels ledger)) in
    subQuery <- lift (buildReversedQuery context) ;;
    entities <- dbFindMany this ThisDb model (VObj [("where", subQuery)]) ;;
    let modelEntities' :=
      fold_left (fun m entity => mapSet (get entity "id") entity m)
        entities modelEntities in
    ret {| createdModels := createdModels ledger;
           updatedModels := assign model modelEntities' (updatedModels ledger) |}
  else ret ledger.

(** args processor for update/upsert *)
Definition processUpdate (model : string) (args : hval) (context : VisitorContext)
    (ledger : Ledger) : M Store Ledger :=
  preGuard <- lift (getAuthGuard model update VUndef) ;;
  (if isFalse preGuard then throw (deniedByPolicy model update None)
   else if negb (isTrue preGuard) then
     if isToOneRelation (field context) then
       subQuery <- lift (buildReversedQuery context) ;;
       checkPolicyForFilter model subQuery update ThisDb
     else
       (* non-nested update, check policies directly *)
       where_ <- getProp args "where" ;;
       if negb (h_truthy where_) then
         throw (unknownError "Missing 'where' in update args")
       else
         filter <- snapshotOf where_ ;;
         checkPolicyForFilter model filter update ThisDb
   else ret tt) ;;
  fetchAndRecordPreValues model context ledger.

(** args processor for updateMany *)
Definition processUpdateMany (model : string) (args : hval)
    (context : VisitorContext) (ledger : Ledger) : M Store Ledger :=
  guard <- lift (getAuthGuard model update VUndef) ;;
  (if isFalse guard then throw (deniedByPolicy model update None)
   else if negb (isTrue guard) then
     (* inject policy filter *)
     injectAuthGuard args model update
   else ret tt) ;;
  fetchAndRecordPreValues model context ledger.

(** args processor for delete *)
Definition processDelete (model : string) (args : hval) (context : VisitorContext)
    : M Store unit :=
  guard <- lift (getAuthGuard model delete VUndef) ;;
  if isFalse guard then throw (deniedByPolicy model delete None)
  else if negb (isTrue guard) then
    if isToOneRelation (field context) then
      (* see comments in processUpdate *)
      subQuery <- lift (buildReversedQuery context) ;;
      checkPolicyForFilter model subQuery delete ThisDb
    else
      filter <- snapshotOf args ;;
      checkPolicyForFilter model filter delete ThisDb
  else ret tt.

Definition processDeleteMany (model : string) (args : hval)
    (context : VisitorContext) : M Store unit :=
  guard <- lift (getAuthGuard model delete VUndef) ;;
  if isFalse guard then throw (deniedByPolicy model delete None)
  else if negb (isTrue guard) then
    guard <- allocValue guard ;;
    isArr <- isArray_ args ;;
    if isArr then
      items <- enumerate args ;;
      mapped <- mapEach items (fun oneArgs => h_and [oneArgs; guard]) ;;
      arr <- newObject (HArr mapped) ;;
      setProp (parent context) "deleteMany" arr
    else
      c <- h_and [args; guard] ;;
      setProp (parent context) "deleteMany" c
  else ret tt.

(** The callbacks given to the visitor, by kind of operation. *)
Definition callback (e : VisitEvent) (ledger : Ledger) : M Store Ledger :=
  let model := ev_model e in
  let args := ev_args e in
  let context := ev_context e in
  match ev_kind e with
  | on_create =>
      all <- enumerate args ;;
      forEachWith all ledger (fun oneArgs ledger =>
        processCreate model oneArgs ledger)
  | on_connectOrCreate =>
      all <- enumerate args ;;
      forEachWith all ledger (fun oneArgs ledger =>
        c <- getProp oneArgs "create" ;;
        if h_truthy c then processCreate model c ledger else ret ledger)
  | on_update =>
      all <- enumerate args ;;
      forEachWith all ledger (fun oneArgs ledger =>
        processUpdate model oneArgs context ledger)
  | on_updateMany =>
      all <- enumerate args ;;
      forEachWith all ledger (fun oneArgs ledger =>
        processUpdateMany model oneArgs context ledger)
  | on_upsert =>
      all <- enumerate args ;;
      forEachWith all ledger (fun oneArgs ledger =>
        c <- getProp oneArgs "create" ;;
        ledger <- (if h_truthy c then processCreate model c ledger
                   else ret ledger) ;;
        u <- getProp oneArgs "update" ;;
        if h_truthy u then
          where_ <- getProp oneArgs "where" ;;
          updateArgs <- newObject (HObj [("where", where_); ("data", u)]) ;;
          processUpdate model updateArgs context ledger
        else ret ledger)
  | on_delete =>
      all <- enumerate args ;;
      forEachWith all ledger (fun oneArgs ledger =>
        processDelete model oneArgs context ;;
        ret ledger)
  | on_deleteMany =>
      processDeleteMany model args context ;;
      ret ledger
  end.

(** [await visitor.visit(model, action, args)] *)
Fixpoint runVisitor (t : Traversal) (ledger : Ledger) : M Store Ledger :=
  match t with
  | VisitDone => ret ledger
  | VisitNext e next =>
      fun w =>
        match callback e ledger w with
        | (Returned ledger', w') => runVisitor (next (w_heap w')) ledger' w'
        | (Thrown err, w') => (Thrown err, w')
        end
  end.

(** [await writeAction(dbOps, args)], for the operations of [model] on
    the client [via]. *)
Definition performWrite
    (writeAction : string -> value -> Store -> Outcome value * Store)
    (via : DbHandle) (model : string) (args : hval) : M Store value :=
  writeArgs <- snapshotOf args ;;
  fun w =>
    let '(r, s') := writeAction model writeArgs (w_store w) in
    (r, Build_World (w_heap w) s' (w_trace w ++ [CallWrite via model writeArgs])).

(** The first part of [processWrite]: the arguments are processed by the
    visitor before the write is conducted. *)
Definition prepareWrite (model : string) (action : string) (args : hval)
    : M Store Ledger :=
  select <- getProp args "select" ;;
  (if h_truthy select then
     id <- getProp select "id" ;;
     if negb (h_truthy id) then
       (* make sure 'id' field is selected *)
       setProp select "id" (HBool true)
     else ret tt
   else ret tt) ;;
  fun w =>
    runVisitor (visit model action args (w_heap w))
      {| createdModels := []; updatedModels := [] |} w.

(** The post-checks inside the transaction. *)
Definition postChecks (ledger : Ledger) : M Store unit :=
  (if (0 <? length (createdModels ledger))%nat then
     (* do post-check on created entities *)
     forEach (createdModels ledger) (fun model =>
       checkPolicyForFilter model
         (VObj [(TRANSACTION_FIELD_NAME, VStr transactionTag)]) create Tx)
   else ret tt) ;;
  if (0 <? length (updatedModels ledger))%nat then
    (* do post-check on updated entities *)
    forEach
      (flat_map (fun '(model, modelEntities) =>
                   map (fun '(id, preValue) => (model, id, preValue)) modelEntities)
         (updatedModels ledger))
      (fun '(model, id, preValue) => checkPostUpdate model id Tx preValue)
  else ret tt.

Definition processWrite (model : string) (action : string) (args : hval)
    (writeAction : string -> value -> Store -> Outcome value * Store)
    : M Store value :=
  ledger <- prepareWrite model action args ;;
  if (length (createdModels ledger) =? 0)%nat
     && (length (updatedModels ledger) =? 0)%nat then
    (* no post-check needed, we can proceed with the write without
       transaction *)
    performWrite writeAction ThisDb model args
  else
    transaction (
      (* proceed with the update (with args processed) *)
      result <- performWrite writeAction Tx model args ;;
      postChecks ledger ;;
      ret result).

End Methods.

(** *** The reversed query as the design describes it

    "Walking the path from the bottom up, at each level nesting the
    parent's filter inside the back-link relation field of the current
    level": the filter of a path given innermost segment first. *)

Definition segmentBackLink (segment : NestingPathItem) : option string :=
  match np_field segment with
  | Some f =>
      match backLink f with
      | Some link => if String.eqb link "" then None else Some link
      | None => None
      end
  | None => None
  end.

Fixpoint nestFilters (segments : list NestingPathItem) : option value :=
  match segments with
  | [] => None
  | segment :: above =>
      match above with
      | [] => Some (VObj (spread (np_where segment)))
      | _ =>
          match segmentBackLink segment, nestFilters above with
          | Some link, Some parentFilter =>
              Some (VObj (assign link parentFilter (spread (np_where segment))))
          | _, _ => None
          end
      end
  end.

(** The filters of levels already walked, around the filter of the level
    reached. *)
Fixpoint wrapFilters (walked : list NestingPathItem) (x : value) : value :=
  match walked with
  | [] => x
  | segment :: above =>
      VObj (assign (default "" (segmentBackLink segment)) (wrapFilters above x)
              (spread (np_where segment)))
  end.

End Runtime.

(** ** A reference store

    The engine runs against a store it only calls.  This one has what the
    design asks of a store and no more; it serves to run the engine on
    samples and to say what a filter selects. *)

Module ReferenceStore.
Import Js Runtime.

(** Modelled from the spec: the underlying store, which "supports composite
    boolean filter predicates (AND/OR/NOT over field/relation comparisons),
    counting rows matching a filter, [ ... ] and relational include/select
    of nested records".  Tables hold rows of scalar fields; relations are
    given by the ids of the related rows. *)
Record Database := {
  table : string -> list value;
  relatedIds : string -> string -> value -> list value;
}.

Section Queries.
Variable meta : ModelMeta.
Variable D : Database.

(** The rows a relation field of a row leads to. *)
Definition relatedRows (model field : string) (row : value) : list value :=
  match resolveField meta model field with
  | Some fi =>
      List.filter
        (fun r => existsb (strictEq (get r "id"))
                    (relatedIds D model field (get row "id")))
        (table D (type fi))
  | None => []
  end.

Definition elements (v : value) : list value :=
  match v with VArr items => items | _ => [] end.

(** A condition on a scalar field: a value to equal, or an object of
    operators. *)
Definition scalarMatches (condition : value) (x : value) : bool :=
  match condition with
  | VObj ops =>
      forallb (fun '(op, arg) =>
        if String.eqb op "equals" then strictEq x arg
        else if String.eqb op "not" then negb (strictEq x arg)
        else if String.eqb op "in" then existsb (strictEq x) (elements arg)
        else if String.eqb op "notIn" then negb (existsb (strictEq x) (elements arg))
        else false) ops
  | _ => strictEq x condition
  end.

(** Modelled from the spec: "composite boolean filter predicates
    (AND/OR/NOT over field/relation comparisons)".  Every key of a filter
    object must hold of the row; a key that names a relation field holds
    when a related row satisfies the nested filter.  No filter, no
    condition. *)
Fixpoint matches (model : string) (filter : value) (row : value) {struct filter}
    : bool :=
  match filter with
  | VObj fs =>
      (fix every (l : list (string * value)) : bool :=
         match l with
         | [] => true
         | (k, v) :: rest =>
             (if String.eqb k "AND" then
                match v with
                | VArr cs =>
                    (fix each (cs : list value) : bool :=
                       match cs with
                       | [] => true
                       | c :: cs' => matches model c row && each cs'
                       end) cs
                | _ => matches model v row
                end
              else if String.eqb k "OR" then
                match v with
                | VArr cs =>
                    (fix some (cs : list value) : bool :=
                       match cs with
                       | [] => false
                       | c :: cs' => matches model c row || some cs'
                       end) cs
                | _ => matches model v row
                end
              else if String.eqb k "NOT" then negb (matches model v row)
              else
                match resolveField meta model k with
                | Some fi =>
                    if isDataModel fi then
                      existsb (fun r => matches (type fi) v r)
                        (relatedRows model k row)
                    else scalarMatches v (get row k)
                | None => scalarMatches v (get row k)
                end)
             && every rest
         end) fs
  | _ => true
  end.

Definition selected (model : string) (where_ : value) : list value :=
  List.filter (matches model where_) (table D model).

(** Modelled from the spec: "relational include/select of nested
    records".  The scalar fields asked for (all of them without a [select])
    and the relations asked for, each loaded under its own nested
    arguments. *)
Fixpoint project (fuel : nat) (model : string) (args : value) (row : value)
    : value :=
  match fuel with
  | O => row
  | S fuel' =>
      let load := fun (k : string) (sub : value) =>
        match resolveField meta model k with
        | Some fi =>
            if isDataModel fi then
              let rel := relatedRows model k row in
              if isArray fi then
                VArr (map (project fuel' (type fi) sub)
                        (List.filter (matches (type fi) (get sub "where")) rel))
              else
                match rel with
                | [] => VNull
                | r :: _ => project fuel' (type fi) sub r
                end
            else get row k
        | None => get row k
        end in
      let asked := fun (spec : value) =>
        omap (fun k => if truthy (get spec k) then Some (k, load k (get spec k))
                       else None) (keys spec) in
      let select := get args "select" in
      let include := get args "include" in
      if truthy select then VObj (asked select)
      else VObj (spread row ++ (if truthy include then asked include else []))
  end.

(** A row of [model] is reachable along a path (innermost segment first)
    when it satisfies the filter of its level and is related, through the
    field of its segment, to a row of the level above that is reachable
    along the rest of the path; at the root the filter alone decides. *)
Fixpoint reachable (model : string) (segments : list NestingPathItem) (row : value)
    : bool :=
  match segments with
  | [] => false
  | segment :: above =>
      matches model (VObj (spread (np_where segment))) row
      && match above with
         | [] => true
         | _ =>
             match np_field segment, segmentBackLink segment with
             | Some f, Some link =>
                 match resolveField meta model link with
                 | Some owner =>
                     existsb
                       (fun parent =>
                          existsb (strictEq (get row "id"))
                            (relatedIds D (type owner) (name f) (get parent "id"))
                          && reachable (type owner) above parent)
                       (table D (type owner))
                 | None => false
                 end
             | _, _ => false
             end
         end
  end.

(** A path whose every level below the root has a back-link that is a
    relation field of the level's model, is not a key of the level's own
    filter, and agrees with the forward relation it reverses. *)
Inductive linkedPath : string -> list NestingPathItem -> Prop :=
| linked_root model root :
    linkedPath model [root]
| linked_step model segment above f link owner :
    np_field segment = Some f ->
    segmentBackLink segment = Some link ->
    existsb (String.eqb link) ["AND"; "OR"; "NOT"] = false ->
    lookup link (spread (np_where segment)) = None ->
    resolveField meta model link = Some owner ->
    isDataModel owner = true ->
    (forall row parent,
        In row (table D model) -> In parent (table D (type owner)) ->
        existsb (strictEq (get parent "id"))
          (relatedIds D model link (get row "id"))
        = existsb (strictEq (get row "id"))
            (relatedIds D (type owner) (name f) (get parent "id"))) ->
    above <> [] ->
    linkedPath (type owner) above ->
    linkedPath model (segment :: above).

End Queries.

(** Modelled from the spec: "filtered count, filtered find". *)
Definition referenceDb (meta : ModelMeta) : DbClientContract Database :=
  {| count := fun model args D =>
       length (selected meta D model (get args "where"));
     findMany := fun model args D =>
       map (project meta D (S (depth args)) model args)
         (selected meta D model (get args "where")) |}.

Definition insertRows (model : string) (rows : list value) (D : Database)
    : Database :=
  {| table := fun m => if String.eqb m model then table D m ++ rows else table D m;
     relatedIds := relatedIds D |}.

End ReferenceStore.

(** ** A sample application: users and their posts *)

Module Blog.
Import Js Runtime ReferenceStore.

Definition scalar (n t : string) : FieldInfo :=
  {| name := n; type := t; isDataModel := false; isArray := false;
     backLink := None |}.

(** model User { id, name, public, posts Post[] }
    model Post { id, title, published, authorId, author User }
    model Secret { id } *)
Definition meta : ModelMeta :=
  {| resolveField := fun model field =>
       if String.eqb model "User" then
         if String.eqb field "posts" then
           Some {| name := "posts"; type := "Post"; isDataModel := true;
                   isArray := true; backLink := Some "author" |}
         else if String.eqb field "id" then Some (scalar "id" "String")
         else if String.eqb field "name" then Some (scalar "name" "String")
         else if String.eqb field "public" then Some (scalar "public" "Boolean")
         else None
       else if String.eqb model "Post" then
         if String.eqb field "author" then
           Some {| name := "author"; type := "User"; isDataModel := true;
                   isArray := false; backLink := Some "posts" |}
         else if String.eqb field "id" then Some (scalar "id" "String")
         else if String.eqb field "title" then Some (scalar "title" "String")
         else if String.eqb field "published" then Some (scalar "published" "Boolean")
         else if String.eqb field "authorId" then Some (scalar "authorId" "String")
         else None
       else if String.eqb model "Secret" then
         if String.eqb field "id" then Some (scalar "id" "String") else None
       else None |}.

(** [camelCase] on the model names of the sample. *)
Definition camelCase (s : string) : string :=
  if String.eqb s "User" then "user"
  else if String.eqb s "Post" then "post"
  else if String.eqb s "Secret" then "secret"
  else s.

(** User: @@allow('read', public)  @@allow('create', true)
    Post: @@allow('read', published)  @@allow('create,update', author == auth())
    Secret: no rule *)
Definition policies : PolicyDef :=
  {| guard := fun model =>
       if String.eqb model "user" then
         Some (fun op =>
           match op with
           | read => Some (PolicyFunc (fun _ => VObj [("public", VBool true)]))
           | create => Some (ConstantPolicy true)
           | postUpdate => Some (ConstantPolicy true)
           | _ => Some (ConstantPolicy false)
           end)
       else if String.eqb model "post" then
         Some (fun op =>
           match op with
           | read => Some (PolicyFunc (fun _ => VObj [("published", VBool true)]))
           | create | update =>
               Some (PolicyFunc (fun context =>
                 VObj [("authorId", get (ctx_user context) "id")]))
           | postUpdate => Some (ConstantPolicy true)
           | delete => Some (ConstantPolicy false)
           end)
       else if String.eqb model "secret" then
         Some (fun _ => Some (ConstantPolicy false))
       else None |}.

Definition userRow (id name : string) (public : bool) : value :=
  VObj [("id", VStr id); ("name", VStr name); ("public", VBool public)].

Definition postRow (id title : string) (published : bool) (authorId : string)
    : value :=
  VObj [("id", VStr id); ("title", VStr title); ("published", VBool published);
        ("authorId", VStr authorId)].

Definition database : Database :=
  {| table := fun model =>
       if String.eqb model "User" then
         [userRow "u1" "alice" true; userRow "u2" "bob" false]
       else if String.eqb model "Post" then
         [postRow "p1" "hello" true "u1"; postRow "p2" "hello" true "u2";
          postRow "p3" "draft" false "u1"; postRow "p4" "other" true "u1"]
       else if String.eqb model "Secret" then [VObj [("id", VStr "s1")]]
       else [];
     relatedIds := fun model field id =>
       if String.eqb model "User" && String.eqb field "posts" then
         if strictEq id (VStr "u1") then [VStr "p1"; VStr "p3"; VStr "p4"]
         else if strictEq id (VStr "u2") then [VStr "p2"]
         else []
       else if String.eqb model "Post" && String.eqb field "author" then
         if strictEq id (VStr "p2") then [VStr "u2"]
         else if existsb (strictEq id) [VStr "p1"; VStr "p3"; VStr "p4"]
         then [VStr "u1"]
         else []
       else [] |}.

(** The enforcement utilities for the caller [u1]. *)
Definition this : PolicyUtil Database :=
  {| db := referenceDb meta;
     modelMeta := meta;
     policy := policies;
     user := VObj [("id", VStr "u1")] |}.

Definition TRANSACTION_FIELD_NAME : string := "zenstack_transaction".
Definition cuid : string := "clg3x0a2k0000".

(** The sample's traversal of a write: the root operation, then for a
    create the creates nested one level below it. *)
Definition rootContext (args : hval) (where_ : value) : VisitorContext :=
  {| parent := args; field := None;
     nestingPath := [ {| np_field := None; np_where := where_ |} ] |}.

Fixpoint nestedCreates (h : heap) (model : string) (data : hval)
    (fields : list string) : Traversal :=
  match fields with
  | [] => VisitDone
  | f :: rest =>
      match resolveField meta model f, h_get h data f with
      | Some fi, Some (HRef l) =>
          if isDataModel fi && h_truthy (default HUndef (h_get h (HRef l) "create"))
          then
            VisitNext
              {| ev_kind := on_create; ev_model := type fi;
                 ev_args := default HUndef (h_get h (HRef l) "create");
                 ev_context :=
                   {| parent := HRef l; field := Some fi;
                      nestingPath :=
                        [ {| np_field := None; np_where := VUndef |};
                          {| np_field := Some fi; np_where := VUndef |} ] |} |}
              (fun h' => nestedCreates h' model data rest)
          else nestedCreates h model data rest
      | _, _ => nestedCreates h model data rest
      end
  end.

Definition visit (model action : string) (args : hval) (h : heap) : Traversal :=
  if String.eqb action "create" then
    let data := default HUndef (h_get h args "data") in
    VisitNext
      {| ev_kind := on_create; ev_model := model; ev_args := data;
         ev_context := rootContext args VUndef |}
      (fun h' => nestedCreates h' model data (h_keys h' data))
  else
    let where_ := default HUndef (h_get h args "where") in
    let kind :=
      if String.eqb action "update" then on_update
      else if String.eqb action "updateMany" then on_updateMany
      else if String.eqb action "deleteMany" then on_deleteMany
      else on_delete in
    VisitNext
      {| ev_kind := kind; ev_model := model;
         ev_args := if String.eqb action "delete" then where_ else args;
         ev_context :=
           rootContext args (default VUndef (snapshot h where_)) |}
      (fun _ => VisitDone).

(** The sample's write action: a create inserts the row of scalar fields
    of [data] and the rows of the creates nested one level below it. *)
Definition scalarsOf (data : value) : value :=
  VObj (List.filter (fun '(_, v) => negb (isObject v)) (spread data)).

Definition nestedRows (model : string) (data : value) : list (string * list value) :=
  omap (fun '(k, v) =>
          match resolveField meta model k with
          | Some fi =>
              if isDataModel fi && truthy (get v "create") then
                Some (type fi,
                      match get v "create" with
                      | VArr items => map scalarsOf items
                      | one => [scalarsOf one]
                      end)
              else None
          | None => None
          end) (spread data).

Definition writeAction (model : string) (args : value) (D : Database)
    : Outcome value * Database :=
  let data := get args "data" in
  if truthy data then
    (Returned (scalarsOf data),
     fold_left (fun D '(m, rows) => insertRows m rows D)
       (nestedRows model data) (insertRows model [scalarsOf data] D))
  else (Returned VUndef, D).

(** A world with the sample database, an empty heap but for the given
    argument object, and no call made yet. *)
Definition start (args : value) : hval * World Database :=
  let '(r, h) := alloc args [] in
  (r, {| w_heap := h; w_store := database; w_trace := [] |}).

Definition run {A} (args : value) (f : hval -> M Database A)
    : Outcome A * World Database :=
  let '(r, w) := start args in f r w.

Definition readWithCheck (model : string) (args : value) :=
  run args (Runtime.readWithCheck this camelCase model).

Definition processWrite (model action : string) (args : value) :=
  run args (fun r =>
    Runtime.processWrite this camelCase TRANSACTION_FIELD_NAME cuid visit
      model action r writeAction).

End Blog.

(** ** A second sample: the chain A - B - C of the comment in [processUpdate] *)

Module Chain.
Import Js Runtime ReferenceStore.

Definition relation (n t : string) (link : option string) : FieldInfo :=
  {| name := n; type := t; isDataModel := true; isArray := false;
     backLink := link |}.

Definition bOfA : FieldInfo := relation "b" "B" (Some "a").
Definition aOfB : FieldInfo := relation "a" "A" (Some "b").
Definition cOfB : FieldInfo := relation "c" "C" (Some "b").
Definition bOfC : FieldInfo := relation "b" "B" (Some "c").

(** model A { id, b B }  model B { id, a A, c C }  model C { id, value, b B } *)
Definition meta : ModelMeta :=
  {| resolveField := fun model field =>
       if String.eqb model "A" && String.eqb field "b" then Some bOfA
       else if String.eqb model "B" && String.eqb field "a" then Some aOfB
       else if String.eqb model "B" && String.eqb field "c" then Some cOfB
       else if String.eqb model "C" && String.eqb field "b" then Some bOfC
       else None |}.

Definition row (id : string) : value := VObj [("id", VStr id)].

(** a1 - b1 - c1 and a2 - b2 - c2 *)
Definition database : Database :=
  {| table := fun model =>
       if String.eqb model "A" then [row "a1"; row "a2"]
       else if String.eqb model "B" then [row "b1"; row "b2"]
       else if String.eqb model "C" then [row "c1"; row "c2"]
       else [];
     relatedIds := fun model field id =>
       let pairs :=
         if String.eqb model "A" && String.eqb field "b" then
           [("a1", "b1"); ("a2", "b2")]
         else if String.eqb model "B" && String.eqb field "a" then
           [("b1", "a1"); ("b2", "a2")]
         else if String.eqb model "B" && String.eqb field "c" then
           [("b1", "c1"); ("b2", "c2")]
         else if String.eqb model "C" && String.eqb field "b" then
           [("c1", "b1"); ("c2", "b2")]
         else [] in
       omap (fun '(x, y) => if strictEq id (VStr x) then Some (VStr y) else None)
         pairs |}.

(** The path of the update of [c] in
    [update A { where: { id: 'a1' }, data: { b: { update: { c: { update: ... } } } } }] *)
Definition pathToC : list NestingPathItem :=
  [ {| np_field := None; np_where := VObj [("id", VStr "a1")] |};
    {| np_field := Some bOfA; np_where := VUndef |};
    {| np_field := Some cOfB; np_where := VUndef |} ].

Definition contextOf (path : list NestingPathItem) : VisitorContext :=
  {| parent := HUndef; field := None; nestingPath := path |}.

(** The same path through a field of [A] that has no back-link. *)
Definition pathWithoutBackLink : list NestingPathItem :=
  [ {| np_field := None; np_where := VObj [("id", VStr "a1")] |};
    {| np_field := Some (relation "b" "B" None); np_where := VUndef |};
    {| np_field := Some cOfB; np_where := VUndef |} ].

(** The same path with a filter at the level of [B] that has the
    back-link [a] for a key. *)
Definition pathWithCollision : list NestingPathItem :=
  [ {| np_field := None; np_where := VObj [("id", VStr "a1")] |};
    {| np_field := Some bOfA;
       np_where := VObj [("a", VObj [("id", VStr "a2")])] |};
    {| np_field := Some cOfB; np_where := VUndef |} ].

End Chain.

(** * Vocabulary of the properties *)

Module Vocabulary.
Import Js Runtime.
Local Open Scope monad_scope.

(** ** Counting *)

Definition whereOnly (filter : value) : value := VObj [("where", filter)].

Definition alwaysFalse : value := VObj [("id", VObj [("in", VArr [])])].

(** What a caller may pass for a filter: an object, or nothing. *)
Definition isFilter (filter : value) : Prop :=
  filter = VUndef \/ isObject filter = true.

(** ** The database across a computation *)

(** A computation that leaves the database as it found it. *)
Definition keepsStore {Store A} (m : M Store A) : Prop :=
  forall w, w_store (snd (m w)) = w_store w.

(** A computation that touches no object and only adds calls to the
    database. *)
Definition queriesOnly {Store A} (m : M Store A) : Prop :=
  forall w,
    w_heap (snd (m w)) = w_heap w
    /\ exists calls, w_trace (snd (m w)) = w_trace w ++ calls.

(** ** Objects of the caller and objects of the call *)

(** A value that, if it is a reference, refers to an object allocated at
    [n] or later; an object all of whose members are such. *)
Definition freshFrom (n : nat) (v : hval) : Prop :=
  match v with HRef l => n <= l | _ => True end.

Definition freshObject (n : nat) (o : hobj) : Prop :=
  match o with
  | HObj fs => Forall (fun kv => freshFrom n (snd kv)) fs
  | HArr items => Forall (freshFrom n) items
  end.

(** The result of an allocation in [h]: the heap has only grown, and what
    was added is fresh. *)
Definition extendsFresh {A} (P : nat -> A -> Prop) (h : heap) (r : A * heap) : Prop :=
  exists ext,
    snd r = h ++ ext
    /\ P (length h) (fst r)
    /\ Forall (freshObject (length h)) ext.

(** A heap grown from [h0] in which the objects of [h0] are what they were
    and the objects allocated since then refer to one another only. *)
Definition good (h0 h : heap) : Prop :=
  length h0 <= length h
  /\ (forall l, l < length h0 -> h !! l = h0 !! l)
  /\ (forall l o, length h0 <= l -> h !! l = Some o -> freshObject (length h0) o).

Definition fresh (h0 : heap) (v : hval) : Prop := freshFrom (length h0) v.

(** A world reached from heap [h0], database [s0] and calls [t0] by work on
    fresh objects only; and a computation that keeps it so, returns what
    satisfies [Post] and throws no policy denial. *)
Definition settled {Store} (h0 : heap) (s0 : Store) (t0 : list DbCall)
    (w : World Store) : Prop :=
  good h0 (w_heap w) /\ w_store w = s0 /\ w_trace w = t0.

Definition prepares {Store} (h0 : heap) (s0 : Store) (t0 : list DbCall) {A}
    (m : M Store A) (Post : A -> Prop) : Prop :=
  forall w, settled h0 s0 t0 w ->
    settled h0 s0 t0 (snd (m w))
    /\ match fst (m w) with
       | Returned a => Post a
       | Thrown e => isPolicyDenied e = false
       end.

(** ** Parts of the engine *)

Section Parts.
Context {Store : Type}.
Variable this : PolicyUtil Store.
Variable camelCase : string -> string.

(** The two parts of [readWithCheck]. *)
Definition beforeQuery (model : string) (args : hval) : M Store value :=
  args <- clone args ;;
  injectAuthGuard this camelCase args model read ;;
  n <- heapSize ;;
  injectNestedReadConditions this camelCase n model args ;;
  snapshotOf args.

Definition queryAndCheck (model : string) (query : value) : M Store (list value) :=
  result <- dbFindMany this ThisDb model query ;;
  forEach result (fun item =>
    postProcessForRead this camelCase item model query read) ;;
  ret result.

(** The compiled entry for the model and the operation is the constant
    [false]. *)
Definition staticFalse (model : string) (operation : PolicyOperationKind) : Prop :=
  exists g,
    guard (policy this) (camelCase model) = Some g
    /\ g operation = Some (ConstantPolicy false).

End Parts.

(** ** Paths *)

Definition linkOf (segment : NestingPathItem) : string :=
  default "" (segmentBackLink segment).

End Vocabulary.

(** * Further vocabulary: conditions, readings of the heap, the ledger *)

Module Conditions.
Import Js Runtime ReferenceStore.

(** What a condition passed to [and] asks of a row: nothing satisfies
    [false], an object is a filter, and anything else asks nothing. *)
Definition holds (meta : ModelMeta) (D : Database) (model : string)
    (c : value) (row : value) : bool :=
  if isFalse c then false
  else if isObject c then matches meta D model c row
  else true.

(** What a condition passed to [or] offers a row: [true] accepts every
    row, an object is a filter, and anything else accepts none. *)
Definition accepts (meta : ModelMeta) (D : Database) (model : string)
    (c : value) (row : value) : bool :=
  if isTrue c then true
  else if isObject c then matches meta D model c row
  else false.

(** [id] does not name a relation of the model. *)
Definition idIsScalar (meta : ModelMeta) (model : string) : Prop :=
  match resolveField meta model "id" with
  | Some fi => isDataModel fi = false
  | None => True
  end.

(** No key of a [select] or [include] object names a relation of the
    model. *)
Definition noRelationAmong (meta : ModelMeta) (model : string) (target : value)
    : Prop :=
  forall field, In field (keys target) ->
    match resolveField meta model field with
    | Some fi => isDataModel fi = false
    | None => True
    end.

End Conditions.

(** ** Reading argument objects out of the heap *)

Module Reading.
Import Js Runtime.

(** A part of the heap, as the set of its locations. *)
Definition region := nat -> Prop.

(** [h2] holds at every location of [S] what [h1] holds there. *)
Definition agree (S : region) (h1 h2 : heap) : Prop :=
  forall l, S l -> h2 !! l = h1 !! l.

Definition within (S : region) (h : heap) : Prop :=
  forall l, S l -> l < length h.

Definition allocated (lo hi : nat) : region := fun l => lo <= l < hi.

Definition union (S T : region) : region := fun l => S l \/ T l.

(** [x'] reads as the value [x] in [h], the part [S] of [h] being all that
    the reading looks at. *)
Definition represents (h : heap) (S : region) (x' : hval) (x : value) : Prop :=
  forall h' n, agree S h h' -> depth x <= n -> reify n h' x' = Some x.

Definition representsField (h : heap) (S : region)
    (kx' : string * hval) (kx : string * value) : Prop :=
  fst kx' = fst kx /\ represents h S (snd kx') (snd kx).

(** [r] is an object of [h] with the properties [fs], their values being
    read in the part [S] of [h], to which the object itself does not
    belong. *)
Definition objectIn (h : heap) (S : region) (r : hval)
    (fs : list (string * value)) : Prop :=
  exists l fs',
    r = HRef l
    /\ h !! l = Some (HObj fs')
    /\ ~ S l
    /\ within S h
    /\ Forall2 (representsField h S) fs' fs
    /\ depth (VObj fs) <= length h.

(** [r] is an object of [h] that is the root of a tree of objects and
    reads as [VObj fs]. *)
Definition objectAt (h : heap) (r : hval) (fs : list (string * value)) : Prop :=
  exists S, objectIn h S r fs.

End Reading.

(** ** Calls to the database and the ledger of a write *)

Module Ledgers.
Import Js Runtime.

(** A query through the client itself; a count through the client of the
    transaction. *)
Definition isQuery (c : DbCall) : bool :=
  match c with
  | CallCount ThisDb _ _ | CallFindMany ThisDb _ _ => true
  | _ => false
  end.

Definition isTxCount (c : DbCall) : bool :=
  match c with
  | CallCount Tx _ _ => true
  | _ => false
  end.

(** A computation all of whose calls to the database satisfy [p]. *)
Definition onlyCalls {Store A} (p : DbCall -> bool) (m : M Store A) : Prop :=
  forall w, exists calls,
    w_trace (snd (m w)) = w_trace w ++ calls /\ forallb p calls = true.

(** What a computation returns, when it returns, satisfies [Post]. *)
Definition yields {Store A} (m : M Store A) (Post : A -> Prop) : Prop :=
  forall w a w', m w = (Returned a, w') -> Post a.

(** A computation that fails with a policy denial if it fails at all. *)
Definition deniesOnly {Store A} (m : M Store A) : Prop :=
  forall w e w', m w = (Thrown e, w') -> isPolicyDenied e = true.

(** [createdModels.size > 0 || updatedModels.size > 0] *)
Definition hasObligations (ledger : Ledger) : bool :=
  negb ((length (createdModels ledger) =? 0)%nat
        && (length (updatedModels ledger) =? 0)%nat).

Section Justified.
Context {Store : Type}.
Variable this : PolicyUtil Store.
Variable camelCase : string -> string.

(** A ledger every entry of which is there for a reason: a model is among
    the created ones once, and its create guard is not a constant; a model
    is among the updated ones once, its post-update guard is not the
    constant true, and each of its entities is recorded under its own
    [id]. *)
Definition justified (ledger : Ledger) : Prop :=
  NoDup (createdModels ledger)
  /\ Forall (fun model =>
       exists G, getAuthGuard this camelCase model create VUndef = Returned G
                 /\ isFalse G = false /\ isTrue G = false)
       (createdModels ledger)
  /\ NoDup (map fst (updatedModels ledger))
  /\ Forall (fun entry =>
       (exists G, getAuthGuard this camelCase (fst entry) postUpdate VUndef
                  = Returned G
                  /\ isTrue G = false)
       /\ Forall (fun ie => fst ie = get (snd ie) "id") (snd entry))
       (updatedModels ledger).

End Justified.

End Ledgers.

(** ** Bounded recursion *)

Module Termination.
Import Js Runtime.

(** A computation that never ends in the error of a recursion that ran
    too deep. *)
Definition neverOverflows {Store A} (m : M Store A) : Prop :=
  forall w message, fst (m w) <> Thrown (RangeError message).

End Termination.

(** ** More of the policy compiler *)

Module Generated.
Import Js PolicyGuardGenerator.

(** A declaration of a schema: a data model, or something else (an enum,
    a data source, ...). *)
Inductive Declaration :=
| DataModelDecl (model : DataModel)
| OtherDecl (name : string).

(** [extractDataModelsWithAllowRules] of utils/ast-utils.ts, on
    [model.declarations]. *)
Definition extractDataModelsWithAllowRules (declarations : list Declaration)
    : list DataModel :=
  omap (fun d =>
          match d with
          | DataModelDecl m =>
              if existsb (fun attr => String.eqb (decl attr) "@@allow")
                   (attributes m)
              then Some m else None
          | OtherDecl _ => None
          end) declarations.

(** The body of a generated guard function returns the object its
    initializer writes.  [write] stands for what [ExpressionWriter] writes
    for a rule expression, taken as the object that text denotes. *)
Section GuardObject.
Variable write : Expression -> value.
(** [GUARD_FIELD_NAME] of the sdk. *)
Variable GUARD_FIELD_NAME : string.

(** [writeDenies]: every expression under [NOT], the lot under [AND] when
    there is more than one; nothing is written for no expression. *)
Definition writeDenies (denies : list Expression) : value :=
  match map (fun expr => VObj [("NOT", write expr)]) denies with
  | [] => VUndef
  | [one] => one
  | several => VObj [("AND", VArr several)]
  end.

(** [writeAllows]: the expressions under [OR] when there is more than
    one. *)
Definition writeAllows (allows : list Expression) : value :=
  match map write allows with
  | [] => VUndef
  | [one] => one
  | several => VObj [("OR", VArr several)]
  end.

Definition guardObject (allows denies : list Expression) : value :=
  if (0 <? length allows)%nat && (0 <? length denies)%nat then
    VObj [("AND", VArr [writeDenies denies; writeAllows allows])]
  else if (0 <? length denies)%nat then writeDenies denies
  else if (0 <? length allows)%nat then writeAllows allows
  else
    (* disallow any operation *)
    VObj [(GUARD_FIELD_NAME, VBool false)].

End GuardObject.

End Generated.

(** * Properties of the policy compiler *)

Module CompilerProps.
Import PolicyGuardGenerator.

Lemma visitLeaf_spec e p :
  visitLeaf e p = if Bool.eqb (hasFutureReference e) p then Some e else None.
Proof.
  unfold visitLeaf. destruct p, (hasFutureReference e); reflexivity.
Qed.

Lemma visit_leaf e p :
  isLogicalNode e = false ->
  visitPolicyExpression e p = visitLeaf e p.
Proof.
  destruct e; simpl; intros H; try reflexivity; now rewrite H.
Qed.

Lemma visit_not op o p :
  String.eqb op "!" = true ->
  visitPolicyExpression (UnaryExpr op o) p
  = option_map (UnaryExpr op) (visitPolicyExpression o p).
Proof.
  intros H. simpl. rewrite H.
  now destruct (visitPolicyExpression o p).
Qed.

Lemma visit_binary op l r p :
  isLogicalOperator op = true ->
  visitPolicyExpression (BinaryExpr op l r) p
  = match visitPolicyExpression l p, visitPolicyExpression r p with
    | Some l', Some r' => Some (BinaryExpr op l' r')
    | Some l', None => Some l'
    | None, r' => r'
    end.
Proof.
  intros H. simpl. rewrite H.
  now destruct (visitPolicyExpression l p), (visitPolicyExpression r p).
Qed.

Lemma leaves_leaf e : isLogicalNode e = false -> leaves e = [e].
Proof.
  destruct e; simpl; intros H; try reflexivity; now rewrite H.
Qed.

(** The leaves that survive on one side are the leaves of the rule that
    belong to that side, in their order. *)
Lemma visit_leaves e : forall p,
  leavesOpt (visitPolicyExpression e p)
  = List.filter (fun l => Bool.eqb (hasFutureReference l) p) (leaves e).
Proof.
  assert (Hleaf : forall e p, isLogicalNode e = false ->
            leavesOpt (visitPolicyExpression e p)
            = List.filter (fun l => Bool.eqb (hasFutureReference l) p) (leaves e)).
  { intros e0 p H. rewrite visit_leaf, visitLeaf_spec, leaves_leaf by assumption.
    simpl. destruct (Bool.eqb (hasFutureReference e0) p); simpl;
      [now apply leaves_leaf | reflexivity]. }
  induction e; intros p; try (apply Hleaf; reflexivity).
  - destruct (String.eqb operator "!") eqn:Hop.
    + rewrite visit_not by assumption. simpl leaves. rewrite Hop, <- IHe.
      destruct (visitPolicyExpression e p); simpl; [now rewrite Hop | reflexivity].
    + apply Hleaf. simpl. exact Hop.
  - destruct (isLogicalOperator operator) eqn:Hop.
    + rewrite visit_binary by assumption. simpl leaves. rewrite Hop.
      rewrite List.filter_app, <- IHe1, <- IHe2.
      destruct (visitPolicyExpression e1 p), (visitPolicyExpression e2 p); simpl;
        rewrite ?Hop, ?app_nil_r; reflexivity.
    + apply Hleaf. simpl. exact Hop.
Qed.

Lemma visit_pruned e : forall p e',
  visitPolicyExpression e p = Some e' -> pruned e e'.
Proof.
  assert (Hleaf : forall e p e', isLogicalNode e = false ->
            visitPolicyExpression e p = Some e' -> pruned e e').
  { intros e0 p e' H. rewrite visit_leaf, visitLeaf_spec by assumption.
    destruct (Bool.eqb _ _); intros [= <-]. now constructor. }
  induction e; intros p e'; try (apply Hleaf; reflexivity).
  - destruct (String.eqb operator "!") eqn:Hop.
    + rewrite visit_not by assumption.
      destruct (visitPolicyExpression e p) eqn:E; simpl; intros [= <-].
      constructor; eauto.
    + apply Hleaf. simpl. exact Hop.
  - destruct (isLogicalOperator operator) eqn:Hop.
    + rewrite visit_binary by assumption.
      destruct (visitPolicyExpression e1 p) eqn:E1,
               (visitPolicyExpression e2 p) eqn:E2; intros [= <-].
      * apply pruned_both; eauto.
      * apply pruned_left; eauto.
      * apply pruned_right; eauto.
    + apply Hleaf. simpl. exact Hop.
Qed.

(** An expression never vanishes from both sides. *)
Lemma visit_some_side e :
  visitPolicyExpression e false = None ->
  visitPolicyExpression e true <> None.
Proof.
  assert (Hleaf : forall e, isLogicalNode e = false ->
            visitPolicyExpression e false = None ->
            visitPolicyExpression e true <> None).
  { intros e0 H. rewrite !visit_leaf, !visitLeaf_spec by assumption.
    destruct (hasFutureReference e0); simpl; congruence. }
  induction e; try (apply Hleaf; reflexivity).
  - destruct (String.eqb operator "!") eqn:Hop.
    + rewrite !visit_not by assumption.
      destruct (visitPolicyExpression e false); simpl; [discriminate|].
      intros _. destruct (visitPolicyExpression e true); simpl; [discriminate|].
      now exfalso; apply IHe.
    + apply Hleaf. simpl. exact Hop.
  - destruct (isLogicalOperator operator) eqn:Hop.
    + rewrite !visit_binary by assumption.
      destruct (visitPolicyExpression e1 false); [ destruct (visitPolicyExpression e2 false); discriminate |].
      intros H2. specialize (IHe1 eq_refl). specialize (IHe2 H2).
      destruct (visitPolicyExpression e1 true), (visitPolicyExpression e2 true);
        congruence.
    + apply Hleaf. simpl. exact Hop.
Qed.

(** C6. The before/after split of an update rule: the traversal keeps the
    operator of every logical node it keeps ([pruned]); a leaf is kept on
    exactly one side, the post-update side if and only if it holds a
    [future()] reference, so the leaves of the two halves are the leaves of
    the rule divided by that test; a negation whose operand vanishes
    vanishes, otherwise it is rebuilt around the reduced operand; and an
    [&&] or [||] node that loses one operand becomes the other one. *)
Theorem visitPolicyExpression_split :
  (forall e p e', visitPolicyExpression e p = Some e' -> pruned e e')
  /\ (forall e p, isLogicalNode e = false ->
        visitPolicyExpression e p
        = if Bool.eqb (hasFutureReference e) p then Some e else None)
  /\ (forall e, isLogicalNode e = false ->
        (hasFutureReference e = true
         /\ visitPolicyExpression e true = Some e
         /\ visitPolicyExpression e false = None)
        \/ (hasFutureReference e = false
            /\ visitPolicyExpression e false = Some e
            /\ visitPolicyExpression e true = None))
  /\ (forall e p,
        leavesOpt (visitPolicyExpression e p)
        = List.filter (fun l => Bool.eqb (hasFutureReference l) p) (leaves e))
  /\ (forall o p,
        visitPolicyExpression (UnaryExpr "!" o) p
        = match visitPolicyExpression o p with
          | None => None
          | Some o' => Some (UnaryExpr "!" o')
          end)
  /\ (forall op l r p, op = "&&" \/ op = "||" ->
        visitPolicyExpression (BinaryExpr op l r) p
        = match visitPolicyExpression l p, visitPolicyExpression r p with
          | Some l', Some r' => Some (BinaryExpr op l' r')
          | Some l', None => Some l'
          | None, Some r' => Some r'
          | None, None => None
          end).
Proof.
  split; [exact visit_pruned|].
  split; [intros e p H; now rewrite visit_leaf, visitLeaf_spec|].
  split.
  { intros e H. rewrite !visit_leaf, !visitLeaf_spec by assumption.
    destruct (hasFutureReference e); simpl; auto. }
  split; [exact visit_leaves|].
  split.
  { intros o p. rewrite visit_not by reflexivity.
    now destruct (visitPolicyExpression o p). }
  intros op l r p Hop. rewrite visit_binary by (destruct Hop; subst; reflexivity).
  now destruct (visitPolicyExpression l p), (visitPolicyExpression r p).
Qed.

(** The split at [owner == auth() && future().value > 0]: the first
    conjunct alone before the mutation, the second alone after it. *)
Lemma visitPolicyExpression_split_witness :
  visitPolicyExpression (BinaryExpr "&&" ownerIsAuth futureValuePositive) false
    = Some ownerIsAuth
  /\ visitPolicyExpression (BinaryExpr "&&" ownerIsAuth futureValuePositive) true
    = Some futureValuePositive
  /\ pruned (BinaryExpr "&&" ownerIsAuth futureValuePositive) futureValuePositive
  /\ visitPolicyExpression futureValuePositive true = Some futureValuePositive.
Proof.
  destruct visitPolicyExpression_split as (Hpr & Hleaf & _ & _ & _ & Hbin).
  split; [rewrite Hbin by (left; reflexivity); reflexivity|].
  split; [rewrite Hbin by (left; reflexivity); reflexivity|].
  split; [apply (Hpr _ true); reflexivity|].
  rewrite Hleaf by reflexivity. reflexivity.
Defined.

(** *** Static resolution *)

Lemma toStaticPolicy_unfold op al dn :
  toStaticPolicy op al dn
  = if someConstantTrue (forOperation op dn) then Some false
    else if (length (forOperation op al) =? 0)%nat then Some false
    else if (length (forOperation op dn) =? 0)%nat
            && someConstantTrue (forOperation op al) then Some true
    else None.
Proof. reflexivity. Qed.

(** A rule that [forOperation] keeps for [update] is also kept by the
    filter of [getPolicyExpressions] for [update] and [postUpdate]. *)
Lemma forOperation_update_kept (rule : DataModelAttribute) :
  match getLiteralString (arg0 rule) with
  | None => false
  | Some ops =>
      if String.eqb ops "" then false
      else if String.eqb ops "all" then true
      else JsString.includes (opName update)
             (map JsString.trim (JsString.split "," ops))
  end = true ->
  match getLiteralString (arg0 rule) with
  | None => false
  | Some opsValue =>
      if String.eqb opsValue "" then false
      else
        let ops := map JsString.trim (JsString.split "," opsValue) in
        JsString.includes (opName update) ops || JsString.includes "all" ops
  end = true.
Proof.
  destruct (getLiteralString (arg0 rule)) as [ops|]; [|easy].
  destruct (String.eqb ops "") eqn:E0; [easy|].
  destruct (String.eqb ops "all") eqn:Eall.
  - apply String.eqb_eq in Eall. subst ops. intros _. reflexivity.
  - cbv zeta. intros ->. reflexivity.
Qed.

Lemma filter_nonempty_mono {A} (f g : A -> bool) (l : list A) :
  (forall x, f x = true -> g x = true) ->
  List.filter f l <> [] -> List.filter g l <> [].
Proof.
  intros Hfg. induction l as [|x l IH]; simpl; [easy|].
  destruct (f x) eqn:Ef.
  - rewrite (Hfg _ Ef). easy.
  - intros H. destruct (g x); [easy | auto].
Qed.

Lemma omap_visit_sides (raw : list Expression) :
  raw <> [] ->
  omap (fun e => visitPolicyExpression e false) raw = [] ->
  omap (fun e => visitPolicyExpression e true) raw <> [].
Proof.
  destruct raw as [|e raw]; [easy|]. intros _. simpl.
  destruct (visitPolicyExpression e false) eqn:Eb; [easy|]. intros _.
  pose proof (visit_some_side e Eb) as Ha.
  destruct (visitPolicyExpression e true); [easy | congruence].
Qed.

Lemma length_zero_nil {A} (l : list A) : (length l =? 0)%nat = true <-> l = [].
Proof. destruct l; simpl; split; congruence. Qed.

(** When static resolution leaves [update] open and no allow expression
    stays on the before side, some allow expression is on the after side. *)
Lemma update_deferred_to_postUpdate model :
  applicableAllows model update <> [] ->
  getPolicyExpressions model allow update = [] ->
  getPolicyExpressions model allow postUpdate <> [].
Proof.
  unfold applicableAllows, getPolicyExpressions, processUpdatePolicies.
  simpl. unfold forOperation.
  set (attrs := List.filter _ (attributes model)).
  intros Hne. apply omap_visit_sides.
  intros Hmap. apply map_eq_nil in Hmap. revert Hmap.
  eapply filter_nonempty_mono; [|exact Hne].
  intros rule. apply forOperation_update_kept.
Qed.

(** C7 (as amended). For each of create, read, update and delete the table
    entry is resolved deny first: constant false if an applicable deny rule
    is the literal true; else constant false if no allow rule applies; else
    constant true if no deny rule applies and an applicable allow rule is
    the literal true.  In these three cases and only then
    [toStaticPolicy] returns a constant.  Otherwise the entry is the
    generated guard function, except for update when every applicable allow
    expression went to the post-update side: then the entry is the
    constant true. *)
Theorem static_resolution_order (model : DataModel) (op : PolicyOperationKind) :
  op <> postUpdate ->
  let P := analyzePolicies model in
  let fd := applicableDenies model op in
  let fa := applicableAllows model op in
  toStaticPolicy op (allows P) (denies P)
  = (if someConstantTrue fd then Some false
     else if (length fa =? 0)%nat then Some false
     else if (length fd =? 0)%nat && someConstantTrue fa then Some true
     else None)
  /\ fst (guardEntryFor model op)
     = (if someConstantTrue fd then EConst false
        else if (length fa =? 0)%nat then EConst false
        else if (length fd =? 0)%nat && someConstantTrue fa then EConst true
        else if op_eqb op update
                && (length (getPolicyExpressions model allow update) =? 0)%nat
             then EConst true
        else EFunc (name model ++ "_" ++ opName op)).
Proof.
  intros Hop P fd fa. split; [apply toStaticPolicy_unfold|].
  assert (Hget : policies_get P op = toStaticPolicy op (allows P) (denies P))
    by (destruct op; [reflexivity..|congruence|reflexivity]).
  unfold guardEntryFor. fold P. rewrite Hget, toStaticPolicy_unfold.
  subst fd fa. unfold applicableDenies, applicableAllows. fold P.
  destruct (someConstantTrue (forOperation op (denies P))); [reflexivity|].
  destruct (length (forOperation op (allows P)) =? 0)%nat eqn:Efa; [reflexivity|].
  destruct ((length (forOperation op (denies P)) =? 0)%nat
            && someConstantTrue (forOperation op (allows P))); [reflexivity|].
  destruct op; try congruence; unfold op_eqb; cbn [andb fst]; try reflexivity.
  destruct (length (getPolicyExpressions model allow update) =? 0)%nat eqn:Eb;
    [|reflexivity].
  apply length_zero_nil in Eb.
  assert (Hne : applicableAllows model update <> []).
  { intros H. apply length_zero_nil in H. unfold applicableAllows in H.
    fold P in H. congruence. }
  pose proof (update_deferred_to_postUpdate model Hne Eb) as Hpost.
  destruct (length (getPolicyExpressions model allow postUpdate) =? 0)%nat eqn:Ep;
    [|reflexivity].
  apply length_zero_nil in Ep. contradiction.
Qed.

Lemma static_resolution_order_witness :
  fst (guardEntryFor counterModel update) = EConst true
  /\ toStaticPolicy update (allows (analyzePolicies counterModel))
       (denies (analyzePolicies counterModel)) = None.
Proof.
  destruct (static_resolution_order counterModel update) as [Hs He];
    [discriminate|].
  split; [rewrite He | rewrite Hs]; reflexivity.
Defined.

(** C7 as stated fails on [counterModel]: no applicable deny rule is the
    literal true, an allow rule applies, no applicable allow rule is the
    literal true, and yet the entry for update is the constant true and
    no guard function is generated for it. *)
Lemma static_resolution_counterexample :
  someConstantTrue (applicableDenies counterModel update) = false
  /\ applicableAllows counterModel update <> []
  /\ someConstantTrue (applicableAllows counterModel update) = false
  /\ guardEntryFor counterModel update = (EConst true, None)
  /\ (forall f, fst (guardEntryFor counterModel update) <> EFunc f).
Proof.
  repeat split; try reflexivity; try discriminate.
Qed.

End CompilerProps.

(** * Properties of the runtime enforcement *)

Module RuntimeProps.
Import Js Runtime ReferenceStore Vocabulary.
Local Open Scope monad_scope.

(** ** The count comparison *)

Lemma and_cases (filter G : value) :
  isFilter filter ->
  and [filter; G] = alwaysFalse
  \/ and [filter; G] = filter
  \/ (filter = VUndef /\ and [filter; G] = G)
  \/ and [filter; G] = VObj [("AND", VArr [filter; G])].
Proof.
  intros [-> | Hobj]; unfold and, conjunction; simpl.
  - destruct (isFalse G); [now left|].
    destruct (isObject G); simpl; [right; right; left; easy | right; left; easy].
  - assert (isFalse filter = false) as ->
        by (destruct filter; try discriminate; reflexivity).
    simpl. rewrite Hobj.
    destruct (isFalse G); [now left|].
    destruct (isObject G); simpl; [right; right; right; easy | right; left; easy].
Qed.

Section CountComparison.
Context {Store : Type}.
Variable this : PolicyUtil Store.
Variable camelCase : string -> string.

(** What the check needs of the store: a conjunction counts no more rows
    than any of its members, the empty membership test counts none, and
    no filter counts the most. *)
Hypothesis count_conjunction : forall model cs c s,
  In c cs ->
  count (db this) model (whereOnly (VObj [("AND", VArr cs)])) s
  <= count (db this) model (whereOnly c) s.
Hypothesis count_never : forall model s,
  count (db this) model (whereOnly alwaysFalse) s = 0.
Hypothesis count_unfiltered : forall model filter s,
  count (db this) model (whereOnly filter) s
  <= count (db this) model (whereOnly VUndef) s.

Lemma guarded_count_le model filter G s :
  isFilter filter ->
  count (db this) model (whereOnly (and [filter; G])) s
  <= count (db this) model (whereOnly filter) s.
Proof.
  intros Hf.
  destruct (and_cases filter G Hf) as [-> | [-> | [[-> ->] | ->]]].
  - rewrite count_never. lia.
  - lia.
  - apply count_unfiltered.
  - apply count_conjunction. now left.
Qed.

Lemma checkPolicyForFilter_unfold model filter operation via G w :
  getAuthGuard this camelCase model operation VUndef = Returned G ->
  let c := count (db this) model (whereOnly filter) (w_store w) in
  let gc := count (db this) model (whereOnly (and [filter; G])) (w_store w) in
  checkPolicyForFilter this camelCase model filter operation via w
  = (if (gc <? c)%nat
     then Thrown (deniedByPolicy model operation
                    (Some (String.append (pretty (c - gc)%nat)
                             " entities failed policy check")))
     else Returned tt,
     record (CallCount via model (whereOnly (and [filter; G])))
       (record (CallCount via model (whereOnly filter)) w)).
Proof.
  intros HG c gc. unfold checkPolicyForFilter, bind, dbCount, lift.
  rewrite HG. cbn [w_store record]. fold (whereOnly filter).
  fold (whereOnly (and [filter; G])). fold c gc.
  destruct (gc <? c)%nat; reflexivity.
Qed.

(** C1. With the guard [G] obtained for the operation, the check passes
    exactly when the filter counts as many rows with the guard as
    without; when it counts fewer with the guard, the check fails with
    the policy denial that reports the difference. *)
Theorem checkPolicyForFilter_count_comparison
    model filter operation via G (w : World Store) :
  isFilter filter ->
  getAuthGuard this camelCase model operation VUndef = Returned G ->
  let c := count (db this) model (whereOnly filter) (w_store w) in
  let gc := count (db this) model (whereOnly (and [filter; G])) (w_store w) in
  let outcome :=
    fst (checkPolicyForFilter this camelCase model filter operation via w) in
  (outcome = Returned tt <-> c = gc)
  /\ (gc < c ->
      outcome = Thrown (deniedByPolicy model operation
                          (Some (String.append (pretty (c - gc)%nat)
                                   " entities failed policy check")))).
Proof.
  intros Hf HG c gc outcome.
  assert (Hle : gc <= c) by (apply guarded_count_le; assumption).
  subst outcome. rewrite (checkPolicyForFilter_unfold _ _ _ _ _ _ HG).
  fold c gc. cbn [fst].
  destruct (Nat.ltb_spec gc c) as [Hlt | Hge]; split.
  - split; [discriminate | lia].
  - reflexivity.
  - split; [lia | reflexivity].
  - lia.
Qed.

End CountComparison.

(** *** The reference store obeys the laws of the count *)

Lemma matches_AND meta D model cs row :
  matches meta D model (VObj [("AND", VArr cs)]) row
  = forallb (fun c => matches meta D model c row) cs.
Proof.
  cbn [matches]. rewrite String.eqb_refl, andb_true_r.
  induction cs as [|c cs IH]; [reflexivity|].
  cbn [forallb]. now rewrite <- IH.
Qed.

Lemma filter_length_le {A} (f g : A -> bool) (l : list A) :
  (forall x, f x = true -> g x = true) ->
  length (List.filter f l) <= length (List.filter g l).
Proof.
  intros Hfg. induction l as [|x l IH]; simpl; [lia|].
  destruct (f x) eqn:Ef.
  - rewrite (Hfg _ Ef). simpl. lia.
  - destruct (g x); simpl; lia.
Qed.

Lemma reference_count_conjunction meta model cs c (D : Database) :
  In c cs ->
  count (referenceDb meta) model (whereOnly (VObj [("AND", VArr cs)])) D
  <= count (referenceDb meta) model (whereOnly c) D.
Proof.
  intros Hin. cbn. unfold selected. apply filter_length_le.
  intros row. rewrite matches_AND, forallb_forall. auto.
Qed.

Lemma reference_count_unfiltered meta model filter (D : Database) :
  count (referenceDb meta) model (whereOnly filter) D
  <= count (referenceDb meta) model (whereOnly VUndef) D.
Proof.
  cbn. unfold selected. apply filter_length_le. reflexivity.
Qed.

Lemma filter_none {A} (f : A -> bool) (l : list A) :
  (forall x, f x = false) -> List.filter f l = [].
Proof.
  intros H. induction l as [|x l IH]; simpl; [reflexivity|]. now rewrite H.
Qed.

(** In the sample schema [id] is a scalar field of every model. *)
Lemma blog_id_scalar model :
  match resolveField Blog.meta model "id" with
  | Some fi => isDataModel fi = false
  | None => True
  end.
Proof.
  cbn. repeat (destruct (String.eqb model _); [reflexivity|]). exact I.
Qed.

Lemma blog_count_never model (D : Database) :
  count (referenceDb Blog.meta) model (whereOnly alwaysFalse) D = 0.
Proof.
  cbn [count referenceDb]. unfold selected.
  rewrite filter_none; [reflexivity|].
  intros row. change (get (whereOnly alwaysFalse) "where") with alwaysFalse.
  unfold alwaysFalse. cbn [matches]. cbn [String.eqb Ascii.eqb Bool.eqb].
  pose proof (blog_id_scalar model) as H.
  destruct (resolveField Blog.meta model "id") as [fi|]; [rewrite H|]; reflexivity.
Qed.

(** On the sample: the posts of [u1] are three, two of them published, so
    the read check on them is denied with one entity rejected; the posts
    titled hello are two, both published, and the check passes. *)
Lemma checkPolicyForFilter_count_comparison_witness :
  let w := snd (Blog.start VUndef) in
  let check := fun filter =>
    fst (checkPolicyForFilter Blog.this Blog.camelCase "Post" filter read ThisDb w) in
  check (VObj [("authorId", VStr "u1")])
  = Thrown (PrismaClientKnownRequestError
              "denied by policy: entities failed 'read' check, Post, 1 entities failed policy check"
              "P2004")
  /\ check (VObj [("title", VStr "hello")]) = Returned tt.
Proof.
  intros w check.
  pose proof (fun filter Hf =>
    checkPolicyForFilter_count_comparison Blog.this Blog.camelCase
      (reference_count_conjunction Blog.meta) blog_count_never
      (reference_count_unfiltered Blog.meta)
      "Post" filter read ThisDb (VObj [("published", VBool true)]) w
      Hf eq_refl) as H.
  split.
  - apply (proj2 (H (VObj [("authorId", VStr "u1")]) (or_intror eq_refl))).
    vm_compute. lia.
  - apply (proj1 (H (VObj [("title", VStr "hello")]) (or_intror eq_refl))).
    vm_compute. reflexivity.
Defined.

(** ** Writes: what the preparation leaves alone, and the rollback *)

Section StorePreserved.
Context {Store : Type}.
Variable this : PolicyUtil Store.
Variable camelCase : string -> string.
Variable TRANSACTION_FIELD_NAME : string.
Variable cuid : string.
Variable visit : string -> string -> hval -> heap -> Traversal.

Local Abbreviation keepsStore := (Vocabulary.keepsStore (Store:=Store)).

Lemma ks_ret {A} (a : A) : keepsStore (ret a).
Proof. intros w. reflexivity. Qed.

Lemma ks_throw {A} e : keepsStore (@throw Store A e).
Proof. intros w. reflexivity. Qed.

Lemma ks_lift {A} (o : Outcome A) : keepsStore (lift o).
Proof. intros w. reflexivity. Qed.

Lemma ks_bind {A B} (m : M Store A) (k : A -> M Store B) :
  keepsStore m -> (forall a, keepsStore (k a)) -> keepsStore (bind m k).
Proof.
  intros Hm Hk w. unfold bind. specialize (Hm w).
  destruct (m w) as [[a|e] w1]; cbn [snd] in *; [|assumption].
  rewrite Hk. assumption.
Qed.

Lemma ks_getProp o k : keepsStore (getProp o k).
Proof. intros w. unfold getProp. now destruct (h_get _ _ _). Qed.

Lemma ks_getPropOpt o k : keepsStore (getPropOpt o k).
Proof. unfold getPropOpt. destruct (h_nullish o); [apply ks_ret | apply ks_getProp]. Qed.

Lemma ks_setProp o k x : keepsStore (setProp o k x).
Proof. intros w. unfold setProp. now destruct (h_set _ _ _ _). Qed.

Lemma ks_newObject o : keepsStore (newObject o).
Proof. intros w. reflexivity. Qed.

Lemma ks_allocValue v : keepsStore (allocValue v).
Proof. intros w. unfold allocValue. now destruct (alloc v (w_heap w)). Qed.

Lemma ks_isArray v : keepsStore (isArray_ v).
Proof. intros w. reflexivity. Qed.

Lemma ks_snapshotOf v : keepsStore (snapshotOf v).
Proof. intros w. unfold snapshotOf. now destruct (snapshot _ _). Qed.

Lemma ks_enumerate x : keepsStore (enumerate x).
Proof.
  intros w. unfold enumerate. destruct x; try reflexivity.
  destruct (w_heap w !! l) as [[|]|]; reflexivity.
Qed.

Lemma ks_dbCount via model args : keepsStore (dbCount this via model args).
Proof. intros w. reflexivity. Qed.

Lemma ks_dbFindMany via model args : keepsStore (dbFindMany this via model args).
Proof. intros w. reflexivity. Qed.

Lemma ks_forEach {A} (xs : list A) body :
  (forall x, keepsStore (body x)) -> keepsStore (forEach xs body).
Proof.
  intros Hb. induction xs as [|x xs IH]; cbn [forEach];
    [apply ks_ret | apply ks_bind; auto].
Qed.

Lemma ks_forEachWith {A} (xs : list A) body : forall ledger,
  (forall x l, keepsStore (body x l)) -> keepsStore (forEachWith xs ledger body).
Proof.
  induction xs as [|x xs IH]; intros ledger Hb; cbn [forEachWith];
    [apply ks_ret | apply ks_bind; auto].
Qed.

Lemma ks_mapEach {A B} (xs : list A) (f : A -> M Store B) :
  (forall x, keepsStore (f x)) -> keepsStore (mapEach xs f).
Proof.
  intros Hf. induction xs as [|x xs IH]; cbn [mapEach]; [apply ks_ret|].
  apply ks_bind; [auto|]. intros y. apply ks_bind; [auto|]. intros ys. apply ks_ret.
Qed.

Lemma ks_h_and conditions : keepsStore (@h_and Store conditions).
Proof.
  unfold h_and. destruct (conjunction _ _ _).
  - apply ks_allocValue.
  - apply ks_ret.
  - apply ks_ret.
  - apply ks_bind; [apply ks_newObject | intros; apply ks_newObject].
Qed.

Create HintDb keeps.
#[local] Hint Resolve ks_ret ks_throw ks_lift ks_getProp ks_getPropOpt ks_setProp
  ks_newObject ks_allocValue ks_isArray ks_snapshotOf ks_enumerate ks_dbCount
  ks_dbFindMany ks_h_and : keeps.

(** Walks a computation down its binds and conditionals. *)
Ltac keeps :=
  repeat first
    [ progress auto with keeps
    | apply ks_bind; [|intros]
    | apply ks_forEach; intros
    | apply ks_forEachWith; intros
    | apply ks_mapEach; intros
    | match goal with
      | |- keepsStore (if ?b then _ else _) => destruct b
      | |- keepsStore (match ?x with _ => _ end) => destruct x
      end ].

Lemma ks_injectAuthGuard args model operation :
  keepsStore (injectAuthGuard this camelCase args model operation).
Proof. unfold injectAuthGuard. keeps. Qed.

Lemma ks_checkPolicyForFilter model filter operation via :
  keepsStore (checkPolicyForFilter this camelCase model filter operation via).
Proof. unfold checkPolicyForFilter. keeps. Qed.

#[local] Hint Resolve ks_injectAuthGuard ks_checkPolicyForFilter : keeps.

Lemma ks_processCreate model args ledger :
  keepsStore (processCreate this camelCase TRANSACTION_FIELD_NAME cuid model args ledger).
Proof. unfold processCreate. keeps. Qed.

Lemma ks_fetchAndRecordPreValues model context ledger :
  keepsStore (fetchAndRecordPreValues this camelCase model context ledger).
Proof. unfold fetchAndRecordPreValues. keeps. Qed.

#[local] Hint Resolve ks_processCreate ks_fetchAndRecordPreValues : keeps.

Lemma ks_processUpdate model args context ledger :
  keepsStore (processUpdate this camelCase model args context ledger).
Proof. unfold processUpdate. keeps. Qed.

Lemma ks_processUpdateMany model args context ledger :
  keepsStore (processUpdateMany this camelCase model args context ledger).
Proof. unfold processUpdateMany. keeps. Qed.

Lemma ks_processDelete model args context :
  keepsStore (processDelete this camelCase model args context).
Proof. unfold processDelete. keeps. Qed.

Lemma ks_processDeleteMany model args context :
  keepsStore (processDeleteMany this camelCase model args context).
Proof. unfold processDeleteMany. keeps. Qed.

#[local] Hint Resolve ks_processUpdate ks_processUpdateMany ks_processDelete
  ks_processDeleteMany : keeps.

Lemma ks_callback e ledger :
  keepsStore (callback this camelCase TRANSACTION_FIELD_NAME cuid e ledger).
Proof. unfold callback. keeps. Qed.

Lemma ks_runVisitor t : forall ledger,
  keepsStore (runVisitor this camelCase TRANSACTION_FIELD_NAME cuid t ledger).
Proof.
  induction t as [|e next IH]; intros ledger w; cbn [runVisitor]; [reflexivity|].
  pose proof (ks_callback e ledger w) as Hc.
  destruct (callback _ _ _ _ e ledger w) as [[ledger'|err] w1]; cbn [snd] in *;
    [|assumption].
  rewrite IH. assumption.
Qed.

(** The preparation of a write queries the database but never changes it. *)
Lemma ks_prepareWrite model action args :
  keepsStore (prepareWrite this camelCase TRANSACTION_FIELD_NAME cuid visit
                model action args).
Proof.
  unfold prepareWrite. apply ks_bind; [keeps|]. intros select.
  apply ks_bind; [keeps|]. intros _ w. apply ks_runVisitor.
Qed.

Lemma transaction_rollback {A} (body : M Store A) w e w' :
  transaction body w = (Thrown e, w') -> w_store w' = w_store w.
Proof.
  unfold transaction. destruct (body _) as [[a|e0] w1]; intros [= <- <-];
    reflexivity.
Qed.

(** C2. When the preparation of a write call leaves create or update
    post-check obligations, the write and the post-checks run in one
    transaction: if the call then fails, be it a create-marker count
    comparison or a post-update check that raises the denial, the database is
    the one the call started with, so nothing the call wrote, nested writes
    included, can be observed. *)
Theorem processWrite_rolls_back
    model action args writeAction (w w1 w' : World Store) ledger e :
  prepareWrite this camelCase TRANSACTION_FIELD_NAME cuid visit model action args w
    = (Returned ledger, w1) ->
  createdModels ledger <> [] \/ updatedModels ledger <> [] ->
  processWrite this camelCase TRANSACTION_FIELD_NAME cuid visit
    model action args writeAction w = (Thrown e, w') ->
  w_store w' = w_store w.
Proof.
  intros Hprep Hobl. unfold processWrite, bind at 1. rewrite Hprep.
  pose proof (ks_prepareWrite model action args w) as Hks.
  rewrite Hprep in Hks. cbn [snd] in Hks.
  assert ((length (createdModels ledger) =? 0)%nat
          && (length (updatedModels ledger) =? 0)%nat = false) as ->.
  { destruct Hobl as [H | H].
    - destruct (createdModels ledger); [congruence | reflexivity].
    - destruct (updatedModels ledger); [congruence | apply andb_false_r]. }
  intros Htx. apply transaction_rollback in Htx. congruence.
Qed.

End StorePreserved.

(** On the sample: creating a user together with a post that is not the
    caller's fails at the post-check of the nested create, and neither the
    user nor the post is in the database afterwards. *)
Lemma processWrite_rolls_back_witness :
  let args :=
    VObj [("data",
           VObj [("id", VStr "u3"); ("name", VStr "carol"); ("public", VBool true);
                 ("posts",
                  VObj [("create",
                         VArr [VObj [("id", VStr "p9"); ("title", VStr "new");
                                     ("published", VBool true);
                                     ("authorId", VStr "u3")]])])])] in
  let r := Blog.processWrite "User" "create" args in
  fst r = Thrown (PrismaClientKnownRequestError
                    "denied by policy: entities failed 'create' check, Post, 1 entities failed policy check"
                    "P2004")
  /\ w_store (snd r) = Blog.database.
Proof.
  intros args r. split; [vm_compute; reflexivity|].
  unfold r, Blog.processWrite, Blog.run.
  destruct (Blog.start args) as [a w0] eqn:Hstart.
  assert (Hdb : w_store w0 = Blog.database)
    by (unfold Blog.start in Hstart; destruct (alloc args []);
        injection Hstart as <- <-; reflexivity).
  rewrite <- Hdb.
  destruct (prepareWrite Blog.this Blog.camelCase Blog.TRANSACTION_FIELD_NAME
              Blog.cuid Blog.visit "User" "create" a w0) as [[ledger|e0] w1] eqn:Hprep.
  - destruct (Runtime.processWrite Blog.this Blog.camelCase
                Blog.TRANSACTION_FIELD_NAME Blog.cuid Blog.visit "User" "create" a
                Blog.writeAction w0) as [[v|e] w'] eqn:Hrun.
    + exfalso. revert Hrun. injection Hstart as <- <-. vm_compute. discriminate.
    + cbn [snd].
      apply (processWrite_rolls_back Blog.this Blog.camelCase
               Blog.TRANSACTION_FIELD_NAME Blog.cuid Blog.visit
               "User" "create" a Blog.writeAction w0 w1 w' ledger e Hprep);
        [|exact Hrun].
      left. revert Hprep. injection Hstart as <- <-. vm_compute.
      intros [= <- _]. discriminate.
  - exfalso. revert Hprep. injection Hstart as <- <-. vm_compute. discriminate.
Defined.

End RuntimeProps.

(** ** The heap: what a read leaves alone *)

Module HeapProps.
Import Js Runtime Vocabulary.
Local Open Scope monad_scope.

Lemma freshFrom_mono n m v : n <= m -> freshFrom m v -> freshFrom n v.
Proof. destruct v; simpl; auto. lia. Qed.

Lemma freshObject_mono n m o : n <= m -> freshObject m o -> freshObject n o.
Proof.
  intros Hle. destruct o; simpl; intros H;
    (eapply Forall_impl; [exact H|]); intros; eauto using freshFrom_mono.
Qed.

(** Allocation only appends, and what it appends is fresh. *)
Lemma extendsFresh_step {A B} (P : nat -> A -> Prop) (Q : nat -> B -> Prop)
    (R : nat -> A -> B -> Prop) h (r1 : A * heap) (r2 : B * heap) :
  extendsFresh P h r1 ->
  extendsFresh Q (snd r1) r2 ->
  (forall n m a b, n <= m -> P n a -> Q m b -> R n a b) ->
  exists ext,
    snd r2 = h ++ ext
    /\ R (length h) (fst r1) (fst r2)
    /\ Forall (freshObject (length h)) ext.
Proof.
  intros (e1 & He1 & Hp & Ho1) (e2 & He2 & Hq & Ho2) HR.
  exists (e1 ++ e2). rewrite He2, He1, app_assoc. split; [reflexivity|].
  rewrite He1, length_app in Hq, Ho2. split.
  - eapply HR; [|exact Hp|exact Hq]. lia.
  - apply Forall_app. split; [assumption|].
    eapply Forall_impl; [exact Ho2|]. intros o. apply freshObject_mono. lia.
Qed.

Lemma allocItems_extends allocOne items :
  Forall (fun x => forall h, extendsFresh freshFrom h (allocOne x h)) items ->
  forall h, extendsFresh (fun n => Forall (freshFrom n)) h (allocItems allocOne items h).
Proof.
  induction 1 as [|x rest Hx _ IH]; intros h.
  - exists []. cbn. rewrite app_nil_r. repeat split; constructor.
  - cbn [allocItems].
    pose proof (extendsFresh_step freshFrom (fun n => Forall (freshFrom n))
                  (fun n a b => Forall (freshFrom n) (a :: b))
                  h (allocOne x h) (allocItems allocOne rest (snd (allocOne x h)))
                  (Hx h) (IH _)) as Hstep.
    destruct (allocOne x h) as [x' h1]. cbn [snd fst] in *.
    destruct (allocItems allocOne rest h1) as [rest' h2]. cbn [snd fst] in *.
    apply Hstep. intros n m a b Hle Ha Hb. constructor; [assumption|].
    eapply Forall_impl; [exact Hb|]. intros v. now apply freshFrom_mono.
Qed.

Lemma allocFields_extends allocOne fs :
  Forall (fun kv => forall h, extendsFresh freshFrom h (allocOne (snd kv) h)) fs ->
  forall h, extendsFresh (fun n => Forall (fun kv => freshFrom n (snd kv))) h
              (allocFields allocOne fs h).
Proof.
  induction 1 as [|kv rest Hx _ IH]; intros h.
  - exists []. cbn. rewrite app_nil_r. repeat split; constructor.
  - cbn [allocFields].
    pose proof (extendsFresh_step freshFrom
                  (fun n => Forall (fun kv => freshFrom n (snd kv)))
                  (fun n a b => Forall (fun kv => freshFrom n (snd kv)) ((fst kv, a) :: b))
                  h (allocOne (snd kv) h)
                  (allocFields allocOne rest (snd (allocOne (snd kv) h)))
                  (Hx h) (IH _)) as Hstep.
    destruct (allocOne (snd kv) h) as [x' h1]. cbn [snd fst] in *.
    destruct (allocFields allocOne rest h1) as [rest' h2]. cbn [snd fst] in *.
    apply Hstep. intros n m a b Hle Ha Hb. constructor; [assumption|].
    eapply Forall_impl; [exact Hb|]. intros v. now apply freshFrom_mono.
Qed.

Lemma h_new_extends {A} (P : nat -> A -> Prop) h (r : A * heap) (mk : A -> hobj) :
  extendsFresh P h r ->
  (forall n a, P n a -> freshObject n (mk a)) ->
  extendsFresh freshFrom h (h_new (snd r) (mk (fst r))).
Proof.
  intros (ext & Hext & Hp & Ho) Hmk.
  exists (ext ++ [mk (fst r)]). cbn. rewrite Hext, app_assoc.
  split; [reflexivity|]. split; [rewrite length_app; lia|].
  apply Forall_app. split; [assumption|]. constructor; [|constructor]. auto.
Qed.

Lemma alloc_extends v : forall h, extendsFresh freshFrom h (alloc v h).
Proof.
  induction v as [| |b|n|s|items IH|fs IH] using value_ind'; intros h;
    try (exists []; cbn; rewrite app_nil_r; repeat split; constructor).
  - cbn [alloc].
    pose proof (h_new_extends _ h _ HArr (allocItems_extends alloc items IH h)
                  (fun n a Ha => Ha)) as H.
    now destruct (allocItems alloc items h).
  - cbn [alloc].
    pose proof (h_new_extends _ h _ HObj (allocFields_extends alloc fs IH h)
                  (fun n a Ha => Ha)) as H.
    now destruct (allocFields alloc fs h).
Qed.

(** *** The objects of the caller and the objects of the call *)

Section Good.
Variable h0 : heap.

Local Abbreviation good := (Vocabulary.good h0).
Local Abbreviation fresh := (Vocabulary.fresh h0).

Lemma good_start : good h0.
Proof.
  split; [lia|]. split; [reflexivity|].
  intros l o Hl Hlook. apply lookup_lt_Some in Hlook. lia.
Qed.

Lemma good_extend h ext :
  good h -> Forall (freshObject (length h)) ext -> good (h ++ ext).
Proof.
  intros (Hlen & Hold & Hnew) Hext. split; [rewrite length_app; lia|]. split.
  - intros l Hl. rewrite lookup_app_l by lia. auto.
  - intros l o Hl Hlook.
    destruct (Nat.lt_ge_cases l (length h)) as [Hlt | Hge].
    + rewrite lookup_app_l in Hlook by assumption. eauto.
    + rewrite lookup_app_r in Hlook by assumption.
      eapply freshObject_mono; [exact Hlen|].
      eapply Forall_lookup_1; eassumption.
Qed.

Lemma good_alloc v h : good h -> good (snd (alloc v h)) /\ fresh (fst (alloc v h)).
Proof.
  intros Hg. destruct (alloc_extends v h) as (ext & -> & Hfr & Hobj).
  split; [now apply good_extend|].
  destruct Hg as (Hlen & _). eapply freshFrom_mono; eassumption.
Qed.

Lemma good_new h o :
  good h -> freshObject (length h0) o ->
  good (snd (h_new h o)) /\ fresh (fst (h_new h o)).
Proof.
  intros Hg Ho. pose proof Hg as (Hlen & Hold & Hnew). unfold h_new, fresh.
  cbn [fst snd freshFrom]. split; [|exact Hlen].
  split; [rewrite length_app; lia|]. split.
  - intros l Hl. rewrite lookup_app_l by lia. auto.
  - intros l o' Hl Hlook.
    destruct (Nat.lt_ge_cases l (length h)) as [Hlt | Hge].
    + rewrite lookup_app_l in Hlook by assumption. eauto.
    + rewrite lookup_app_r in Hlook by assumption.
      destruct (l - length h) as [|i]; cbn in Hlook; [|discriminate].
      now injection Hlook as <-.
Qed.

Lemma lookup_Forall {A} (P : A -> Prop) k (fs : list (string * A)) x :
  Forall (fun kv => P (snd kv)) fs -> lookup k fs = Some x -> P x.
Proof.
  induction 1 as [|[k' y] rest Hy _ IH]; cbn; [discriminate|].
  destruct (String.eqb k k'); [intros [= <-]; exact Hy | exact IH].
Qed.

Lemma assign_Forall {A} (P : A -> Prop) k x (fs : list (string * A)) :
  Forall (fun kv => P (snd kv)) fs -> P x ->
  Forall (fun kv => P (snd kv)) (assign k x fs).
Proof.
  intros Hfs Hx. induction Hfs as [|[k' y] rest Hy Hrest IH]; cbn.
  - constructor; [exact Hx | constructor].
  - destruct (String.eqb k k'); constructor; auto.
Qed.

Lemma nth_Forall {A} (P : A -> Prop) (l : list A) i d :
  Forall P l -> P d -> P (nth i l d).
Proof.
  intros Hl Hd. revert i. induction Hl as [|x rest Hx _ IH]; intros [|i]; cbn; auto.
Qed.

Lemma good_get h v k x :
  good h -> fresh v -> h_get h v k = Some x -> fresh x.
Proof.
  intros (_ & _ & Hnew) Hv. destruct v as [| | | | |l]; cbn;
    try discriminate; try (intros [= <-]; exact I).
  destruct (h !! l) as [[fs|items]|] eqn:Hl; intros [= <-].
  - specialize (Hnew l _ Hv Hl). cbn in Hnew.
    destruct (lookup k fs) as [y|] eqn:Hk; cbn; [|exact I].
    eapply (lookup_Forall (freshFrom (length h0))); eassumption.
  - specialize (Hnew l _ Hv Hl). cbn in Hnew.
    destruct (arrayIndex k (length items)); [|exact I].
    apply nth_Forall; [assumption | exact I].
  - exact I.
Qed.

Lemma good_set h v k x h' :
  good h -> fresh v -> fresh x -> h_set h v k x = Some h' -> good h'.
Proof.
  intros Hg Hv Hx. pose proof Hg as (Hlen & Hold & Hnew).
  destruct v as [| | | | |l]; cbn; try discriminate. cbn in Hv.
  assert (Hput : forall o, h !! l <> None -> freshObject (length h0) o ->
                           good (<[l := o]> h)).
  { intros o Hsome Ho. split; [rewrite length_insert; exact Hlen|]. split.
    - intros l' Hl'. rewrite list_lookup_insert_ne by lia. auto.
    - intros l' o' Hl' Hlook. destruct (decide (l = l')) as [<- | Hne].
      + rewrite list_lookup_insert_eq in Hlook
          by (apply lookup_lt_is_Some; destruct (h !! l); [eauto | congruence]).
        now injection Hlook as <-.
      + rewrite list_lookup_insert_ne in Hlook by assumption. eauto. }
  destruct (h !! l) as [[fs|items]|] eqn:Hl.
  - intros [= <-]. apply Hput; [congruence|]. cbn.
    apply assign_Forall; [|exact Hx]. exact (Hnew l _ Hv Hl).
  - destruct (arrayIndex k (length items)); intros [= <-]; [|exact Hg].
    apply Hput; [congruence|]. cbn.
    apply Forall_insert; [|exact Hx]. exact (Hnew l _ Hv Hl).
  - intros [= <-]. exact Hg.
Qed.

End Good.

(** *** The part of a read that comes before the query

    Cloning the arguments and injecting the guards works on objects of the
    call only, makes no call to the database, and raises no policy denial. *)

Section BeforeQuery.
Context {Store : Type}.
Variable this : PolicyUtil Store.
Variable camelCase : string -> string.
Variable h0 : heap.
Variable s0 : Store.
Variable t0 : list DbCall.

Local Abbreviation settled := (Vocabulary.settled h0 s0 t0).
Local Abbreviation prepares := (Vocabulary.prepares h0 s0 t0).
Local Abbreviation anything := (fun _ => True).

Lemma pr_ret {A} (a : A) (Post : A -> Prop) : Post a -> prepares (ret a) Post.
Proof. intros Ha w Hw. split; assumption. Qed.

Lemma pr_throw {A} e (Post : A -> Prop) :
  isPolicyDenied e = false -> prepares (throw e) Post.
Proof. intros He w Hw. split; assumption. Qed.

Lemma pr_bind {A B} (m : M Store A) (k : A -> M Store B) P Q :
  prepares m P -> (forall a, P a -> prepares (k a) Q) -> prepares (bind m k) Q.
Proof.
  intros Hm Hk w Hw. unfold bind. destruct (Hm w Hw) as [Hs Hr].
  destruct (m w) as [[a|e] w1]; cbn [fst snd] in *; [|split; assumption].
  exact (Hk a Hr w1 Hs).
Qed.

Lemma pr_weaken {A} (m : M Store A) (P Q : A -> Prop) :
  prepares m P -> (forall a, P a -> Q a) -> prepares m Q.
Proof.
  intros Hm HPQ w Hw. destruct (Hm w Hw) as [Hs Hr]. split; [assumption|].
  destruct (fst (m w)); auto.
Qed.

Lemma pr_getAuthGuard model operation preValue :
  prepares (lift (getAuthGuard this camelCase model operation preValue)) anything.
Proof.
  intros w Hw. split; [assumption|]. unfold lift, getAuthGuard. cbn [fst].
  destruct (guard _ _) as [g|]; [|reflexivity].
  destruct (g operation) as [[b|f]|]; [exact I | exact I | reflexivity].
Qed.

Lemma pr_getProp o k : fresh h0 o -> prepares (getProp o k) (fresh h0).
Proof.
  intros Ho w Hw. unfold getProp.
  destruct (h_get (w_heap w) o k) as [x|] eqn:Hget; cbn [fst snd];
    (split; [assumption|]); [|reflexivity].
  destruct Hw as (Hg & _). eapply good_get; eassumption.
Qed.

Lemma pr_getPropOpt o k : fresh h0 o -> prepares (getPropOpt o k) (fresh h0).
Proof.
  intros Ho. unfold getPropOpt. destruct (h_nullish o);
    [apply pr_ret; exact I | now apply pr_getProp].
Qed.

Lemma pr_setProp o k x :
  fresh h0 o -> fresh h0 x -> prepares (setProp o k x) anything.
Proof.
  intros Ho Hx w (Hg & Hs & Ht). unfold setProp.
  destruct (h_set (w_heap w) o k x) as [h'|] eqn:Hset; cbn [fst snd].
  - split; [|exact I]. split; [|split; assumption].
    exact (good_set h0 _ _ _ _ _ Hg Ho Hx Hset).
  - split; [|reflexivity]. split; [assumption | split; assumption].
Qed.

Lemma pr_newObject o :
  freshObject (length h0) o -> prepares (newObject o) (fresh h0).
Proof.
  intros Ho w (Hg & Hs & Ht). unfold newObject.
  destruct (good_new h0 (w_heap w) o Hg Ho) as [Hg' Hr].
  destruct (h_new (w_heap w) o) as [r h']. cbn [fst snd] in *.
  split; [|exact Hr]. split; [exact Hg' | split; assumption].
Qed.

Lemma pr_allocValue v : prepares (allocValue v) (fresh h0).
Proof.
  intros w (Hg & Hs & Ht). unfold allocValue.
  destruct (good_alloc h0 v (w_heap w) Hg) as [Hg' Hr].
  destruct (alloc v (w_heap w)) as [r h']. cbn [fst snd] in *.
  split; [|exact Hr]. split; [exact Hg' | split; assumption].
Qed.

Lemma pr_objectKeys v : prepares (objectKeys v) anything.
Proof. intros w Hw. split; [assumption | exact I]. Qed.

Lemma pr_heapSize : prepares heapSize anything.
Proof. intros w Hw. split; [assumption | exact I]. Qed.

Lemma pr_snapshotOf v : prepares (snapshotOf v) anything.
Proof.
  intros w Hw. unfold snapshotOf.
  destruct (snapshot (w_heap w) v); (split; [assumption|]); [exact I | reflexivity].
Qed.

Lemma pr_forEach {A} (xs : list A) body :
  (forall x, prepares (body x) anything) -> prepares (forEach xs body) anything.
Proof.
  intros Hb. induction xs as [|x xs IH]; cbn [forEach].
  - apply pr_ret. exact I.
  - eapply pr_bind; [apply Hb|]. intros _ _. exact IH.
Qed.

Lemma conjunction_members {A} (isF isO : A -> bool) (P : A -> Prop) cs :
  Forall P cs ->
  match conjunction isF isO cs with
  | OneCondition c => P c
  | AllOf cs' => Forall P cs'
  | _ => True
  end.
Proof.
  intros Hcs. unfold conjunction. destruct (existsb isF cs); [exact I|].
  assert (Hf : Forall P (List.filter isO cs)).
  { induction Hcs as [|c rest Hc _ IH]; cbn; [constructor|].
    destruct (isO c); [constructor|]; assumption. }
  destruct (List.filter isO cs) as [|c [|c' rest]]; [exact I | | exact Hf].
  now inversion Hf.
Qed.

Lemma pr_h_and conditions :
  Forall (fresh h0) conditions -> prepares (h_and conditions) (fresh h0).
Proof.
  intros Hcs. unfold h_and.
  pose proof (conjunction_members h_isFalse h_isObject _ _ Hcs) as Hm.
  destruct (conjunction h_isFalse h_isObject conditions) as [| |c|cs].
  - apply pr_allocValue.
  - apply pr_ret. exact I.
  - apply pr_ret. exact Hm.
  - eapply pr_bind; [apply pr_newObject; exact Hm|].
    intros arr Harr. apply pr_newObject. cbn. constructor; [exact Harr | constructor].
Qed.

Lemma pr_injectAuthGuard args model operation :
  fresh h0 args ->
  prepares (injectAuthGuard this camelCase args model operation) anything.
Proof.
  intros Hargs. unfold injectAuthGuard.
  eapply pr_bind; [apply pr_getAuthGuard|]. intros g _.
  eapply pr_bind; [apply pr_allocValue|]. intros gh Hgh.
  eapply pr_bind; [apply pr_getProp; exact Hargs|]. intros wh Hwh.
  eapply pr_bind; [apply pr_h_and; repeat constructor; assumption|]. intros c Hc.
  apply pr_setProp; assumption.
Qed.

Lemma pr_clone v : prepares (clone v) (fresh h0).
Proof.
  unfold clone. destruct (h_truthy v).
  - eapply pr_bind; [apply pr_snapshotOf|]. intros t _. apply pr_allocValue.
  - apply pr_newObject. constructor.
Qed.

Lemma pr_injectNestedReadConditions fuel : forall model args,
  fresh h0 args ->
  prepares (injectNestedReadConditions this camelCase fuel model args) anything.
Proof.
  induction fuel as [|fuel IH]; intros model args Hargs;
    cbn [injectNestedReadConditions].
  - apply pr_throw. reflexivity.
  - eapply pr_bind; [apply pr_getProp; exact Hargs|]. intros select Hsel.
    eapply pr_bind with (P := fresh h0).
    { destruct (h_nullish select); [now apply pr_getProp | now apply pr_ret]. }
    intros injectTarget Htarget.
    destruct (negb (h_truthy injectTarget)); [apply pr_ret; exact I|].
    eapply pr_bind; [apply pr_objectKeys|]. intros fields _.
    apply pr_forEach. intros field.
    destruct (resolveField (modelMeta this) model field) as [fieldInfo|];
      [|apply pr_ret; exact I].
    destruct (negb (isDataModel fieldInfo)); [apply pr_ret; exact I|].
    eapply pr_bind with (P := anything).
    { destruct (isArray fieldInfo).
      - eapply pr_bind; [apply pr_getProp; exact Htarget|]. intros current Hcur.
        eapply pr_bind with (P := anything).
        { destruct (negb (h_typeofObject current)); [|apply pr_ret; exact I].
          eapply pr_bind; [apply pr_newObject; constructor|]. intros o Ho.
          apply pr_setProp; assumption. }
        intros _ _.
        eapply pr_bind; [apply pr_getAuthGuard|]. intros g _.
        eapply pr_bind; [apply pr_allocValue|]. intros gh Hgh.
        eapply pr_bind; [apply pr_getProp; exact Htarget|]. intros target Ht.
        eapply pr_bind; [apply pr_getProp; exact Htarget|]. intros wh Hwh.
        eapply pr_bind; [apply pr_h_and; repeat constructor; assumption|].
        intros c Hc. apply pr_setProp; assumption.
      - eapply pr_bind; [apply pr_getProp; exact Htarget|]. intros sub Hsub.
        eapply pr_bind; [apply pr_getPropOpt; exact Hsub|]. intros sel Hs.
        destruct (h_truthy sel); [|apply pr_ret; exact I].
        eapply pr_bind; [apply pr_getProp; exact Hs|]. intros id Hid.
        destruct (negb (h_isTrue id)); [|apply pr_ret; exact I].
        apply pr_setProp; [assumption | exact I]. }
    intros _ _.
    eapply pr_bind; [apply pr_getProp; exact Htarget|]. intros sub Hsub.
    apply IH. exact Hsub.
Qed.

End BeforeQuery.

(** *** The part of a read that comes with and after the query

    The query and the post-checks call the database and touch no object. *)

Section AfterQuery.
Context {Store : Type}.
Variable this : PolicyUtil Store.
Variable camelCase : string -> string.
Variable TRANSACTION_FIELD_NAME : string.
Variable cuid : string.

Local Abbreviation queriesOnly := (Vocabulary.queriesOnly (Store:=Store)).
Local Abbreviation beforeQuery := (Vocabulary.beforeQuery this camelCase).
Local Abbreviation queryAndCheck := (Vocabulary.queryAndCheck this camelCase).
Local Abbreviation staticFalse := (Vocabulary.staticFalse this camelCase).

Lemma qo_ret {A} (a : A) : queriesOnly (@ret Store A a).
Proof. intros w. split; [reflexivity|]. exists []. now rewrite app_nil_r. Qed.

Lemma qo_throw {A} e : queriesOnly (@throw Store A e).
Proof. intros w. split; [reflexivity|]. exists []. now rewrite app_nil_r. Qed.

Lemma qo_lift {A} (o : Outcome A) : queriesOnly (@lift Store A o).
Proof. intros w. split; [reflexivity|]. exists []. now rewrite app_nil_r. Qed.

Lemma qo_bind {A B} (m : M Store A) (k : A -> M Store B) :
  queriesOnly m -> (forall a, queriesOnly (k a)) -> queriesOnly (bind m k).
Proof.
  intros Hm Hk w. unfold bind. destruct (Hm w) as [Hh [c1 Ht]].
  destruct (m w) as [[a|e] w1]; cbn [snd] in *.
  - destruct (Hk a w1) as [Hh2 [c2 Ht2]]. split; [congruence|].
    exists (c1 ++ c2). rewrite Ht2, Ht. now rewrite app_assoc.
  - split; [assumption | eauto].
Qed.

Lemma qo_dbCount via model args : queriesOnly (dbCount this via model args).
Proof. intros w. split; [reflexivity|]. eexists. reflexivity. Qed.

Lemma qo_dbFindMany via model args : queriesOnly (dbFindMany this via model args).
Proof. intros w. split; [reflexivity|]. eexists. reflexivity. Qed.

Lemma qo_forEach {A} (xs : list A) body :
  (forall x, queriesOnly (body x)) -> queriesOnly (forEach xs body).
Proof.
  intros Hb. induction xs as [|x xs IH]; cbn [forEach];
    [apply qo_ret | apply qo_bind; auto].
Qed.

Lemma qo_checkPolicyForFilter model filter operation via :
  queriesOnly (checkPolicyForFilter this camelCase model filter operation via).
Proof.
  unfold checkPolicyForFilter.
  apply qo_bind; [apply qo_dbCount|]. intros c.
  apply qo_bind; [apply qo_lift|]. intros g.
  apply qo_bind; [apply qo_dbCount|]. intros gc.
  destruct (gc <? c)%nat; [apply qo_throw | apply qo_ret].
Qed.

Lemma qo_postProcessForRead_from fuel : forall entityData model args operation,
  queriesOnly (postProcessForRead_from this camelCase fuel entityData model args
                 operation).
Proof.
  induction fuel as [|fuel IH]; intros entityData model args operation;
    cbn [postProcessForRead_from]; [apply qo_throw|].
  destruct (negb (truthy (get entityData "id"))); [apply qo_ret|].
  destruct (nullish args); [apply qo_throw|].
  destruct (negb (truthy _)); [apply qo_ret|].
  apply qo_forEach. intros field.
  destruct (resolveField (modelMeta this) model field) as [fieldInfo|];
    [|apply qo_ret].
  destruct (_ || _); [apply qo_ret|].
  apply qo_bind; [apply qo_checkPolicyForFilter | intros _; apply IH].
Qed.

Lemma readWithCheck_parts model args w :
  readWithCheck this camelCase model args w
  = bind (beforeQuery model args) (queryAndCheck model) w.
Proof.
  unfold readWithCheck, beforeQuery, queryAndCheck, bind.
  destruct (clone args w) as [[a|e] w1]; [|reflexivity].
  destruct (injectAuthGuard _ _ a model read w1) as [[[]|e] w2]; [|reflexivity].
  destruct (heapSize w2) as [[n|e] w3]; [|reflexivity].
  destruct (injectNestedReadConditions _ _ n model a w3) as [[[]|e] w4];
    [|reflexivity].
  destruct (snapshotOf a w4) as [[q|e] w5]; reflexivity.
Qed.

Lemma beforeQuery_prepares model args h0 s0 t0 :
  prepares h0 s0 t0 (beforeQuery model args) (fun _ => True).
Proof.
  unfold beforeQuery.
  eapply pr_bind; [apply pr_clone|]. intros a Ha.
  eapply pr_bind; [apply pr_injectAuthGuard; exact Ha|]. intros _ _.
  eapply pr_bind; [apply pr_heapSize|]. intros n _.
  eapply pr_bind; [apply pr_injectNestedReadConditions; exact Ha|]. intros _ _.
  apply pr_snapshotOf.
Qed.

Lemma bind_dbFindMany {B} via model query (k : list value -> M Store B) w :
  bind (dbFindMany this via model query) k w
  = k (findMany (db this) model query (w_store w))
      (record (CallFindMany via model query) w).
Proof. reflexivity. Qed.

Lemma queryAndCheck_trace model query w :
  w_heap (snd (queryAndCheck model query w)) = w_heap w
  /\ exists calls,
       w_trace (snd (queryAndCheck model query w))
       = w_trace w ++ CallFindMany ThisDb model query :: calls.
Proof.
  unfold queryAndCheck. rewrite bind_dbFindMany.
  set (result := findMany (db this) model query (w_store w)).
  set (w1 := record (CallFindMany ThisDb model query) w).
  assert (Hrest : queriesOnly
            (forEach result (fun item =>
               postProcessForRead this camelCase item model query read) ;;
             ret result)).
  { apply qo_bind; [|intros; apply qo_ret].
    apply qo_forEach. intros item. apply qo_postProcessForRead_from. }
  destruct (Hrest w1) as [Hh [calls Ht]].
  split; [exact Hh|]. exists calls. rewrite Ht. subst w1. cbn [record w_trace].
  now rewrite <- app_assoc.
Qed.

(** What a read does to the objects and when it can be denied. *)
Lemma readWithCheck_phases model (args : hval) (w : World Store) :
  let r := readWithCheck this camelCase model args w in
  good (w_heap w) (w_heap (snd r))
  /\ ((exists query calls,
         w_trace (snd r) = w_trace w ++ CallFindMany ThisDb model query :: calls)
      \/ (w_trace (snd r) = w_trace w
          /\ exists e, fst r = Thrown e /\ isPolicyDenied e = false)).
Proof.
  intros r. subst r. rewrite readWithCheck_parts. unfold bind.
  assert (Hw : settled (w_heap w) (w_store w) (w_trace w) w)
    by (split; [apply good_start | split; reflexivity]).
  destruct (beforeQuery_prepares model args _ _ _ w Hw) as [(Hg & Hs & Ht) Hr].
  destruct (beforeQuery model args w) as [[query|e] w1]; cbn [fst snd] in *.
  - destruct (queryAndCheck_trace model query w1) as [Hh [calls Hc]].
    split; [rewrite Hh; exact Hg|]. left. exists query, calls. rewrite Hc, Ht.
    reflexivity.
  - split; [exact Hg|]. right. split; [exact Ht|]. exists e. split; [reflexivity|].
    exact Hr.
Qed.

(** C9. [readWithCheck] works on a copy of the argument object: whatever the
    read does and however it ends, the heap it leaves begins with the heap it
    was called in, so every object that existed then, the caller's argument
    object and all it refers to among them, holds what it held. *)
Theorem readWithCheck_leaves_args_unchanged model (args : hval) (w : World Store) :
  take (length (w_heap w)) (w_heap (snd (readWithCheck this camelCase model args w)))
  = w_heap w.
Proof.
  destruct (readWithCheck_phases model args w) as [(Hlen & Hold & _) _].
  apply list_eq. intros l.
  destruct (Nat.lt_ge_cases l (length (w_heap w))) as [Hlt | Hge].
  - rewrite lookup_take_lt by assumption. now apply Hold.
  - rewrite lookup_take_ge by assumption. symmetry.
    now apply lookup_ge_None_2.
Qed.

(** *** A table entry that is the constant false *)

Lemma staticFalse_guard model operation preValue :
  staticFalse model operation ->
  getAuthGuard this camelCase model operation preValue = Returned (VBool false).
Proof. intros (g & Hg & Hop). unfold getAuthGuard. now rewrite Hg, Hop. Qed.

(** Injecting the constant [false] is [args.where = { id: { in: [] } }]. *)
Lemma injectAuthGuard_static_false args model operation w :
  staticFalse model operation ->
  injectAuthGuard this camelCase args model operation w
  = (getProp args "where" ;;
     c <- allocValue (VObj [("id", VObj [("in", VArr [])])]) ;;
     setProp args "where" c) w.
Proof.
  intros Hsf. destruct w as [h s t].
  unfold injectAuthGuard, bind, lift, getProp.
  rewrite (staticFalse_guard _ _ VUndef Hsf).
  cbn [allocValue alloc setHeap w_heap w_store w_trace].
  destruct (h_get h args "where") as [wh|]; [|reflexivity].
  unfold h_and, conjunction. cbn [existsb h_isFalse]. rewrite orb_true_r.
  reflexivity.
Qed.

(** C3 (as amended). When the entry for a model is the constant [false]:
    for create, update and delete the processing of the operation
    ([processCreate]; [processUpdate], [processUpdateMany];
    [processDelete], [processDeleteMany]) fails with the policy denial and
    leaves the heap, the database and the list of calls to the database as
    they were; for read nothing is rejected up front: injecting the guard
    sets [where] to the filter that holds of no row, and [readWithCheck]
    either issues its [findMany] query or fails, before any call to the
    database, with an error that is not a policy denial. *)
Theorem static_false_entry (model : string) :
  (staticFalse model create -> forall args ledger (w : World Store),
     processCreate this camelCase TRANSACTION_FIELD_NAME cuid model args ledger w
     = (Thrown (deniedByPolicy model create None), w))
  /\ (staticFalse model update -> forall args context ledger (w : World Store),
        processUpdate this camelCase model args context ledger w
        = (Thrown (deniedByPolicy model update None), w)
        /\ processUpdateMany this camelCase model args context ledger w
           = (Thrown (deniedByPolicy model update None), w))
  /\ (staticFalse model delete -> forall args context (w : World Store),
        processDelete this camelCase model args context w
        = (Thrown (deniedByPolicy model delete None), w)
        /\ processDeleteMany this camelCase model args context w
           = (Thrown (deniedByPolicy model delete None), w))
  /\ (staticFalse model read -> forall args (w : World Store),
        injectAuthGuard this camelCase args model read w
        = (getProp args "where" ;;
           c <- allocValue (VObj [("id", VObj [("in", VArr [])])]) ;;
           setProp args "where" c) w
        /\ let r := readWithCheck this camelCase model args w in
           (exists query calls,
              w_trace (snd r) = w_trace w ++ CallFindMany ThisDb model query :: calls)
           \/ (w_trace (snd r) = w_trace w
               /\ exists e, fst r = Thrown e /\ isPolicyDenied e = false)).
Proof.
  split; [intros H args ledger w
         | split; [intros H args context ledger w; split
                  | split; [intros H args context w; split
                           | intros H args w; split]]].
  - unfold processCreate, bind, lift.
    now rewrite (staticFalse_guard _ _ VUndef H).
  - unfold processUpdate, bind, lift.
    now rewrite (staticFalse_guard _ _ VUndef H).
  - unfold processUpdateMany, bind, lift.
    now rewrite (staticFalse_guard _ _ VUndef H).
  - unfold processDelete, bind, lift.
    now rewrite (staticFalse_guard _ _ VUndef H).
  - unfold processDeleteMany, bind, lift.
    now rewrite (staticFalse_guard _ _ VUndef H).
  - now apply injectAuthGuard_static_false.
  - apply readWithCheck_phases.
Qed.

End AfterQuery.

(** On the sample, where every entry of [Secret] is the constant false: a
    create is denied before any call to the database. *)
Lemma static_false_entry_witness :
  Blog.processWrite "Secret" "create" (VObj [("data", VObj [("id", VStr "s2")])])
  = (Thrown (deniedByPolicy "Secret" create None),
     snd (Blog.start (VObj [("data", VObj [("id", VStr "s2")])])))
  /\ fst (processCreate Blog.this Blog.camelCase Blog.TRANSACTION_FIELD_NAME
            Blog.cuid "Secret" HUndef
            {| createdModels := []; updatedModels := [] |}
            (snd (Blog.start VUndef)))
     = Thrown (deniedByPolicy "Secret" create None).
Proof.
  split; [vm_compute; reflexivity|].
  destruct (static_false_entry Blog.this Blog.camelCase
              Blog.TRANSACTION_FIELD_NAME Blog.cuid "Secret") as (Hc & _).
  rewrite Hc; [reflexivity|].
  eexists. split; reflexivity.
Defined.

(** C3 as stated fails for read: the entry of [Secret] for read is the
    constant false, and a read of [Secret] is not denied; it queries the
    database, with the filter that holds of no row, and returns no row. *)
Lemma static_false_read_counterexample :
  getAuthGuard Blog.this Blog.camelCase "Secret" read VUndef = Returned (VBool false)
  /\ fst (Blog.readWithCheck "Secret" (VObj [])) = Returned []
  /\ w_trace (snd (Blog.readWithCheck "Secret" (VObj [])))
     = [CallFindMany ThisDb "Secret"
          (VObj [("where", VObj [("id", VObj [("in", VArr [])])])])].
Proof. repeat split; vm_compute; reflexivity. Qed.

(** On the sample: the query sent for a read of posts with their authors'
    names carries the injected guard and the forced [id], while the argument
    object of the caller reads as it did. *)
Example readWithCheck_copy_example :
  let args :=
    VObj [("select",
           VObj [("id", VBool true);
                 ("author", VObj [("select", VObj [("name", VBool true)])])])] in
  let r := Blog.readWithCheck "Post" args in
  snapshot (w_heap (snd r)) (fst (Blog.start args)) = Some args
  /\ hd_error (w_trace (snd r))
     = Some (CallFindMany ThisDb "Post"
               (VObj [("select",
                       VObj [("id", VBool true);
                             ("author",
                              VObj [("select",
                                     VObj [("name", VBool true);
                                           ("id", VBool true)])])]);
                      ("where", VObj [("published", VBool true)])])).
Proof. split; vm_compute; reflexivity. Qed.

End HeapProps.
(** ** Reads: the post-check of to-one relations and the nested filters *)

Module ReadProps.
Import Js Runtime ReferenceStore Vocabulary.
Local Open Scope monad_scope.

Section PostProcess.
Context {Store : Type}.
Variable this : PolicyUtil Store.
Variable camelCase : string -> string.

Lemma forEach_nothing {A} (xs : list A) (body : A -> M Store unit) w :
  (forall x, body x w = (Returned tt, w)) ->
  forEach xs body w = (Returned tt, w).
Proof.
  intros Hb. induction xs as [|x xs IH]; cbn [forEach]; [reflexivity|].
  unfold bind. now rewrite Hb.
Qed.

Lemma forEach_ext {A} (xs : list A) (f g : A -> M Store unit) :
  (forall x w, f x w = g x w) -> forall w, forEach xs f w = forEach xs g w.
Proof.
  intros Hfg. induction xs as [|x xs IH]; intros w; cbn [forEach]; [reflexivity|].
  unfold bind. rewrite Hfg. destruct (g x w) as [[[]|e] w1]; [apply IH | reflexivity].
Qed.

Lemma depth_member fs k : depth (default VUndef (lookup k fs)) < depth (VObj fs).
Proof.
  cbn [depth]. apply Nat.lt_succ_r.
  induction fs as [|[k' v] fs IH]; cbn [lookup map list_max fold_right snd];
    [cbn; lia|].
  destruct (String.eqb k k'); [cbn [default from_option id]; lia|].
  etransitivity; [exact IH | apply Nat.le_max_r].
Qed.

Lemma depth_item items i : depth (nth i items VUndef) < depth (VArr items).
Proof.
  cbn [depth]. apply Nat.lt_succ_r. revert i.
  induction items as [|x items IH]; intros [|i];
    cbn [nth map list_max fold_right depth]; try lia.
  etransitivity; [apply IH | apply Nat.le_max_r].
Qed.

Lemma depth_get v k : truthy (get (get v k) "id") = true -> depth (get v k) < depth v.
Proof.
  destruct v as [| | | | |items|fs]; try discriminate; intros _.
  - cbn [get]. destruct (arrayIndex k (length items)); [apply depth_item | cbn; lia].
  - apply depth_member.
Qed.

(** The recursion of [postProcessForRead] never exceeds the nesting of the
    entity: any fuel above its depth gives the same result. *)
Lemma postProcessForRead_from_enough fuel : forall fuel' entityData model args op w,
  depth entityData < fuel -> depth entityData < fuel' ->
  postProcessForRead_from this camelCase fuel entityData model args op w
  = postProcessForRead_from this camelCase fuel' entityData model args op w.
Proof.
  induction fuel as [|fuel IH]; intros [|fuel'] entityData model args op w Hf Hf';
    try lia.
  cbn [postProcessForRead_from].
  destruct (negb (truthy (get entityData "id"))); [reflexivity|].
  destruct (nullish args); [reflexivity|].
  destruct (negb (truthy _)); [reflexivity|].
  apply forEach_ext. intros field w1.
  destruct (resolveField (modelMeta this) model field) as [fieldInfo|];
    [|reflexivity].
  destruct (truthy (get (get entityData field) "id")) eqn:Hid;
    [|now rewrite !orb_true_r].
  destruct (_ || _); [reflexivity|].
  unfold bind. destruct (checkPolicyForFilter _ _ _ _ _ _ w1) as [[[]|e] w2];
    [|reflexivity].
  pose proof (depth_get _ _ Hid). apply IH; lia.
Qed.


End PostProcess.


(** C4 fails on the sample.  The read guard of User admits public users
    only, and [u2] is not public: the count comparison on [{ id: 'u2' }]
    rejects it.  Yet a read of posts that selects the title and the author,
    and not the post's own [id], returns the post of [u2] with [u2] in it,
    and makes no check at all; with [id] selected the same read is
    denied. *)
Theorem readWithCheck_to_one_unchecked :
  let select := fun fields => VObj [("select", VObj fields)] in
  let r := Blog.readWithCheck "Post"
             (select [("title", VBool true); ("author", VBool true)]) in
  fst r = Returned
            [VObj [("title", VStr "hello"); ("author", Blog.userRow "u1" "alice" true)];
             VObj [("title", VStr "hello"); ("author", Blog.userRow "u2" "bob" false)];
             VObj [("title", VStr "other"); ("author", Blog.userRow "u1" "alice" true)]]
  /\ w_trace (snd r)
     = [CallFindMany ThisDb "Post"
          (VObj [("select", VObj [("title", VBool true); ("author", VBool true)]);
                 ("where", VObj [("published", VBool true)])])]
  /\ fst (checkPolicyForFilter Blog.this Blog.camelCase "User"
            (VObj [("id", VStr "u2")]) read ThisDb (snd (Blog.start VUndef)))
     = Thrown (deniedByPolicy "User" read (Some "1 entities failed policy check"))
  /\ fst (Blog.readWithCheck "Post"
            (select [("id", VBool true); ("title", VBool true);
                     ("author", VBool true)]))
     = Thrown (deniedByPolicy "User" read (Some "1 entities failed policy check")).
Proof. repeat split; vm_compute; reflexivity. Qed.

(** C5 fails on the sample.  The caller asks for the posts titled hello of
    each user; the read guard of Post admits published posts.  Of the posts
    of [u1], one is both (p1); the read returns two, p1 and p4, which is
    titled other: the nested filter sent to the store is the guard alone,
    the caller's filter is gone. *)
Theorem injectNestedReadConditions_drops_nested_filter :
  let args :=
    VObj [("select",
           VObj [("id", VBool true);
                 ("posts", VObj [("where", VObj [("title", VStr "hello")])])])] in
  let r := Blog.readWithCheck "User" args in
  fst r = Returned
            [VObj [("id", VStr "u1");
                   ("posts", VArr [Blog.postRow "p1" "hello" true "u1";
                                   Blog.postRow "p4" "other" true "u1"])]]
  /\ w_trace (snd r)
     = [CallFindMany ThisDb "User"
          (VObj [("select",
                  VObj [("id", VBool true);
                        ("posts", VObj [("where", VObj [("published", VBool true)])])]);
                 ("where", VObj [("public", VBool true)])])]
  /\ and [VObj [("title", VStr "hello")]; VObj [("published", VBool true)]]
     = VObj [("AND", VArr [VObj [("title", VStr "hello")];
                           VObj [("published", VBool true)]])].
Proof. repeat split; vm_compute; reflexivity. Qed.

End ReadProps.

(** ** The reversed query of a nested update or delete *)

Module PathProps.
Import Js Runtime ReferenceStore Vocabulary.

Lemma lookup_assign {A} k (x : A) fs : lookup k (assign k x fs) = Some x.
Proof.
  induction fs as [|[k' y] fs IH]; cbn; [now rewrite String.eqb_refl|].
  destruct (String.eqb k k') eqn:E; cbn; rewrite ?String.eqb_refl, ?E; auto.
Qed.

Lemma assign_assign {A} k (x y : A) fs : assign k x (assign k y fs) = assign k x fs.
Proof.
  induction fs as [|[k' z] fs IH]; cbn; [now rewrite String.eqb_refl|].
  destruct (String.eqb k k') eqn:E; cbn; rewrite ?String.eqb_refl, ?E;
    [reflexivity | now rewrite IH].
Qed.

Lemma assign_absent {A} k (x : A) fs :
  lookup k fs = None -> assign k x fs = fs ++ [(k, x)].
Proof.
  induction fs as [|[k' z] fs IH]; cbn; [reflexivity|].
  destruct (String.eqb k k'); [discriminate|]. intros H. now rewrite IH.
Qed.

(** Assigning at the place [currQuery] points to is assigning in the filter
    of the level reached. *)
Lemma assignAt_wrapFilters walked k x y :
  assignAt (map linkOf walked) k x (wrapFilters walked y)
  = wrapFilters walked (VObj (assign k x (spread y))).
Proof.
  induction walked as [|segment above IH]; cbn [map assignAt wrapFilters];
    [reflexivity|].
  fold (linkOf segment). cbn [get spread].
  rewrite lookup_assign, assign_assign. simpl (default _ _). now rewrite IH.
Qed.

Lemma wrapFilters_snoc walked segment x :
  wrapFilters (walked ++ [segment]) x
  = wrapFilters walked
      (VObj (assign (linkOf segment) x (spread (np_where segment)))).
Proof.
  induction walked as [|s above IH]; cbn [app wrapFilters]; [reflexivity|].
  now rewrite IH.
Qed.

Lemma segmentBackLink_Some segment link :
  segmentBackLink segment = Some link ->
  exists f, np_field segment = Some f /\ backLink f = Some link
            /\ String.eqb link "" = false.
Proof.
  unfold segmentBackLink. destruct (np_field segment) as [f|]; [|discriminate].
  destruct (backLink f) as [l|] eqn:Hb; [|discriminate].
  destruct (String.eqb l "") eqn:E; [discriminate|]. intros [= <-].
  exists f. repeat split; assumption.
Qed.

(** The loop of [buildReversedQuery], from any level on. *)
Lemma buildReversedQuery_loop_nests above : forall walked current N,
  nestFilters (current :: above) = Some N ->
  exists st,
    buildReversedQuery_loop above
      (Some {| rq_result := wrapFilters walked (VObj (spread (np_where current)));
               rq_currQuery := map linkOf walked;
               rq_currField := np_field current |})
    = Returned (Some st)
    /\ rq_result st = wrapFilters walked N.
Proof.
  induction above as [|next above IH]; intros walked current N.
  - cbn. intros [= <-]. eexists. split; reflexivity.
  - cbn [nestFilters].
    destruct (segmentBackLink current) as [link|] eqn:Hlink; [|discriminate].
    change (match above with
            | [] => Some (VObj (spread (np_where next)))
            | _ :: _ =>
                match segmentBackLink next, nestFilters above with
                | Some link, Some parentFilter =>
                    Some (VObj (assign link parentFilter (spread (np_where next))))
                | _, _ => None
                end
            end) with (nestFilters (next :: above)).
    destruct (nestFilters (next :: above)) as [N'|] eqn:HN'; [|discriminate].
    intros [= <-].
    destruct (segmentBackLink_Some _ _ Hlink) as (f & Hf & Hb & Hne).
    cbn [buildReversedQuery_loop rq_currField rq_result rq_currQuery].
    rewrite Hf, Hb, Hne.
    rewrite assignAt_wrapFilters. cbn [spread].
    assert (Hl : linkOf current = link) by (unfold linkOf; now rewrite Hlink).
    subst link. rewrite <- !wrapFilters_snoc.
    replace (map linkOf walked ++ [linkOf current])
      with (map linkOf (walked ++ [current])) by (now rewrite map_app).
    exact (IH (walked ++ [current]) next N' HN').
Qed.

Lemma buildReversedQuery_nestFilters context q :
  nestFilters (rev (nestingPath context)) = Some q ->
  buildReversedQuery context = Returned q.
Proof.
  unfold buildReversedQuery.
  destruct (rev (nestingPath context)) as [|current above]; [discriminate|].
  intros HN. cbn [buildReversedQuery_loop].
  destruct (buildReversedQuery_loop_nests above [] current q HN) as (st & Hst & Hres).
  cbn [wrapFilters map] in Hst, Hres. now rewrite Hst, Hres.
Qed.

(** *** What the reversed query selects *)

Section Selects.
Variable meta : ModelMeta.
Variable D : Database.

Lemma matches_fields_app model fs gs row :
  matches meta D model (VObj (fs ++ gs)) row
  = matches meta D model (VObj fs) row && matches meta D model (VObj gs) row.
Proof.
  induction fs as [|[k v] fs IH]; [reflexivity|].
  cbn [matches app] in *. rewrite IH. now rewrite andb_assoc.
Qed.

Lemma matches_relation model link owner N row :
  existsb (String.eqb link) ["AND"; "OR"; "NOT"] = false ->
  resolveField meta model link = Some owner ->
  isDataModel owner = true ->
  matches meta D model (VObj [(link, N)]) row
  = existsb (fun r => matches meta D (type owner) N r)
      (relatedRows meta D model link row).
Proof.
  cbn [existsb]. intros Hk Hr Hd.
  apply orb_false_elim in Hk as [Hand Hk].
  apply orb_false_elim in Hk as [Hor Hk].
  apply orb_false_elim in Hk as [Hnot _].
  cbn [matches]. rewrite Hand, Hor, Hnot, Hr, Hd. apply andb_true_r.
Qed.

Lemma existsb_filter {A} (p g : A -> bool) (l : list A) :
  existsb g (List.filter p l) = existsb (fun x => p x && g x) l.
Proof.
  induction l as [|x l IH]; cbn; [reflexivity|].
  destruct (p x); cbn; now rewrite IH.
Qed.

Lemma existsb_ext_in {A} (f g : A -> bool) (l : list A) :
  (forall x, In x l -> f x = g x) -> existsb f l = existsb g l.
Proof.
  induction l as [|x l IH]; cbn; intros H; [reflexivity|].
  rewrite H by now left. rewrite IH; [reflexivity|]. intros y Hy. apply H. now right.
Qed.

Lemma nestFilters_linked model segments :
  linkedPath meta D model segments ->
  exists q,
    nestFilters segments = Some q
    /\ forall row, In row (table D model) ->
         matches meta D model q row = reachable meta D model segments row.
Proof.
  induction 1 as [model root
                 |model segment above f link owner
                    Hf Hlink Hkey Hfree Hres Hdm Hagree Hne _ IH].
  - eexists. split; [reflexivity|]. intros row _. cbn. now rewrite andb_true_r.
  - destruct IH as (N' & HN' & Hsem).
    exists (VObj (assign link N' (spread (np_where segment)))). split.
    + cbn [nestFilters]. destruct above as [|next above']; [congruence|].
      now rewrite Hlink, HN'.
    + intros row Hrow. rewrite (assign_absent _ _ _ Hfree).
      rewrite matches_fields_app, (matches_relation _ _ _ _ _ Hkey Hres Hdm).
      cbn [reachable]. destruct above as [|next above']; [congruence|].
      rewrite Hf, Hlink, Hres. f_equal.
      unfold relatedRows. rewrite Hres, existsb_filter.
      apply existsb_ext_in. intros parent Hparent.
      rewrite (Hagree row parent Hrow Hparent). f_equal. now apply Hsem.
Qed.

Lemma filter_ext_in {A} (f g : A -> bool) (l : list A) :
  (forall x, In x l -> f x = g x) -> List.filter f l = List.filter g l.
Proof.
  induction l as [|x l IH]; cbn; intros H; [reflexivity|].
  rewrite H by now left. rewrite IH; [reflexivity|]. intros y Hy. apply H. now right.
Qed.

(** C8 (as amended). Along a path on which every traversed field has a
    back-link that is not already a key of the filter of its level (and
    names the relation that reverses the field), [buildReversedQuery]
    returns the filter built from the innermost segment outwards: the
    where-filter of the innermost segment, with the filter of the next level
    up nested under the back-link of the level below, up to the where-clause
    of the root; and the rows this filter selects are the rows of the model
    reachable from the root along the path, each level under its filter. *)
Theorem buildReversedQuery_nests (model : string) (context : VisitorContext) :
  linkedPath meta D model (rev (nestingPath context)) ->
  exists q,
    buildReversedQuery context = Returned q
    /\ nestFilters (rev (nestingPath context)) = Some q
    /\ selected meta D model q
       = List.filter (reachable meta D model (rev (nestingPath context)))
           (table D model).
Proof.
  intros Hpath. destruct (nestFilters_linked _ _ Hpath) as (q & Hq & Hsem).
  exists q. split; [now apply buildReversedQuery_nestFilters|].
  split; [exact Hq|]. unfold selected. now apply filter_ext_in.
Qed.

End Selects.

Lemma chain_linked :
  linkedPath Chain.meta Chain.database "C" (rev Chain.pathToC).
Proof.
  eapply (linked_step _ _ "C" _ _ Chain.cOfB "b" Chain.bOfC);
    try reflexivity; try discriminate.
  - intros row parent Hrow Hparent. cbn in Hrow, Hparent.
    destruct Hrow as [<- | [<- | []]]; destruct Hparent as [<- | [<- | []]];
      reflexivity.
  - eapply (linked_step _ _ "B" _ _ Chain.bOfA "a" Chain.aOfB);
      try reflexivity; try discriminate; [|constructor].
    intros row parent Hrow Hparent. cbn in Hrow, Hparent.
    destruct Hrow as [<- | [<- | []]]; destruct Hparent as [<- | [<- | []]];
      reflexivity.
Qed.

(** On the chain: the update of [c] under [b] under the [A] of id a1 is
    checked with [{ b: { a: { id: 'a1' } } }], which selects c1. *)
Lemma buildReversedQuery_nests_witness :
  buildReversedQuery (Chain.contextOf Chain.pathToC)
  = Returned (VObj [("b", VObj [("a", VObj [("id", VStr "a1")])])])
  /\ selected Chain.meta Chain.database "C"
       (VObj [("b", VObj [("a", VObj [("id", VStr "a1")])])])
     = [Chain.row "c1"].
Proof.
  destruct (buildReversedQuery_nests Chain.meta Chain.database "C"
              (Chain.contextOf Chain.pathToC) chain_linked)
    as (q & Hq & Hn & Hsel).
  assert (q = VObj [("b", VObj [("a", VObj [("id", VStr "a1")])])]) as ->
    by (vm_compute in Hn; congruence).
  split; [exact Hq|]. rewrite Hsel. vm_compute. reflexivity.
Defined.

(** C8 as stated fails in two ways.  Through a field without a back-link no
    query is built: the call fails with an internal error.  And where the
    filter of a level already has the back-link for a key, that key is
    overwritten: the query built for [pathWithCollision] selects c1, which
    is not reachable under the filters of the path (the [B] above c1 is not
    one whose [a] has id a2). *)
Lemma buildReversedQuery_counterexample :
  buildReversedQuery (Chain.contextOf Chain.pathWithoutBackLink)
  = Thrown (unknownError "field B.b doesn't have a backLink")
  /\ buildReversedQuery (Chain.contextOf Chain.pathWithCollision)
     = Returned (VObj [("b", VObj [("a", VObj [("id", VStr "a1")])])])
  /\ selected Chain.meta Chain.database "C"
       (VObj [("b", VObj [("a", VObj [("id", VStr "a1")])])])
     = [Chain.row "c1"]
  /\ List.filter (reachable Chain.meta Chain.database "C" (rev Chain.pathWithCollision))
       (table Chain.database "C")
     = [].
Proof. repeat split; vm_compute; reflexivity. Qed.

End PathProps.

(** * Conditions and checks *)

Module ConditionProps.
Import Js Runtime ReferenceStore Vocabulary Conditions.
Local Open Scope monad_scope.

Section Reference.
Variable meta : ModelMeta.
Variable D : Database.

Lemma matches_OR model cs row :
  matches meta D model (VObj [("OR", VArr cs)]) row
  = existsb (fun c => matches meta D model c row) cs.
Proof.
  cbn [matches]. cbn [String.eqb Ascii.eqb Bool.eqb]. rewrite andb_true_r.
  induction cs as [|c cs IH]; [reflexivity|].
  cbn [existsb]. now rewrite <- IH.
Qed.

Lemma matches_id model x row :
  idIsScalar meta model ->
  matches meta D model (VObj [("id", x)]) row = scalarMatches x (get row "id").
Proof.
  unfold idIsScalar. intros H. cbn [matches]. cbn [String.eqb Ascii.eqb Bool.eqb].
  rewrite andb_true_r.
  destruct (resolveField meta model "id") as [fi|]; [rewrite H|]; reflexivity.
Qed.

Lemma forallb_filter {A} (p g : A -> bool) (l : list A) :
  forallb g (List.filter p l) = forallb (fun x => negb (p x) || g x) l.
Proof.
  induction l as [|x l IH]; [reflexivity|]. cbn [List.filter forallb].
  destruct (p x); cbn [forallb negb orb]; now rewrite IH.
Qed.

Lemma forallb_ext_in {A} (f g : A -> bool) (l : list A) :
  (forall x, In x l -> f x = g x) -> forallb f l = forallb g l.
Proof.
  induction l as [|x l IH]; intros H; [reflexivity|]. cbn [forallb].
  rewrite H by now left. rewrite IH; [reflexivity|]. intros; apply H; now right.
Qed.

(** The filter [and] builds holds of a row exactly when every condition
    does. *)
Lemma matches_and model cs row :
  idIsScalar meta model ->
  matches meta D model (and cs) row = forallb (fun c => holds meta D model c row) cs.
Proof.
  intros Hid. unfold and, conjunction.
  destruct (existsb isFalse cs) eqn:Hf.
  - rewrite (matches_id _ _ _ Hid). cbn [scalarMatches forallb String.eqb Ascii.eqb Bool.eqb elements existsb].
    symmetry. apply existsb_exists in Hf as (c & Hin & Hc).
    apply not_true_is_false. intros Hall.
    rewrite forallb_forall in Hall. specialize (Hall c Hin).
    unfold holds in Hall. now rewrite Hc in Hall.
  - assert (Hrhs : forallb (fun c => holds meta D model c row) cs
                   = forallb (fun c => matches meta D model c row)
                       (List.filter isObject cs)).
    { rewrite forallb_filter. apply forallb_ext_in. intros c Hin.
      unfold holds.
      assert (isFalse c = false) as ->.
      { destruct (isFalse c) eqn:E; [|reflexivity].
        rewrite <- Hf. symmetry. apply existsb_exists. eauto. }
      now destruct (isObject c). }
    rewrite Hrhs.
    destruct (List.filter isObject cs) as [|c [|c' rest]].
    + reflexivity.
    + cbn [forallb]. now rewrite andb_true_r.
    + apply RuntimeProps.matches_AND.
Qed.

Lemma matches_or model cs row :
  idIsScalar meta model ->
  existsb isTrue cs || existsb isObject cs = true ->
  matches meta D model (or cs) row = existsb (fun c => accepts meta D model c row) cs.
Proof.
  intros Hid Hsome. unfold or, conjunction.
  destruct (existsb isTrue cs) eqn:Ht.
  - rewrite (matches_id _ _ _ Hid).
    cbn [scalarMatches forallb String.eqb Ascii.eqb Bool.eqb elements existsb negb andb].
    symmetry. apply existsb_exists in Ht as (c & Hin & Hc).
    apply existsb_exists. exists c. split; [assumption|].
    unfold accepts. now rewrite Hc.
  - cbn [orb] in Hsome.
    assert (Hrhs : existsb (fun c => accepts meta D model c row) cs
                   = existsb (fun c => matches meta D model c row)
                       (List.filter isObject cs)).
    { rewrite PathProps.existsb_filter. apply PathProps.existsb_ext_in.
      intros c Hin. unfold accepts.
      assert (isTrue c = false) as ->.
      { destruct (isTrue c) eqn:E; [|reflexivity].
        rewrite <- Ht. symmetry. apply existsb_exists. eauto. }
      now destruct (isObject c). }
    rewrite Hrhs.
    destruct (List.filter isObject cs) as [|c [|c' rest]] eqn:Hfl.
    + exfalso. apply existsb_exists in Hsome as (c & Hin & Hc).
      assert (In c (List.filter isObject cs)) by (apply filter_In; auto).
      rewrite Hfl in H. contradiction.
    + cbn [existsb]. now rewrite orb_false_r.
    + apply matches_OR.
Qed.

End Reference.

(** X1. The filter [and] returns is the conjunction of its conditions: on
    a model whose [id] is a scalar field, it holds of a row exactly when
    every condition does, where [false] holds of no row, an object is a
    filter and anything else asks nothing.  In particular a [false] among
    the conditions gives a filter no row satisfies, and no object among
    them gives no filter at all. *)
Theorem and_conjunction meta D model (conditions : list value) (row : value) :
  idIsScalar meta model ->
  matches meta D model (and conditions) row
  = forallb (fun c => holds meta D model c row) conditions.
Proof. apply matches_and. Qed.

Lemma and_conjunction_witness :
  matches Blog.meta Blog.database "Post"
    (and [VObj [("title", VStr "hello")]; VBool true;
          VObj [("authorId", VStr "u1")]])
    (Blog.postRow "p1" "hello" true "u1") = true
  /\ matches Blog.meta Blog.database "Post"
       (and [VObj [("title", VStr "hello")]; VBool false])
       (Blog.postRow "p1" "hello" true "u1") = false.
Proof.
  split;
    rewrite (and_conjunction Blog.meta Blog.database "Post" _ _
               (RuntimeProps.blog_id_scalar "Post"));
    reflexivity.
Defined.

(** X2. The filter [or] returns is the disjunction of its conditions as
    soon as one of them is [true] or an object: on a model whose [id] is a
    scalar field it then holds of a row exactly when some condition accepts
    the row, where [true] accepts every row, an object is a filter and
    anything else accepts none. *)
Theorem or_disjunction meta D model (conditions : list value) (row : value) :
  idIsScalar meta model ->
  existsb isTrue conditions || existsb isObject conditions = true ->
  matches meta D model (or conditions) row
  = existsb (fun c => accepts meta D model c row) conditions.
Proof. apply matches_or. Qed.

Lemma or_disjunction_witness :
  matches Blog.meta Blog.database "Post"
    (or [VObj [("title", VStr "draft")]; VBool false;
         VObj [("authorId", VStr "u1")]])
    (Blog.postRow "p1" "hello" true "u1") = true
  /\ matches Blog.meta Blog.database "Post"
       (or [VObj [("title", VStr "draft")]; VObj [("authorId", VStr "u2")]])
       (Blog.postRow "p1" "hello" true "u1") = false.
Proof.
  split;
    rewrite or_disjunction
      by first [exact (RuntimeProps.blog_id_scalar "Post") | reflexivity];
    reflexivity.
Defined.

(** ** The two checks at their edges *)

Section Checks.
Context {Store : Type}.
Variable this : PolicyUtil Store.
Variable camelCase : string -> string.

Lemma and_true_guard filter : isFilter filter -> and [filter; VBool true] = filter.
Proof.
  intros [-> | Hobj]; unfold and, conjunction; simpl; [reflexivity|].
  assert (isFalse filter = false) as ->
      by (destruct filter; try discriminate; reflexivity).
  simpl. now rewrite Hobj.
Qed.

(** X3. The count comparison passes without looking at the guard's effect
    in two cases: when the filter selects no row at all, whatever the guard
    is, and when the guard is the constant [true].  Both counts are still
    asked of the store. *)
Theorem checkPolicyForFilter_passes_trivially
    model filter operation via G (w : World Store) :
  getAuthGuard this camelCase model operation VUndef = Returned G ->
  count (db this) model (whereOnly filter) (w_store w) = 0
  \/ (G = VBool true /\ isFilter filter) ->
  checkPolicyForFilter this camelCase model filter operation via w
  = (Returned tt,
     record (CallCount via model (whereOnly (and [filter; G])))
       (record (CallCount via model (whereOnly filter)) w)).
Proof.
  intros HG Hcase. rewrite (RuntimeProps.checkPolicyForFilter_unfold _ _ _ _ _ _ _ _ HG).
  destruct Hcase as [H0 | [-> Hf]].
  - rewrite H0. reflexivity.
  - rewrite (and_true_guard _ Hf), Nat.ltb_irrefl. reflexivity.
Qed.

End Checks.

Lemma checkPolicyForFilter_passes_trivially_witness :
  fst (checkPolicyForFilter Blog.this Blog.camelCase "Post"
         (VObj [("title", VStr "none")]) read ThisDb (snd (Blog.start VUndef)))
  = Returned tt.
Proof.
  rewrite (checkPolicyForFilter_passes_trivially Blog.this Blog.camelCase
             "Post" (VObj [("title", VStr "none")]) read ThisDb
             (VObj [("published", VBool true)]) _ eq_refl);
    [reflexivity | left; reflexivity].
Defined.

Lemma filter_empty_existsb {A} (f : A -> bool) (l : list A) :
  (length (List.filter f l) =? 0)%nat = negb (existsb f l).
Proof.
  induction l as [|x l IH]; [reflexivity|]. cbn [List.filter existsb].
  destruct (f x); [reflexivity | exact IH].
Qed.

(** X4. The post-update check against a store that evaluates filters as
    the reference store does: it passes exactly when the table has a row
    with the given id that satisfies the post-update guard computed from
    the pre-update value, and is denied otherwise; so it is denied as well
    when no row has that id any more. *)
Theorem checkPostUpdate_needs_row
    meta (this : PolicyUtil Database) camelCase model id via preValue G
    (w : World Database) :
  db this = referenceDb meta ->
  idIsScalar meta model ->
  getAuthGuard this camelCase model postUpdate preValue = Returned G ->
  fst (checkPostUpdate this camelCase model id via preValue w)
  = if existsb (fun row => scalarMatches id (get row "id")
                           && holds meta (w_store w) model G row)
         (table (w_store w) model)
    then Returned tt
    else Thrown (deniedByPolicy model postUpdate (Some "entity failed policy check")).
Proof.
  intros Hdb Hid HG. unfold checkPostUpdate, bind, lift, dbCount.
  rewrite HG, Hdb. cbn [fst count referenceDb].
  change (get (VObj [("where", ?x)]) "where") with x.
  unfold selected. rewrite filter_empty_existsb.
  rewrite (PathProps.existsb_ext_in _
             (fun row => scalarMatches id (get row "id")
                         && holds meta (w_store w) model G row)).
  - now destruct (existsb _ _).
  - intros row _. rewrite (matches_and _ _ _ _ _ Hid). cbn [forallb].
    rewrite andb_true_r. f_equal. unfold holds at 1.
    cbn [isFalse strictEq isObject typeofObject truthy andb].
    now apply matches_id.
Qed.

Lemma checkPostUpdate_needs_row_witness :
  fst (checkPostUpdate Blog.this Blog.camelCase "Post" (VStr "p1") Tx VUndef
         (snd (Blog.start VUndef))) = Returned tt
  /\ fst (checkPostUpdate Blog.this Blog.camelCase "Post" (VStr "p0") Tx VUndef
            (snd (Blog.start VUndef)))
     = Thrown (deniedByPolicy "Post" postUpdate (Some "entity failed policy check")).
Proof.
  split;
    rewrite (checkPostUpdate_needs_row Blog.meta Blog.this Blog.camelCase "Post"
               _ Tx VUndef (VBool true) _ eq_refl
               (RuntimeProps.blog_id_scalar "Post") eq_refl);
    reflexivity.
Defined.

End ConditionProps.

(** * The reversed query: when it can be built *)

Module ReversedQueryProps.
Import Js Runtime Vocabulary.

(** From any level on, the loop fails as soon as a level that has another
    above it lacks a back-link. *)
Lemma buildReversedQuery_loop_fails above : forall st current,
  rq_currField st = np_field current ->
  nestFilters (current :: above) = None ->
  exists msg, buildReversedQuery_loop above (Some st) = Thrown (unknownError msg).
Proof.
  induction above as [|next above IH]; intros st current Hst; [discriminate|].
  cbn [buildReversedQuery_loop]. rewrite Hst.
  change (nestFilters (current :: next :: above))
    with (match segmentBackLink current, nestFilters (next :: above) with
          | Some link, Some parentFilter =>
              Some (VObj (assign link parentFilter (spread (np_where current))))
          | _, _ => None
          end).
  unfold segmentBackLink at 1.
  destruct (np_field current) as [f|]; [|eauto].
  destruct (backLink f) as [link|]; [|eauto].
  destruct (String.eqb link ""); [eauto|].
  destruct (nestFilters (next :: above)) eqn:HN; [discriminate|]. intros _.
  eapply IH; [|exact HN]. reflexivity.
Qed.

Lemma nestFilters_None segments :
  nestFilters segments = None
  <-> segments = []
      \/ Exists (fun segment => segmentBackLink segment = None) (removelast segments).
Proof.
  induction segments as [|segment above IH]; [split; auto|].
  destruct above as [|next above].
  - cbn. split; [discriminate|]. intros [H | H]; [discriminate | inversion H].
  - change (nestFilters (segment :: next :: above))
      with (match segmentBackLink segment, nestFilters (next :: above) with
            | Some link, Some parentFilter =>
                Some (VObj (assign link parentFilter (spread (np_where segment))))
            | _, _ => None
            end).
    change (removelast (segment :: next :: above))
      with (segment :: removelast (next :: above)).
    destruct (segmentBackLink segment) as [link|] eqn:Hl.
    + destruct (nestFilters (next :: above)) as [q|] eqn:HN.
      * split; [discriminate|]. intros [H | H]; [discriminate|].
        apply Exists_cons in H as [H | H]; [congruence|].
        assert (Some q = None) by (apply IH; now right). discriminate.
      * split; [|reflexivity]. intros _. right. apply Exists_cons. right.
        destruct (proj1 IH eq_refl) as [H | H]; [discriminate | exact H].
    + split; [|reflexivity]. intros _. right. apply Exists_cons. now left.
Qed.

Lemma removelast_rev {A} (l : list A) : removelast (rev l) = rev (tl l).
Proof.
  destruct l as [|x l]; [reflexivity|]. cbn [rev tl].
  apply removelast_last.
Qed.

(** X5. [buildReversedQuery] fails exactly when some segment of the nesting
    path other than the first one (the root) has no field or a field
    without a back-link; the failure is an unknown request error, never a
    policy denial.  An empty path gives [undefined], and a path of the root
    alone a copy of the root's filter. *)
Theorem buildReversedQuery_fails_iff (context : VisitorContext) :
  ((exists e, buildReversedQuery context = Thrown e)
   <-> Exists (fun segment => segmentBackLink segment = None)
         (tl (nestingPath context)))
  /\ (forall e, buildReversedQuery context = Thrown e -> isPolicyDenied e = false)
  /\ (nestingPath context = [] -> buildReversedQuery context = Returned VUndef)
  /\ (forall root, nestingPath context = [root] ->
        buildReversedQuery context = Returned (VObj (spread (np_where root)))).
Proof.
  assert (Hcases :
    match nestFilters (rev (nestingPath context)) with
    | Some q => buildReversedQuery context = Returned q
    | None =>
        nestingPath context = [] /\ buildReversedQuery context = Returned VUndef
        \/ nestingPath context <> []
           /\ exists msg, buildReversedQuery context = Thrown (unknownError msg)
    end).
  { destruct (nestFilters (rev (nestingPath context))) as [q|] eqn:HN.
    - now apply PathProps.buildReversedQuery_nestFilters.
    - unfold buildReversedQuery.
      destruct (nestingPath context) as [|root rest] eqn:Hp using rev_ind.
      + left. split; reflexivity.
      + right. split; [now destruct rest|].
        rewrite rev_app_distr in *. cbn [rev app] in *.
        cbn [buildReversedQuery_loop].
        edestruct (buildReversedQuery_loop_fails (rev rest)) as (msg & Hmsg);
          [|exact HN|rewrite Hmsg; eauto]. reflexivity. }
  assert (Hiff : nestFilters (rev (nestingPath context)) = None
                 <-> nestingPath context = []
                     \/ Exists (fun segment => segmentBackLink segment = None)
                          (tl (nestingPath context))).
  { rewrite nestFilters_None, removelast_rev.
    split; (intros [H | H]; [left | right]).
    - apply (f_equal (@rev _)) in H. now rewrite rev_involutive in H.
    - apply List.Exists_rev in H. now rewrite rev_involutive in H.
    - now rewrite H.
    - now apply List.Exists_rev. }
  split; [|split; [|split]].
  - destruct (nestFilters (rev (nestingPath context))) as [q|] eqn:HN.
    + split.
      * intros [e He]. congruence.
      * intros H. assert (Some q = None) by (apply Hiff; now right). discriminate.
    + destruct Hcases as [[Hnil Hret] | [Hne (msg & Hmsg)]].
      * split; [intros [e He]; congruence|]. rewrite Hnil. intros H. inversion H.
      * split; [|eauto]. intros _.
        destruct (proj1 Hiff eq_refl) as [H | H]; [contradiction | exact H].
  - intros e He.
    destruct (nestFilters (rev (nestingPath context))); [congruence|].
    destruct Hcases as [[_ Hret] | [_ (msg & Hmsg)]]; [congruence|].
    rewrite Hmsg in He. now injection He as <-.
  - intros Hnil. unfold buildReversedQuery. now rewrite Hnil.
  - intros root Hroot. unfold buildReversedQuery. now rewrite Hroot.
Qed.

(** On the chain A - B - C: the path to [c] can be reversed; the same path
    through a field without a back-link cannot. *)
Lemma buildReversedQuery_fails_iff_witness :
  (exists e, buildReversedQuery (Chain.contextOf Chain.pathWithoutBackLink) = Thrown e)
  /\ ~ (exists e, buildReversedQuery (Chain.contextOf Chain.pathToC) = Thrown e)
  /\ buildReversedQuery (Chain.contextOf [ {| np_field := None; np_where := VUndef |} ])
     = Returned (VObj []).
Proof.
  split; [|split].
  - apply (proj1 (buildReversedQuery_fails_iff
                    (Chain.contextOf Chain.pathWithoutBackLink))).
    left. reflexivity.
  - intros H.
    apply (proj1 (buildReversedQuery_fails_iff (Chain.contextOf Chain.pathToC))) in H.
    cbn in H. inversion H as [? ? H1 | ? ? H1]; subst; [discriminate|].
    inversion H1 as [? ? H2 | ? ? H2]; subst; [discriminate | inversion H2].
  - apply (proj2 (proj2 (proj2 (buildReversedQuery_fails_iff
                    (Chain.contextOf [ {| np_field := None; np_where := VUndef |} ]))))
             {| np_field := None; np_where := VUndef |}).
    reflexivity.
Defined.

End ReversedQueryProps.

(** * Reading argument objects: allocation, copies, injected guards *)

Module ReadingProps.
Import Js Runtime Vocabulary Reading Conditions.
Local Open Scope monad_scope.

Lemma agree_refl S h : agree S h h.
Proof. intros l _. reflexivity. Qed.

Lemma agree_trans S h1 h2 h3 : agree S h1 h2 -> agree S h2 h3 -> agree S h1 h3.
Proof. intros H12 H23 l Hl. rewrite H23, H12 by assumption. reflexivity. Qed.

Lemma agree_sub (S T : region) h1 h2 :
  (forall l, S l -> T l) -> agree T h1 h2 -> agree S h1 h2.
Proof. intros Hsub H l Hl. apply H. auto. Qed.

Lemma agree_app S h ext : within S h -> agree S h (h ++ ext).
Proof. intros Hw l Hl. apply lookup_app_l. auto. Qed.

Lemma agree_insert S h l o : ~ S l -> agree S h (<[l := o]> h).
Proof.
  intros Hl k Hk. apply list_lookup_insert_ne. intros ->. contradiction.
Qed.

Lemma represents_mono h h2 (S T : region) x' x :
  represents h S x' x ->
  (forall l, S l -> T l) -> agree S h h2 ->
  represents h2 T x' x.
Proof.
  intros Hr Hsub Hag h' n Hag' Hn. apply Hr; [|assumption].
  eapply agree_trans; [exact Hag|]. eapply agree_sub; eassumption.
Qed.

Lemma represents_reads h S x' x n :
  represents h S x' x -> depth x <= n -> reify n h x' = Some x.
Proof. intros Hr Hn. apply Hr; [apply agree_refl | assumption]. Qed.

Lemma represents_undefined h S : represents h S HUndef VUndef.
Proof. intros h' n _ _. now destruct n. Qed.

(** A reference reads as an object or an array, and every other value as
    itself: the two views classify alike. *)
Lemma represents_shape h S x' x :
  represents h S x' x ->
  match x' with
  | HUndef => x = VUndef
  | HNull => x = VNull
  | HBool b => x = VBool b
  | HNum n => x = VNum n
  | HStr s => x = VStr s
  | HRef _ => match x with VArr _ | VObj _ => True | _ => False end
  end.
Proof.
  intros Hr. pose proof (represents_reads _ _ _ _ _ Hr (Nat.le_refl _)) as H.
  destruct x'; try (destruct (depth x); cbn in H; congruence).
  destruct x; cbn in H; try discriminate; exact I.
Qed.

Lemma represents_classes h S x' x :
  represents h S x' x ->
  h_truthy x' = truthy x
  /\ h_nullish x' = nullish x
  /\ h_isFalse x' = isFalse x
  /\ h_isTrue x' = isTrue x
  /\ h_isObject x' = isObject x.
Proof.
  intros Hr. apply represents_shape in Hr.
  destruct x' as [| |b|n|s|l]; subst; try (repeat split; reflexivity).
  destruct x; try contradiction; repeat split; reflexivity.
Qed.

(** *** Lists of members *)

Lemma list_max_cons a l : list_max (a :: l) = Nat.max a (list_max l).
Proof. reflexivity. Qed.

Lemma mapM_represents h S n h' items' items :
  Forall2 (represents h S) items' items ->
  agree S h h' ->
  list_max (map depth items) <= n ->
  mapM (reify n h') items' = Some items.
Proof.
  intros Hall Hag. induction Hall as [|x' x items' items Hx _ IH]; intros Hn;
    [reflexivity|].
  cbn [map] in Hn. rewrite list_max_cons in Hn. cbn [mapM].
  rewrite (Hx h' n Hag) by lia. cbn. rewrite IH by lia. reflexivity.
Qed.

Lemma mapM_representsField h S n h' fs' fs :
  Forall2 (representsField h S) fs' fs ->
  agree S h h' ->
  list_max (map (fun kv => depth (snd kv)) fs) <= n ->
  mapM (fun '(k, x) => pair k <$> reify n h' x) fs' = Some fs.
Proof.
  intros Hall Hag.
  induction Hall as [|[k' x'] [k x] fs' fs [Hk Hx] _ IH]; intros Hn;
    [reflexivity|].
  cbn [map snd fst] in *. rewrite list_max_cons in Hn. subst k'. cbn [mapM].
  rewrite (Hx h' n Hag) by lia. cbn. rewrite IH by lia. reflexivity.
Qed.

Lemma Forall2_represents_mono h h2 (S T : region) items' items :
  Forall2 (represents h S) items' items ->
  (forall l, S l -> T l) -> agree S h h2 ->
  Forall2 (represents h2 T) items' items.
Proof.
  intros Hall Hsub Hag. eapply Forall2_impl; [exact Hall|].
  intros x' x Hx. eapply represents_mono; eassumption.
Qed.

Lemma Forall2_representsField_mono h h2 (S T : region) fs' fs :
  Forall2 (representsField h S) fs' fs ->
  (forall l, S l -> T l) -> agree S h h2 ->
  Forall2 (representsField h2 T) fs' fs.
Proof.
  intros Hall Hsub Hag. eapply Forall2_impl; [exact Hall|].
  intros kx' kx [Hk Hx]. split; [assumption|]. eapply represents_mono; eassumption.
Qed.

Lemma lookup_representsField h S k fs' fs :
  Forall2 (representsField h S) fs' fs ->
  represents h S (default HUndef (lookup k fs')) (default VUndef (lookup k fs)).
Proof.
  induction 1 as [|[k' x'] [k0 x] fs' fs [Hk Hx] _ IH]; cbn [lookup];
    [apply represents_undefined|].
  cbn [fst snd] in *. subst k0. destruct (String.eqb k k'); [exact Hx | exact IH].
Qed.

Lemma assign_representsField h S k c' c fs' fs :
  Forall2 (representsField h S) fs' fs ->
  represents h S c' c ->
  Forall2 (representsField h S) (assign k c' fs') (assign k c fs).
Proof.
  intros Hall Hc.
  induction Hall as [|[k' x'] [k0 x] fs' fs [Hk Hx] Hrest IH]; cbn [assign].
  - constructor; [split; [reflexivity | exact Hc] | constructor].
  - cbn [fst snd] in *. subst k0. destruct (String.eqb k k').
    + constructor; [split; [reflexivity | exact Hc] | exact Hrest].
    + constructor; [split; [reflexivity | exact Hx] | exact IH].
Qed.

Lemma depth_assign k c fs :
  depth (VObj (assign k c fs)) <= Nat.max (depth (VObj fs)) (S (depth c)).
Proof.
  cbn [depth]. induction fs as [|[k' x] fs IH]; cbn [assign map snd].
  - cbn. lia.
  - destruct (String.eqb k k'); cbn [map snd]; rewrite ?list_max_cons in *; lia.
Qed.

Lemma mapM_fields_keys n h (fs' : list (string * hval)) :
  forall fs : list (string * value),
  mapM (fun '(k, x) => pair k <$> reify n h x) fs' = Some fs ->
  map fst fs' = map fst fs.
Proof.
  induction fs' as [|[k x'] fs' IH]; intros fs; cbn [mapM].
  - intros [= <-]. reflexivity.
  - destruct (reify n h x') as [x|]; [|discriminate]. cbn.
    destruct (mapM _ fs') as [rest|] eqn:E; [|discriminate]. cbn.
    intros [= <-]. cbn [map fst]. now rewrite (IH rest eq_refl).
Qed.

(** The keys of an object are the keys of what it reads as. *)
Lemma represents_keys h Rg x' x :
  represents h Rg x' x -> h_keys h x' = keys x.
Proof.
  intros Hr. pose proof (represents_shape _ _ _ _ Hr) as Hshape.
  pose proof (represents_reads _ _ _ _ _ Hr (Nat.le_refl _)) as Hread.
  destruct x' as [| |b|n|s|l]; try (subst x; reflexivity).
  destruct x as [| | | | |items|fs]; try contradiction; cbn [depth reify] in Hread;
    cbn [h_keys keys]; destruct (h !! l) as [[fs'|items']|]; try discriminate.
  - destruct (mapM _ fs'); discriminate.
  - destruct (mapM (reify _ h) items') as [items0|] eqn:E; [|discriminate].
    injection Hread as <-. apply length_mapM in E. now rewrite E.
  - destruct (mapM _ fs') as [fs0|] eqn:E; [|discriminate].
    injection Hread as <-. now apply mapM_fields_keys in E.
  - destruct (mapM (reify _ h) items'); discriminate.
Qed.

(** *** Allocation *)

Lemma allocItems_represents items :
  Forall (fun v => forall h, exists ext,
            snd (alloc v h) = h ++ ext
            /\ represents (h ++ ext)
                 (allocated (length h) (length h + length ext)) (fst (alloc v h)) v
            /\ depth v <= length ext) items ->
  forall h, exists ext,
    snd (allocItems alloc items h) = h ++ ext
    /\ Forall2 (represents (h ++ ext) (allocated (length h) (length h + length ext)))
         (fst (allocItems alloc items h)) items
    /\ list_max (map depth items) <= length ext.
Proof.
  induction 1 as [|x rest Hx _ IH]; intros h.
  - exists []. rewrite app_nil_r. cbn. repeat split; [constructor | lia].
  - cbn [allocItems]. destruct (Hx h) as (e1 & He1 & Hr1 & Hd1).
    destruct (alloc x h) as [x' h1]. cbn [fst snd] in *. subst h1.
    destruct (IH (h ++ e1)) as (e2 & He2 & Hr2 & Hd2).
    destruct (allocItems alloc rest (h ++ e1)) as [rest' h2]. cbn [fst snd] in *.
    subst h2. exists (e1 ++ e2). rewrite app_assoc. split; [reflexivity|].
    rewrite !length_app in *. split; [|cbn [map]; rewrite list_max_cons; lia].
    constructor.
    + eapply represents_mono; [exact Hr1| |].
      * unfold allocated. intros l. rewrite ?length_app. lia.
      * apply agree_app. unfold within, allocated. intros l. rewrite ?length_app. lia.
    + eapply Forall2_represents_mono; [exact Hr2| |apply agree_refl].
      unfold allocated. intros l. rewrite ?length_app. lia.
Qed.

Lemma allocFields_represents fs :
  Forall (fun kv => forall h, exists ext,
            snd (alloc (snd kv) h) = h ++ ext
            /\ represents (h ++ ext)
                 (allocated (length h) (length h + length ext))
                 (fst (alloc (snd kv) h)) (snd kv)
            /\ depth (snd kv) <= length ext) fs ->
  forall h, exists ext,
    snd (allocFields alloc fs h) = h ++ ext
    /\ Forall2 (representsField (h ++ ext)
                  (allocated (length h) (length h + length ext)))
         (fst (allocFields alloc fs h)) fs
    /\ list_max (map (fun kv => depth (snd kv)) fs) <= length ext.
Proof.
  induction 1 as [|[k x] rest Hx _ IH]; intros h.
  - exists []. rewrite app_nil_r. cbn. repeat split; [constructor | lia].
  - cbn [allocFields snd fst] in *. destruct (Hx h) as (e1 & He1 & Hr1 & Hd1).
    destruct (alloc x h) as [x' h1]. cbn [fst snd] in *. subst h1.
    destruct (IH (h ++ e1)) as (e2 & He2 & Hr2 & Hd2).
    destruct (allocFields alloc rest (h ++ e1)) as [rest' h2]. cbn [fst snd] in *.
    subst h2. exists (e1 ++ e2). rewrite app_assoc. split; [reflexivity|].
    rewrite !length_app in *. split; [|cbn [map snd]; rewrite list_max_cons; lia].
    constructor.
    + split; [reflexivity|]. cbn [snd].
      eapply represents_mono; [exact Hr1| |].
      * unfold allocated. intros l. rewrite ?length_app. lia.
      * apply agree_app. unfold within, allocated. intros l. rewrite ?length_app. lia.
    + eapply Forall2_representsField_mono; [exact Hr2| |apply agree_refl].
      unfold allocated. intros l. rewrite ?length_app. lia.
Qed.

(** What [alloc] builds reads as the value it was built for, whatever
    becomes of the rest of the heap. *)
Lemma alloc_represents v : forall h, exists ext,
  snd (alloc v h) = h ++ ext
  /\ represents (h ++ ext) (allocated (length h) (length h + length ext))
       (fst (alloc v h)) v
  /\ depth v <= length ext.
Proof.
  induction v as [| |b|n|s|items IH|fs IH] using value_ind'; intros h;
    try (exists []; rewrite app_nil_r; cbn; repeat split; [|lia];
         intros h' n' _ _; now destruct n').
  - cbn [alloc]. destruct (allocItems_represents items IH h) as (ext & He & Hr & Hd).
    destruct (allocItems alloc items h) as [items' h1]. cbn [fst snd] in *. subst h1.
    exists (ext ++ [HArr items']). cbn [h_new fst snd]. rewrite app_assoc.
    split; [reflexivity|]. rewrite !length_app. cbn [length depth].
    split; [|lia].
    intros h' [|n] Hag Hn; cbn [depth] in Hn; [lia|]. cbn [reify].
    rewrite Hag by (unfold allocated; lia).
    rewrite lookup_app_r by (rewrite length_app; lia).
    rewrite length_app, Nat.sub_diag.
    change ([HArr items'] !! 0) with (Some (HArr items')). cbv iota beta.
    erewrite mapM_represents; [reflexivity|exact Hr| |lia].
    eapply agree_trans; [|eapply agree_sub; [|exact Hag]].
    + apply agree_app. unfold within, allocated. intros l. rewrite ?length_app. lia.
    + unfold allocated. intros l. lia.
  - cbn [alloc]. destruct (allocFields_represents fs IH h) as (ext & He & Hr & Hd).
    destruct (allocFields alloc fs h) as [fs' h1]. cbn [fst snd] in *. subst h1.
    exists (ext ++ [HObj fs']). cbn [h_new fst snd]. rewrite app_assoc.
    split; [reflexivity|]. rewrite !length_app. cbn [length depth].
    split; [|lia].
    intros h' [|n] Hag Hn; cbn [depth] in Hn; [lia|]. cbn [reify].
    rewrite Hag by (unfold allocated; lia).
    rewrite lookup_app_r by (rewrite length_app; lia).
    rewrite length_app, Nat.sub_diag.
    change ([HObj fs'] !! 0) with (Some (HObj fs')). cbv iota beta.
    erewrite mapM_representsField; [reflexivity|exact Hr| |lia].
    eapply agree_trans; [|eapply agree_sub; [|exact Hag]].
    + apply agree_app. unfold within, allocated. intros l. rewrite ?length_app. lia.
    + unfold allocated. intros l. lia.
Qed.

Lemma alloc_fields_represents fs :
  Forall (fun kv : string * value => forall h, exists ext,
            snd (alloc (snd kv) h) = h ++ ext
            /\ represents (h ++ ext)
                 (allocated (length h) (length h + length ext))
                 (fst (alloc (snd kv) h)) (snd kv)
            /\ depth (snd kv) <= length ext) fs.
Proof. induction fs; constructor; [intros h; apply alloc_represents | assumption]. Qed.

(** An object built by [alloc] is the root of a tree of objects. *)
Lemma alloc_objectIn fs h :
  objectIn (snd (alloc (VObj fs) h))
    (allocated (length h) (length (snd (alloc (VObj fs) h)) - 1))
    (fst (alloc (VObj fs) h)) fs
  /\ exists ext, snd (alloc (VObj fs) h) = h ++ ext.
Proof.
  cbn [alloc].
  destruct (allocFields_represents fs (alloc_fields_represents fs) h)
    as (ext & He & Hr & Hd).
  destruct (allocFields alloc fs h) as [fs' h1]. cbn [fst snd h_new] in *. subst h1.
  split; [|exists (ext ++ [HObj fs']); now rewrite app_assoc].
  rewrite !length_app. cbn [length].
  replace (length h + length ext + 1 - 1) with (length h + length ext) by lia.
  exists (length h + length ext), fs'. split; [reflexivity|].
  split.
  { rewrite lookup_app_r by (rewrite length_app; lia).
    now rewrite length_app, Nat.sub_diag. }
  split; [unfold allocated; lia|].
  split; [unfold within, allocated; intros l; rewrite !length_app; cbn; lia|].
  split; [|cbn [depth]; rewrite !length_app; cbn [length]; lia].
  eapply Forall2_representsField_mono; [exact Hr|auto|].
  apply agree_app. unfold within, allocated. intros l. rewrite length_app. lia.
Qed.

(** *** Objects that are roots of trees *)

Lemma objectIn_snapshot h S r fs :
  objectIn h S r fs -> snapshot h r = Some (VObj fs).
Proof.
  intros (l & fs' & -> & Hl & _ & _ & Hfs & Hd). unfold snapshot.
  destruct (length h) as [|n] eqn:Hlen; [cbn [depth] in Hd; lia|].
  cbn [reify]. rewrite Hl.
  erewrite mapM_representsField; [reflexivity|exact Hfs|apply agree_refl|].
  cbn [depth] in Hd. lia.
Qed.

Lemma objectIn_extend h S r fs ext :
  objectIn h S r fs -> objectIn (h ++ ext) S r fs.
Proof.
  intros (l & fs' & -> & Hl & HS & Hw & Hfs & Hd).
  exists l, fs'. split; [reflexivity|].
  split; [rewrite lookup_app_l by (eapply lookup_lt_Some; eassumption); assumption|].
  split; [assumption|].
  split; [intros k Hk; rewrite length_app; specialize (Hw k Hk); lia|].
  split; [|rewrite length_app; lia].
  eapply Forall2_representsField_mono; [exact Hfs|auto|now apply agree_app].
Qed.

Lemma objectIn_widen h (S T : region) l fs :
  objectIn h S (HRef l) fs ->
  (forall k, S k -> T k) -> ~ T l -> within T h ->
  objectIn h T (HRef l) fs.
Proof.
  intros (l' & fs' & [= <-] & Hl & HS & Hw & Hfs & Hd) Hsub HT HwT.
  exists l, fs'. repeat split; try assumption.
  eapply Forall2_representsField_mono; [exact Hfs|exact Hsub|apply agree_refl].
Qed.

(** [o[k] = c] on the root of a tree, for a [c] read off the tree's own
    part of the heap. *)
Lemma objectIn_set h S l fs k c' c :
  objectIn h S (HRef l) fs ->
  represents h S c' c ->
  depth c < length h ->
  exists h',
    h_set h (HRef l) k c' = Some h'
    /\ length h' = length h
    /\ objectIn h' S (HRef l) (assign k c fs).
Proof.
  intros (l' & fs' & [= <-] & Hl & HS & Hw & Hfs & Hd) Hc Hdc.
  exists (<[l := HObj (assign k c' fs')]> h). cbn [h_set]. rewrite Hl.
  split; [reflexivity|]. split; [apply length_insert|].
  exists l, (assign k c' fs'). split; [reflexivity|].
  split; [apply list_lookup_insert_eq; eapply lookup_lt_Some; eassumption|].
  split; [assumption|].
  split; [intros j Hj; rewrite length_insert; auto|].
  split.
  - eapply Forall2_representsField_mono with (S := S);
      [|auto|now apply agree_insert].
    now apply assign_representsField.
  - rewrite length_insert. pose proof (depth_assign k c fs). lia.
Qed.

Lemma objectIn_get h S l fs k :
  objectIn h S (HRef l) fs ->
  exists x',
    h_get h (HRef l) k = Some x'
    /\ represents h S x' (get (VObj fs) k)
    /\ depth (get (VObj fs) k) < length h.
Proof.
  intros (l' & fs' & [= <-] & Hl & HS & Hw & Hfs & Hd).
  exists (default HUndef (lookup k fs')). cbn [h_get get]. rewrite Hl.
  split; [reflexivity|]. split; [now apply lookup_representsField|].
  pose proof (ReadProps.depth_member fs k). lia.
Qed.

(** *** [and] in the heap and [and] on values *)

Lemma conjunction_related {A B} (R : A -> B -> Prop)
    (isF' isO' : A -> bool) (isF isO : B -> bool) cs' cs :
  Forall2 R cs' cs ->
  (forall a b, R a b -> isF' a = isF b /\ isO' a = isO b) ->
  match conjunction isF' isO' cs', conjunction isF isO cs with
  | AlwaysFalse, AlwaysFalse => True
  | NoCondition, NoCondition => True
  | OneCondition a, OneCondition b => R a b
  | AllOf l', AllOf l => Forall2 R l' l
  | _, _ => False
  end.
Proof.
  intros Hall Hcls. unfold conjunction.
  assert (Hex : existsb isF' cs' = existsb isF cs).
  { induction Hall as [|a b cs' cs Hab _ IH]; [reflexivity|]. cbn [existsb].
    destruct (Hcls a b Hab) as [-> _]. now rewrite IH. }
  rewrite Hex. clear Hex. destruct (existsb isF cs); [exact I|].
  assert (Hfl : Forall2 R (List.filter isO' cs') (List.filter isO cs)).
  { induction Hall as [|a b cs' cs Hab _ IH]; [constructor|]. cbn [List.filter].
    destruct (Hcls a b Hab) as [_ ->]. destruct (isO b); [constructor|]; assumption. }
  destruct Hfl as [|a b l' l Hab Hrest]; [exact I|].
  destruct Hrest as [|a2 b2 l' l Hab2 Hrest]; [exact Hab|].
  repeat constructor; assumption.
Qed.

Lemma list_max_lt_all l n :
  0 < n -> Forall (fun k => k < n) l -> list_max l < n.
Proof.
  intros Hn. induction 1 as [|k l Hk _ IH]; [exact Hn|].
  rewrite list_max_cons. lia.
Qed.

Lemma h_and_represents {Store} (Rg : region) cs' cs (w : World Store) :
  within Rg (w_heap w) ->
  Forall2 (represents (w_heap w) Rg) cs' cs ->
  Forall (fun c => depth c < length (w_heap w)) cs ->
  0 < length (w_heap w) ->
  exists c' ext,
    h_and cs' w = (Returned c', setHeap (w_heap w ++ ext) w)
    /\ represents (w_heap w ++ ext)
         (union Rg (allocated (length (w_heap w)) (length (w_heap w) + length ext)))
         c' (and cs)
    /\ depth (and cs) < length (w_heap w) + length ext.
Proof.
  intros Hw Hall Hdepth Hpos. destruct w as [h s t]. cbn [w_heap] in *.
  pose proof (conjunction_related _ h_isFalse h_isObject isFalse isObject _ _ Hall
                (fun a b Hab => let H := represents_classes _ _ _ _ Hab in
                                conj (proj1 (proj2 (proj2 H)))
                                     (proj2 (proj2 (proj2 (proj2 H)))))) as Hrel.
  pose proof (HeapProps.conjunction_members isFalse isObject _ _ Hdepth) as Hmem.
  unfold h_and, and.
  destruct (conjunction h_isFalse h_isObject cs') as [| |a|l'],
           (conjunction isFalse isObject cs) as [| |b|l]; try contradiction.
  - unfold allocValue. cbn [w_heap].
    destruct (alloc_represents (VObj [("id", VObj [("in", VArr [])])]) h)
      as (ext & He & Hr & Hd).
    destruct (alloc _ h) as [c' h1]. cbn [fst snd] in *. subst h1.
    exists c', ext. split; [reflexivity|]. split.
    + eapply represents_mono; [exact Hr| |apply agree_refl].
      intros l Hl. now right.
    + lia.
  - exists HUndef, []. rewrite app_nil_r. split; [reflexivity|].
    split; [apply represents_undefined | cbn; lia].
  - exists a, []. rewrite app_nil_r. split; [reflexivity|].
    split; [|cbn [length]; lia].
    eapply represents_mono; [exact Hrel| |apply agree_refl].
    intros l Hl. now left.
  - exists (HRef (S (length h))), [HArr l'; HObj [("AND", HRef (length h))]].
    split; [unfold bind, newObject, h_new, setHeap; cbn; rewrite length_app;
            cbn [length]; rewrite Nat.add_1_r, <- app_assoc; reflexivity|].
    split.
    + intros h' [|[|n]] Hag Hn; cbn [depth map snd] in Hn;
        rewrite ?list_max_cons in Hn; cbn [depth] in Hn; try lia.
      assert (Hobj : h' !! S (length h) = Some (HObj [("AND", HRef (length h))])).
      { rewrite Hag by (right; unfold allocated; cbn [length]; lia).
        rewrite lookup_app_r by lia.
        replace (S (length h) - length h) with 1 by lia. reflexivity. }
      assert (Harr : h' !! length h = Some (HArr l')).
      { rewrite Hag by (right; unfold allocated; cbn [length]; lia).
        rewrite lookup_app_r by lia. now rewrite Nat.sub_diag. }
      cbn [reify]. rewrite Hobj. cbn [mapM]. cbn [reify]. rewrite Harr.
      erewrite mapM_represents; [reflexivity|exact Hrel| |].
      * eapply agree_trans; [apply agree_app; exact Hw|].
        eapply agree_sub; [|exact Hag]. intros k Hk. now left.
      * cbn in Hn. lia.
    + cbn [depth map snd length]. rewrite !list_max_cons. cbn [depth list_max fold_right].
      pose proof (list_max_lt_all (map depth l) (length h) Hpos) as Hlt.
      rewrite Forall_map in Hlt. specialize (Hlt Hmem). lia.
Qed.

Lemma objectIn_location h Rg r fs :
  objectIn h Rg r fs -> exists l, r = HRef l /\ l < length h /\ ~ Rg l /\ within Rg h.
Proof.
  intros (l & fs' & -> & Hl & HR & Hw & _). exists l.
  repeat split; try assumption. eapply lookup_lt_Some; eassumption.
Qed.

(** [o[k] = this.and(o[k], guard)] on the root of a tree. *)
Lemma conjoin_objectIn {Store} (Rg : region) o k gh g fs (w : World Store) :
  objectIn (w_heap w) Rg o fs ->
  represents (w_heap w) Rg gh g ->
  depth g < length (w_heap w) ->
  exists (ext h' : heap),
    (x <- getProp o k ;; c <- h_and [x; gh] ;; setProp o k c) w
    = (Returned tt, setHeap h' w)
    /\ length h' = length (w_heap w) + length ext
    /\ objectIn h'
         (union Rg (allocated (length (w_heap w)) (length (w_heap w) + length ext)))
         o (assign k (and [get (VObj fs) k; g]) fs).
Proof.
  intros Hobj Hg Hdg.
  destruct (objectIn_location _ _ _ _ Hobj) as (l & -> & Hl & HR & Hw).
  destruct (objectIn_get _ _ _ _ k Hobj) as (x' & Hget & Hx & Hdx).
  destruct (h_and_represents Rg [x'; gh] [get (VObj fs) k; g] w Hw)
    as (c' & ext & Hand & Hc & Hdc);
    [repeat constructor; assumption | repeat constructor; assumption | lia |].
  set (h := w_heap w) in *.
  set (R' := union Rg (allocated (length h) (length h + length ext))) in *.
  assert (Hobj' : objectIn (h ++ ext) R' (HRef l) fs).
  { apply objectIn_widen with (S := Rg); [now apply objectIn_extend| | |].
    - intros j Hj. now left.
    - intros [H | H]; [contradiction | unfold allocated in H; lia].
    - intros j [Hj | Hj]; rewrite length_app;
        [specialize (Hw j Hj); lia | unfold allocated in Hj; lia]. }
  destruct (objectIn_set _ _ _ _ k c' _ Hobj' Hc) as (h' & Hset & Hlen & Hres);
    [rewrite length_app; lia|].
  exists ext, h'. split; [|split; [rewrite Hlen, length_app; reflexivity | exact Hres]].
  unfold bind, getProp. fold h. rewrite Hget, Hand.
  unfold setProp. cbn [w_heap setHeap]. rewrite Hset. reflexivity.
Qed.

Lemma noRelationAmong_falsy meta model target :
  truthy target = false -> noRelationAmong meta model target.
Proof.
  intros Hf field Hin. destruct target; try discriminate; destruct Hin.
Qed.

Section Engine.
Context {Store : Type}.
Variable this : PolicyUtil Store.
Variable camelCase : string -> string.
Variable TRANSACTION_FIELD_NAME : string.
Variable cuid : string.

Lemma injectAuthGuard_objectAt args model operation G fs (w : World Store) :
  objectAt (w_heap w) args fs ->
  getAuthGuard this camelCase model operation VUndef = Returned G ->
  exists h',
    injectAuthGuard this camelCase args model operation w
    = (Returned tt, setHeap h' w)
    /\ objectAt h' args (assign "where" (and [get (VObj fs) "where"; G]) fs).
Proof.
  intros [Rg Hobj] HG.
  destruct (objectIn_location _ _ _ _ Hobj) as (l & -> & Hl & HR & Hw).
  unfold injectAuthGuard. unfold bind at 1, lift. rewrite HG.
  unfold bind at 1, allocValue.
  destruct (alloc_represents G (w_heap w)) as (ext & He & Hr & Hd).
  destruct (alloc G (w_heap w)) as [gh h1]. cbn [fst snd] in *. subst h1.
  set (h := w_heap w) in *.
  set (R1 := union Rg (allocated (length h) (length h + length ext))).
  assert (Hobj1 : objectIn (w_heap (setHeap (h ++ ext) w)) R1 (HRef l) fs).
  { cbn [w_heap setHeap].
    apply objectIn_widen with (S := Rg); [now apply objectIn_extend| | |].
    - intros j Hj. now left.
    - intros [H | H]; [contradiction | unfold allocated in H; lia].
    - intros j [Hj | Hj]; rewrite length_app;
        [specialize (Hw j Hj); lia | unfold allocated in Hj; lia]. }
  destruct (conjoin_objectIn R1 (HRef l) "where" gh G fs (setHeap (h ++ ext) w) Hobj1)
    as (ext2 & h' & Hrun & _ & Hres).
  - cbn [w_heap setHeap]. eapply represents_mono; [exact Hr| |apply agree_refl].
    intros j Hj. now right.
  - cbn [w_heap setHeap]. rewrite length_app. lia.
  - exists h'. split; [|eexists; exact Hres].
    rewrite Hrun. reflexivity.
Qed.

Lemma clone_objectAt args fs (w : World Store) :
  snapshot (w_heap w) args = Some (VObj fs) ->
  exists r h',
    clone args w = (Returned r, setHeap h' w)
    /\ objectAt h' r fs
    /\ fresh (w_heap w) r.
Proof.
  intros Hsnap.
  assert (Ht : h_truthy args = true).
  { destruct args; try reflexivity; unfold snapshot in Hsnap;
      destruct (length (w_heap w)); cbn in Hsnap; congruence. }
  unfold clone. rewrite Ht. unfold bind, snapshotOf. rewrite Hsnap.
  unfold allocValue.
  destruct (alloc_objectIn fs (w_heap w)) as [Hobj _].
  pose proof (HeapProps.alloc_extends (VObj fs) (w_heap w)) as (ext & _ & Hfr & _).
  destruct (alloc (VObj fs) (w_heap w)) as [r h']. cbn [fst snd] in *.
  exists r, h'. split; [reflexivity|]. split; [eexists; exact Hobj | exact Hfr].
Qed.

Lemma lookup_assign_ne {A} k k' (x : A) fs :
  String.eqb k k' = false -> lookup k (assign k' x fs) = lookup k fs.
Proof.
  intros Hne. induction fs as [|[k0 y] fs IH]; cbn [assign lookup].
  - now rewrite Hne.
  - destruct (String.eqb k' k0) eqn:E; cbn [lookup].
    + apply String.eqb_eq in E. subst k0. now rewrite Hne.
    + now rewrite IH.
Qed.

Lemma forEach_nothing_in {A} (xs : list A) (body : A -> M Store unit) w :
  (forall x, In x xs -> body x w = (Returned tt, w)) ->
  forEach xs body w = (Returned tt, w).
Proof.
  induction xs as [|x xs IH]; intros Hb; cbn [forEach]; [reflexivity|].
  unfold bind. rewrite Hb by now left. apply IH. intros y Hy. apply Hb. now right.
Qed.

(** Where no key of the [select] or [include] names a relation there is
    nothing to inject. *)
Lemma injectNestedReadConditions_nothing fuel model args fs (w : World Store) :
  objectAt (w_heap w) args fs ->
  noRelationAmong (modelMeta this) model
    (coalesce (get (VObj fs) "select") (get (VObj fs) "include")) ->
  injectNestedReadConditions this camelCase (S fuel) model args w = (Returned tt, w).
Proof.
  intros [Rg Hobj] Hnone.
  destruct (objectIn_location _ _ _ _ Hobj) as (l & -> & _).
  destruct (objectIn_get _ _ _ _ "select" Hobj) as (sel & Hsel & Hrs & _).
  destruct (objectIn_get _ _ _ _ "include" Hobj) as (inc & Hinc & Hri & _).
  destruct (represents_classes _ _ _ _ Hrs) as (_ & Hns & _).
  cbn [injectNestedReadConditions]. unfold bind at 1. unfold getProp at 1.
  rewrite Hsel. cbv beta iota.
  unfold coalesce in Hnone. rewrite Hns. unfold bind at 1.
  assert (Hloop : forall target' target,
            represents (w_heap w) Rg target' target ->
            noRelationAmong (modelMeta this) model target ->
            (if negb (h_truthy target') then ret tt
             else
               fields <- objectKeys target' ;;
               forEach fields (fun field =>
                 match resolveField (modelMeta this) model field with
                 | None => ret tt
                 | Some fieldInfo =>
                     if negb (isDataModel fieldInfo) then ret tt
                     else
                       (if isArray fieldInfo then
                          current <- getProp target' field ;;
                          (if negb (h_typeofObject current) then
                             o <- newObject (HObj []) ;;
                             setProp target' field o
                           else ret tt) ;;
                          guard <- lift (getAuthGuard this camelCase (type fieldInfo)
                                           read VUndef) ;;
                          guard <- allocValue guard ;;
                          target <- getProp target' field ;;
                          where_ <- getProp target' "where" ;;
                          c <- h_and [where_; guard] ;;
                          setProp target "where" c
                        else
                          sub <- getProp target' field ;;
                          sel <- getPropOpt sub "select" ;;
                          if h_truthy sel then
                            id <- getProp sel "id" ;;
                            if negb (h_isTrue id) then setProp sel "id" (HBool true)
                            else ret tt
                          else ret tt) ;;
                       sub <- getProp target' field ;;
                       injectNestedReadConditions this camelCase fuel
                         (type fieldInfo) sub
                 end)) w
            = (Returned tt, w)).
  { intros target' target Hrep Hno.
    destruct (h_truthy target'); cbn [negb]; [|reflexivity].
    unfold bind at 1, objectKeys. rewrite (represents_keys _ _ _ _ Hrep).
    apply forEach_nothing_in. intros field Hin. specialize (Hno field Hin).
    destruct (resolveField (modelMeta this) model field) as [fi|]; [|reflexivity].
    now rewrite Hno. }
  destruct (nullish (get (VObj fs) "select")).
  - unfold getProp at 1. rewrite Hinc. cbv beta iota.
    now apply Hloop with (target := get (VObj fs) "include").
  - unfold ret at 1. cbv beta iota.
    now apply Hloop with (target := get (VObj fs) "select").
Qed.

Lemma postProcessForRead_nothing entityData model args operation (w : World Store) :
  nullish args = false ->
  noRelationAmong (modelMeta this) model
    (coalesce (get args "select") (get args "include")) ->
  postProcessForRead this camelCase entityData model args operation w
  = (Returned tt, w).
Proof.
  intros Hn Hnone. unfold postProcessForRead. cbn [postProcessForRead_from].
  destruct (negb (truthy (get entityData "id"))); [reflexivity|].
  rewrite Hn. destruct (negb (truthy _)); [reflexivity|].
  apply forEach_nothing_in. intros field Hin.
  assert (Hkey : In field (keys (coalesce (get args "select") (get args "include")))).
  { unfold getModelFields in Hin. destruct (truthy _); [exact Hin | destruct Hin]. }
  specialize (Hnone field Hkey).
  destruct (resolveField (modelMeta this) model field) as [fi|]; [|reflexivity].
  now rewrite Hnone.
Qed.

Lemma readWithCheck_plain_run model args G fs (w : World Store) :
  snapshot (w_heap w) args = Some (VObj fs) ->
  noRelationAmong (modelMeta this) model
    (coalesce (get (VObj fs) "select") (get (VObj fs) "include")) ->
  getAuthGuard this camelCase model read VUndef = Returned G ->
  let query := VObj (assign "where" (and [get (VObj fs) "where"; G]) fs) in
  exists h2,
    readWithCheck this camelCase model args w
    = (Returned (findMany (db this) model query (w_store w)),
       {| w_heap := h2; w_store := w_store w;
          w_trace := w_trace w ++ [CallFindMany ThisDb model query] |}).
Proof.
  intros Hsnap Hnone HG query.
  unfold readWithCheck.
  destruct (clone_objectAt args fs w Hsnap) as (a & h1 & Hclone & Hobj1 & _).
  destruct w as [h s t]. unfold setHeap in *. cbn [w_heap w_store w_trace] in *.
  unfold bind at 1. rewrite Hclone. cbv beta iota.
  destruct (injectAuthGuard_objectAt a model read G fs
              {| w_heap := h1; w_store := s; w_trace := t |} Hobj1 HG)
    as (h2 & Hinj & Hobj2).
  unfold setHeap in *. cbn [w_heap w_store w_trace] in *.
  unfold bind at 1. rewrite Hinj. cbv beta iota.
  unfold bind at 1, heapSize. cbv beta iota. cbn [w_heap].
  assert (Hnone2 : noRelationAmong (modelMeta this) model
                     (coalesce (get query "select") (get query "include"))).
  { subst query. cbn [get]. rewrite !lookup_assign_ne by reflexivity.
    exact Hnone. }
  destruct Hobj2 as [Rg Hobj2].
  destruct (objectIn_location _ _ _ _ Hobj2) as (l & -> & Hl & _).
  destruct (length h2) as [|n] eqn:Hlen; [lia|].
  unfold bind at 1.
  rewrite (injectNestedReadConditions_nothing n model (HRef l) _
             {| w_heap := h2; w_store := s; w_trace := t |}
             (ex_intro _ Rg Hobj2) Hnone2). cbv beta iota.
  unfold bind at 1, snapshotOf. cbn [w_heap].
  rewrite (objectIn_snapshot _ _ _ _ Hobj2). cbv beta iota. fold query.
  rewrite HeapProps.bind_dbFindMany. cbn [w_store].
  unfold bind at 1.
  rewrite ReadProps.forEach_nothing.
  - exists h2. reflexivity.
  - intros item. apply postProcessForRead_nothing; [reflexivity | exact Hnone2].
Qed.

End Engine.



Section EngineTheorems.
Context {Store : Type}.
Variable this : PolicyUtil Store.
Variable camelCase : string -> string.
Variable TRANSACTION_FIELD_NAME : string.
Variable cuid : string.


(** X8. On an argument object that is the root of a tree of objects and
    reads as [VObj fs], [injectAuthGuard] returns and leaves the object
    reading as [fs] with [where] set to [and(where, guard)], every other
    property as it was; the database and the list of calls are untouched.
    (A [where] that was absent is added, as [undefined] if the guard is the
    constant true.) *)
Theorem injectAuthGuard_conjoins args model operation G fs (w : World Store) :
  objectAt (w_heap w) args fs ->
  getAuthGuard this camelCase model operation VUndef = Returned G ->
  exists h',
    injectAuthGuard this camelCase args model operation w
    = (Returned tt, setHeap h' w)
    /\ objectAt h' args (assign "where" (and [get (VObj fs) "where"; G]) fs)
    /\ snapshot h' args
       = Some (VObj (assign "where" (and [get (VObj fs) "where"; G]) fs)).
Proof.
  intros Hobj HG.
  destruct (injectAuthGuard_objectAt this camelCase _ _ _ _ _ _ Hobj HG)
    as (h' & Hrun & Hres).
  exists h'. split; [assumption|]. split; [assumption|].
  destruct Hres as [Rg Hres]. eapply objectIn_snapshot; eassumption.
Qed.

(** X9. A read that selects or includes no relation field, in particular
    one with neither [select] nor [include]: the engine sends one query,
    the caller's arguments with [where] replaced by [and(where, guard)],
    and returns the rows of that query as they are; no row is counted or
    checked afterwards, and the database is as it was. *)
Theorem readWithCheck_plain model args G fs (w : World Store) :
  snapshot (w_heap w) args = Some (VObj fs) ->
  noRelationAmong (modelMeta this) model
    (coalesce (get (VObj fs) "select") (get (VObj fs) "include")) ->
  getAuthGuard this camelCase model read VUndef = Returned G ->
  let query := VObj (assign "where" (and [get (VObj fs) "where"; G]) fs) in
  let r := readWithCheck this camelCase model args w in
  fst r = Returned (findMany (db this) model query (w_store w))
  /\ w_trace (snd r) = w_trace w ++ [CallFindMany ThisDb model query]
  /\ w_store (snd r) = w_store w.
Proof.
  intros Hsnap Hnone HG query r.
  destruct (readWithCheck_plain_run this camelCase model args G fs w Hsnap Hnone HG)
    as (h2 & Hrun).
  subst r. rewrite Hrun. repeat split; reflexivity.
Qed.

(** X10. [processCreate] by the guard of the model: with the constant
    [true] it changes nothing; with a guard that is not a constant, on an
    argument object that is the root of a tree and reads as [VObj fs], it
    sets the transaction marker to this call's tag on that object, leaving
    every other property as it was, and notes the model among the created
    ones. *)
Theorem processCreate_marks model args ledger G fs (w : World Store) :
  getAuthGuard this camelCase model create VUndef = Returned G ->
  (G = VBool true ->
   processCreate this camelCase TRANSACTION_FIELD_NAME cuid model args ledger w
   = (Returned ledger, w))
  /\ (isFalse G = false -> isTrue G = false -> objectAt (w_heap w) args fs ->
      exists h',
        processCreate this camelCase TRANSACTION_FIELD_NAME cuid model args ledger w
        = (Returned {| createdModels := setAdd model (createdModels ledger);
                       updatedModels := updatedModels ledger |},
           setHeap h' w)
        /\ snapshot h' args
           = Some (VObj (assign TRANSACTION_FIELD_NAME
                           (VStr (String.append cuid ":create")) fs))).
Proof.
  intros HG. split.
  - intros ->. unfold processCreate, bind, lift. rewrite HG. reflexivity.
  - intros Hf Ht [Rg Hobj]. unfold processCreate, bind at 1, lift.
    rewrite HG, Hf, Ht. cbn [negb].
    destruct (objectIn_location _ _ _ _ Hobj) as (l & -> & Hl & _).
    destruct (objectIn_set _ _ _ _ TRANSACTION_FIELD_NAME
                (HStr (transactionTag cuid)) (VStr (transactionTag cuid)) Hobj)
      as (h' & Hset & _ & Hres).
    + intros h2 n _ _. now destruct n.
    + cbn [depth]. lia.
    + exists h'. unfold bind, setProp. rewrite Hset. split; [reflexivity|].
      eapply objectIn_snapshot; eassumption.
Qed.

(** X11. [deleteMany] with a guard that is not a constant, for arguments
    that are the [deleteMany] property of the parent and not an array: on a
    parent object that is the root of a tree and reads as [VObj fs], the
    callback replaces the parent's [deleteMany] by [and(deleteMany, guard)]
    and leaves every other property of the parent as it was. *)
Theorem processDeleteMany_conjoins model args context G fs (w : World Store) :
  getAuthGuard this camelCase model delete VUndef = Returned G ->
  isFalse G = false -> isTrue G = false ->
  objectAt (w_heap w) (parent context) fs ->
  h_get (w_heap w) (parent context) "deleteMany" = Some args ->
  match get (VObj fs) "deleteMany" with VArr _ => False | _ => True end ->
  exists h',
    processDeleteMany this camelCase model args context w
    = (Returned tt, setHeap h' w)
    /\ snapshot h' (parent context)
       = Some (VObj (assign "deleteMany"
                       (and [get (VObj fs) "deleteMany"; G]) fs)).
Proof.
  intros HG Hf Ht [Rg Hobj] Hargs Hnarr.
  destruct (objectIn_location _ _ _ _ Hobj) as (l & Hp & Hl & HR & Hw).
  unfold processDeleteMany, bind at 1, lift. rewrite HG, Hf, Ht. cbn [negb].
  unfold bind at 1, allocValue.
  destruct (alloc_represents G (w_heap w)) as (ext & He & Hr & Hd).
  destruct (alloc G (w_heap w)) as [gh h1]. cbn [fst snd] in *. subst h1.
  set (h := w_heap w) in *.
  set (R1 := union Rg (allocated (length h) (length h + length ext))).
  rewrite Hp in *.
  assert (Hobj1 : objectIn (w_heap (setHeap (h ++ ext) w)) R1 (HRef l) fs).
  { cbn [w_heap setHeap].
    apply objectIn_widen with (S := Rg); [now apply objectIn_extend| | |].
    - intros j Hj. now left.
    - intros [H | H]; [contradiction | unfold allocated in H; lia].
    - intros j [Hj | Hj]; rewrite length_app;
        [specialize (Hw j Hj); lia | unfold allocated in Hj; lia]. }
  destruct (objectIn_get _ _ _ _ "deleteMany" Hobj1) as (x' & Hget & Hx & _).
  assert (x' = args) as ->.
  { cbn [w_heap setHeap h_get] in Hget. cbn [h_get] in Hargs.
    rewrite lookup_app_l in Hget by assumption. congruence. }
  assert (Harr : h_isArray (h ++ ext) args = false).
  { pose proof (represents_reads _ _ _ _ _ Hx (Nat.le_refl _)) as Hread.
    cbn [w_heap setHeap] in Hread.
    destruct args as [| | | | |l2]; try reflexivity. cbn [h_isArray].
    destruct (depth (get (VObj fs) "deleteMany")); [discriminate|].
    cbn [reify] in Hread.
    destruct ((h ++ ext) !! l2) as [[|items]|]; try reflexivity.
    destruct (mapM _ items); cbn in Hread; [|discriminate].
    injection Hread as Hread.
    change (get (VObj fs) "deleteMany")
      with (default VUndef (lookup "deleteMany" fs)) in Hnarr.
    now rewrite <- Hread in Hnarr. }
  unfold bind at 1, isArray_. cbn [w_heap setHeap]. rewrite Harr.
  destruct (conjoin_objectIn R1 (HRef l) "deleteMany" gh G fs (setHeap (h ++ ext) w) Hobj1)
    as (ext2 & h' & Hrun & _ & Hres).
  - cbn [w_heap setHeap]. eapply represents_mono; [exact Hr| |apply agree_refl].
    intros j Hj. now right.
  - cbn [w_heap setHeap]. rewrite length_app. lia.
  - exists h'. split; [|eapply objectIn_snapshot; exact Hres].
    revert Hrun. unfold bind at 1, getProp. rewrite Hget. cbn [setHeap w_heap w_store w_trace].
    intros ->. reflexivity.
Qed.

End EngineTheorems.

(** The argument object a sample run starts with is the root of a tree. *)
Lemma start_objectAt fs :
  objectAt (w_heap (snd (Blog.start (VObj fs)))) (fst (Blog.start (VObj fs))) fs.
Proof.
  unfold Blog.start. destruct (alloc_objectIn fs []) as [H _].
  destruct (alloc (VObj fs) []) as [r h]. cbn [fst snd w_heap] in *.
  eexists. exact H.
Qed.


Lemma injectAuthGuard_conjoins_witness :
  let fs := [("where", VObj [("title", VStr "hello")]); ("take", VNum 2)] in
  exists h',
    injectAuthGuard Blog.this Blog.camelCase (fst (Blog.start (VObj fs))) "Post" read
      (snd (Blog.start (VObj fs)))
    = (Returned tt, setHeap h' (snd (Blog.start (VObj fs))))
    /\ snapshot h' (fst (Blog.start (VObj fs)))
       = Some (VObj [("where",
                      VObj [("AND", VArr [VObj [("title", VStr "hello")];
                                          VObj [("published", VBool true)]])]);
                     ("take", VNum 2)]).
Proof.
  intros fs.
  destruct (injectAuthGuard_conjoins Blog.this Blog.camelCase
              (fst (Blog.start (VObj fs))) "Post" read
              (VObj [("published", VBool true)]) fs (snd (Blog.start (VObj fs)))
              (start_objectAt fs) eq_refl) as (h' & Hrun & _ & Hsnap).
  exists h'. split; [exact Hrun | exact Hsnap].
Defined.

Lemma readWithCheck_plain_witness :
  let fs := [("where", VObj [("title", VStr "hello")]);
             ("select", VObj [("id", VBool true); ("title", VBool true)])] in
  fst (readWithCheck Blog.this Blog.camelCase "Post" (fst (Blog.start (VObj fs)))
         (snd (Blog.start (VObj fs))))
  = Returned [VObj [("id", VStr "p1"); ("title", VStr "hello")];
              VObj [("id", VStr "p2"); ("title", VStr "hello")]]
  /\ w_trace (snd (readWithCheck Blog.this Blog.camelCase "Post"
                     (fst (Blog.start (VObj fs))) (snd (Blog.start (VObj fs)))))
     = [CallFindMany ThisDb "Post"
          (VObj [("where",
                  VObj [("AND", VArr [VObj [("title", VStr "hello")];
                                      VObj [("published", VBool true)]])]);
                 ("select", VObj [("id", VBool true); ("title", VBool true)])])].
Proof.
  intros fs.
  assert (Hno : noRelationAmong (modelMeta Blog.this) "Post"
                  (coalesce (get (VObj fs) "select") (get (VObj fs) "include"))).
  { intros field Hin. cbn in Hin. destruct Hin as [<- | [<- | []]]; reflexivity. }
  destruct (readWithCheck_plain Blog.this Blog.camelCase "Post"
              (fst (Blog.start (VObj fs))) (VObj [("published", VBool true)]) fs
              (snd (Blog.start (VObj fs))) eq_refl Hno eq_refl)
    as (Hres & Htrace & _).
  split; [rewrite Hres | rewrite Htrace]; reflexivity.
Defined.

Lemma processCreate_marks_witness :
  let fs := [("id", VStr "p9"); ("title", VStr "new")] in
  exists h',
    processCreate Blog.this Blog.camelCase Blog.TRANSACTION_FIELD_NAME Blog.cuid
      "Post" (fst (Blog.start (VObj fs)))
      {| createdModels := []; updatedModels := [] |} (snd (Blog.start (VObj fs)))
    = (Returned {| createdModels := ["Post"]; updatedModels := [] |},
       setHeap h' (snd (Blog.start (VObj fs))))
    /\ snapshot h' (fst (Blog.start (VObj fs)))
       = Some (VObj [("id", VStr "p9"); ("title", VStr "new");
                     ("zenstack_transaction", VStr "clg3x0a2k0000:create")]).
Proof.
  intros fs.
  exact (proj2 (processCreate_marks Blog.this Blog.camelCase
                  Blog.TRANSACTION_FIELD_NAME Blog.cuid "Post"
                  (fst (Blog.start (VObj fs)))
                  {| createdModels := []; updatedModels := [] |}
                  (VObj [("authorId", VStr "u1")]) fs (snd (Blog.start (VObj fs)))
                  eq_refl)
           eq_refl eq_refl (start_objectAt fs)).
Defined.

Lemma processDeleteMany_conjoins_witness :
  let this :=
    {| db := ReferenceStore.referenceDb Blog.meta;
       modelMeta := Blog.meta;
       policy :=
         {| guard := fun _ => Some (fun _ =>
              Some (PolicyFunc (fun _ => VObj [("published", VBool false)]))) |};
       user := VUndef |} in
  let fs := [("deleteMany", VObj [("title", VStr "draft")])] in
  let parent := fst (Blog.start (VObj fs)) in
  let w := snd (Blog.start (VObj fs)) in
  exists h',
    processDeleteMany this Blog.camelCase "Post" (HRef 0)
      {| parent := parent; field := None; nestingPath := [] |} w
    = (Returned tt, setHeap h' w)
    /\ snapshot h' parent
       = Some (VObj [("deleteMany",
                      VObj [("AND", VArr [VObj [("title", VStr "draft")];
                                          VObj [("published", VBool false)]])])]).
Proof.
  intros this fs parent w.
  exact (processDeleteMany_conjoins this Blog.camelCase "Post" (HRef 0)
           {| parent := parent; field := None; nestingPath := [] |}
           (VObj [("published", VBool false)]) fs w
           eq_refl eq_refl eq_refl (start_objectAt fs) eq_refl I).
Defined.

End ReadingProps.

(** * Writes: the preparation, the ledger and the transaction *)

Module ObligationProps.
Import Js Runtime Vocabulary Ledgers.
Local Open Scope monad_scope.

Section Calls.
Context {Store : Type}.
Variable this : PolicyUtil Store.
Variable camelCase : string -> string.
Variable TRANSACTION_FIELD_NAME : string.
Variable cuid : string.
Variable visit : string -> string -> hval -> heap -> Traversal.
Variable p : DbCall -> bool.

Local Abbreviation onlyCalls := (Ledgers.onlyCalls (Store:=Store) p).

(** A computation that makes no call at all. *)
Lemma oc_silent {A} (m : M Store A) :
  (forall w, w_trace (snd (m w)) = w_trace w) -> onlyCalls m.
Proof. intros H w. exists []. now rewrite app_nil_r. Qed.

Lemma oc_ret {A} (a : A) : onlyCalls (ret a).
Proof. now apply oc_silent. Qed.

Lemma oc_throw {A} e : onlyCalls (@throw Store A e).
Proof. now apply oc_silent. Qed.

Lemma oc_lift {A} (o : Outcome A) : onlyCalls (lift o).
Proof. now apply oc_silent. Qed.

Lemma oc_bind {A B} (m : M Store A) (k : A -> M Store B) :
  onlyCalls m -> (forall a, onlyCalls (k a)) -> onlyCalls (bind m k).
Proof.
  intros Hm Hk w. unfold bind. destruct (Hm w) as (c1 & Ht1 & Hp1).
  destruct (m w) as [[a|e] w1]; cbn [snd] in *; [|eauto].
  destruct (Hk a w1) as (c2 & Ht2 & Hp2). exists (c1 ++ c2).
  rewrite Ht2, Ht1, app_assoc, forallb_app, Hp1, Hp2. auto.
Qed.

Lemma oc_getProp o k : onlyCalls (getProp o k).
Proof. apply oc_silent. intros w. unfold getProp. now destruct (h_get _ _ _). Qed.

Lemma oc_getPropOpt o k : onlyCalls (getPropOpt o k).
Proof. unfold getPropOpt. destruct (h_nullish o); [apply oc_ret | apply oc_getProp]. Qed.

Lemma oc_setProp o k x : onlyCalls (setProp o k x).
Proof. apply oc_silent. intros w. unfold setProp. now destruct (h_set _ _ _ _). Qed.

Lemma oc_newObject o : onlyCalls (newObject o).
Proof. now apply oc_silent. Qed.

Lemma oc_allocValue v : onlyCalls (allocValue v).
Proof.
  apply oc_silent. intros w. unfold allocValue. now destruct (alloc v (w_heap w)).
Qed.

Lemma oc_isArray v : onlyCalls (isArray_ v).
Proof. now apply oc_silent. Qed.

Lemma oc_snapshotOf v : onlyCalls (snapshotOf v).
Proof. apply oc_silent. intros w. unfold snapshotOf. now destruct (snapshot _ _). Qed.

Lemma oc_enumerate x : onlyCalls (enumerate x).
Proof.
  apply oc_silent. intros w. unfold enumerate. destruct x; try reflexivity.
  destruct (w_heap w !! l) as [[|]|]; reflexivity.
Qed.

Lemma oc_dbCount via model args :
  p (CallCount via model args) = true -> onlyCalls (dbCount this via model args).
Proof. intros Hp w. eexists. split; [reflexivity|]. cbn. now rewrite Hp. Qed.

Lemma oc_dbFindMany via model args :
  p (CallFindMany via model args) = true ->
  onlyCalls (dbFindMany this via model args).
Proof. intros Hp w. eexists. split; [reflexivity|]. cbn. now rewrite Hp. Qed.

Lemma oc_forEach {A} (xs : list A) body :
  (forall x, onlyCalls (body x)) -> onlyCalls (forEach xs body).
Proof.
  intros Hb. induction xs as [|x xs IH]; cbn [forEach];
    [apply oc_ret | apply oc_bind; auto].
Qed.

Lemma oc_forEachWith {A} (xs : list A) body : forall ledger,
  (forall x l, onlyCalls (body x l)) -> onlyCalls (forEachWith xs ledger body).
Proof.
  induction xs as [|x xs IH]; intros ledger Hb; cbn [forEachWith];
    [apply oc_ret | apply oc_bind; auto].
Qed.

Lemma oc_mapEach {A B} (xs : list A) (f : A -> M Store B) :
  (forall x, onlyCalls (f x)) -> onlyCalls (mapEach xs f).
Proof.
  intros Hf. induction xs as [|x xs IH]; cbn [mapEach]; [apply oc_ret|].
  apply oc_bind; [auto|]. intros y. apply oc_bind; [auto|]. intros ys. apply oc_ret.
Qed.

Lemma oc_h_and conditions : onlyCalls (@h_and Store conditions).
Proof.
  unfold h_and. destruct (conjunction _ _ _).
  - apply oc_allocValue.
  - apply oc_ret.
  - apply oc_ret.
  - apply oc_bind; [apply oc_newObject | intros; apply oc_newObject].
Qed.

Lemma oc_checkPolicyForFilter model filter operation via :
  (forall args, p (CallCount via model args) = true) ->
  onlyCalls (checkPolicyForFilter this camelCase model filter operation via).
Proof.
  intros Hp. unfold checkPolicyForFilter.
  apply oc_bind; [now apply oc_dbCount|]. intros c.
  apply oc_bind; [apply oc_lift|]. intros g.
  apply oc_bind; [now apply oc_dbCount|]. intros gc.
  destruct (gc <? c)%nat; [apply oc_throw | apply oc_ret].
Qed.

Lemma oc_checkPostUpdate model id via preValue :
  (forall args, p (CallCount via model args) = true) ->
  onlyCalls (checkPostUpdate this camelCase model id via preValue).
Proof.
  intros Hp. unfold checkPostUpdate.
  apply oc_bind; [apply oc_lift|]. intros g.
  apply oc_bind; [now apply oc_dbCount|]. intros gc.
  destruct (gc =? 0)%nat; [apply oc_throw | apply oc_ret].
Qed.

End Calls.

Section Preparation.
Context {Store : Type}.
Variable this : PolicyUtil Store.
Variable camelCase : string -> string.
Variable TRANSACTION_FIELD_NAME : string.
Variable cuid : string.
Variable visit : string -> string -> hval -> heap -> Traversal.

Local Abbreviation asks := (Ledgers.onlyCalls (Store:=Store) isQuery).

Create HintDb asks.
#[local] Hint Resolve oc_ret oc_throw oc_lift oc_getProp oc_getPropOpt oc_setProp
  oc_newObject oc_allocValue oc_isArray oc_snapshotOf oc_enumerate oc_h_and : asks.

(** Walks a computation down its binds and conditionals. *)
Ltac asks :=
  repeat first
    [ progress auto with asks
    | apply oc_bind; [|intros]
    | apply oc_forEach; intros
    | apply oc_forEachWith; intros
    | apply oc_mapEach; intros
    | apply oc_dbCount; reflexivity
    | apply oc_dbFindMany; reflexivity
    | apply oc_checkPolicyForFilter; reflexivity
    | match goal with
      | |- Ledgers.onlyCalls _ (if ?b then _ else _) => destruct b
      | |- Ledgers.onlyCalls _ (match ?x with _ => _ end) => destruct x
      end ].

Lemma asks_injectAuthGuard args model operation :
  asks (injectAuthGuard this camelCase args model operation).
Proof. unfold injectAuthGuard. asks. Qed.

#[local] Hint Resolve asks_injectAuthGuard : asks.

Lemma asks_processCreate model args ledger :
  asks (processCreate this camelCase TRANSACTION_FIELD_NAME cuid model args ledger).
Proof. unfold processCreate. asks. Qed.

Lemma asks_fetchAndRecordPreValues model context ledger :
  asks (fetchAndRecordPreValues this camelCase model context ledger).
Proof. unfold fetchAndRecordPreValues. asks. Qed.

#[local] Hint Resolve asks_processCreate asks_fetchAndRecordPreValues : asks.

Lemma asks_processUpdate model args context ledger :
  asks (processUpdate this camelCase model args context ledger).
Proof. unfold processUpdate. asks. Qed.

Lemma asks_processUpdateMany model args context ledger :
  asks (processUpdateMany this camelCase model args context ledger).
Proof. unfold processUpdateMany. asks. Qed.

Lemma asks_processDelete model args context :
  asks (processDelete this camelCase model args context).
Proof. unfold processDelete. asks. Qed.

Lemma asks_processDeleteMany model args context :
  asks (processDeleteMany this camelCase model args context).
Proof. unfold processDeleteMany. asks. Qed.

#[local] Hint Resolve asks_processUpdate asks_processUpdateMany asks_processDelete
  asks_processDeleteMany : asks.

Lemma asks_callback e ledger :
  asks (callback this camelCase TRANSACTION_FIELD_NAME cuid e ledger).
Proof. unfold callback. asks. Qed.

Lemma asks_runVisitor t : forall ledger,
  asks (runVisitor this camelCase TRANSACTION_FIELD_NAME cuid t ledger).
Proof.
  induction t as [|e next IH]; intros ledger w; cbn [runVisitor].
  - exists []. now rewrite app_nil_r.
  - destruct (asks_callback e ledger w) as (c1 & Ht1 & Hp1).
    destruct (callback _ _ _ _ e ledger w) as [[ledger'|err] w1]; cbn [snd] in *;
      [|eauto].
    destruct (IH (w_heap w1) ledger' w1) as (c2 & Ht2 & Hp2). exists (c1 ++ c2).
    rewrite Ht2, Ht1, app_assoc, forallb_app, Hp1, Hp2. auto.
Qed.

Lemma asks_prepareWrite model action args :
  asks (prepareWrite this camelCase TRANSACTION_FIELD_NAME cuid visit
          model action args).
Proof.
  unfold prepareWrite. apply oc_bind; [asks|]. intros select.
  apply oc_bind; [asks|]. intros _ w. apply asks_runVisitor.
Qed.

(** X12. Before the write is conducted the engine only asks: every call
    [processWrite] makes to the database while the visitor processes the
    arguments is a [count] or a [findMany] through the client itself, no
    write and no transaction; and the database is left as it was. *)
Theorem prepareWrite_only_asks model action args (w : World Store) :
  let r := prepareWrite this camelCase TRANSACTION_FIELD_NAME cuid visit
             model action args w in
  (exists calls,
     w_trace (snd r) = w_trace w ++ calls
     /\ Forall (fun c =>
          exists m a, c = CallCount ThisDb m a \/ c = CallFindMany ThisDb m a)
          calls)
  /\ w_store (snd r) = w_store w.
Proof.
  intros r. split.
  - destruct (asks_prepareWrite model action args w) as (calls & Ht & Hp).
    exists calls. split; [exact Ht|]. apply List.Forall_forall. intros c Hin.
    rewrite forallb_forall in Hp. specialize (Hp c Hin).
    destruct c as [[|] m a|[|] m a| |]; try discriminate; eauto.
  - apply (RuntimeProps.ks_prepareWrite this camelCase TRANSACTION_FIELD_NAME cuid
             visit model action args w).
Qed.

End Preparation.

(** ** What the ledger holds *)

Lemma setAdd_NoDup x s : NoDup s -> NoDup (setAdd x s).
Proof.
  intros Hs. unfold setAdd. destruct (existsb (String.eqb x) s) eqn:E; [exact Hs|].
  apply NoDup_app. split; [exact Hs|]. split; [|apply NoDup_singleton].
  intros y Hy Hin. apply list_elem_of_singleton in Hin. subst y.
  assert (existsb (String.eqb x) s = true); [|congruence].
  apply existsb_exists. exists x. split; [|apply String.eqb_refl].
  now apply list_elem_of_In.
Qed.

Lemma setAdd_Forall (P : string -> Prop) x s :
  Forall P s -> P x -> Forall P (setAdd x s).
Proof.
  intros Hs Hx. unfold setAdd. destruct (existsb _ s); [exact Hs|].
  apply Forall_app. split; [exact Hs | now constructor].
Qed.

Lemma assign_keys {A} k (x : A) fs :
  map fst (assign k x fs)
  = match lookup k fs with
    | Some _ => map fst fs
    | None => map fst fs ++ [k]
    end.
Proof.
  induction fs as [|[k' y] fs IH]; cbn [assign lookup map fst app]; [reflexivity|].
  destruct (String.eqb k k') eqn:E.
  - apply String.eqb_eq in E. now subst k'.
  - cbn [map fst]. rewrite IH. now destruct (lookup k fs).
Qed.

Lemma lookup_None_keys {A} k (fs : list (string * A)) :
  lookup k fs = None -> ~ In k (map fst fs).
Proof.
  induction fs as [|[k' y] fs IH]; cbn [lookup map fst In]; [tauto|].
  destruct (String.eqb k k') eqn:E; [discriminate|]. intros H [-> | Hin].
  - now rewrite String.eqb_refl in E.
  - now apply IH.
Qed.

Lemma assign_NoDup {A} k (x : A) fs :
  NoDup (map fst fs) -> NoDup (map fst (assign k x fs)).
Proof.
  intros Hfs. rewrite assign_keys. destruct (lookup k fs) eqn:E; [exact Hfs|].
  apply NoDup_app. split; [exact Hfs|]. split; [|apply NoDup_singleton].
  intros y Hy Hin. apply list_elem_of_singleton in Hin. subst y.
  apply list_elem_of_In in Hy. now apply (lookup_None_keys _ _ E).
Qed.

Lemma assign_Forall_entry {A} (Q : string * A -> Prop) k x fs :
  Forall Q fs -> Q (k, x) -> Forall Q (assign k x fs).
Proof.
  intros Hfs Hx. induction Hfs as [|[k' y] fs Hy Hrest IH]; cbn [assign].
  - now constructor.
  - destruct (String.eqb k k'); constructor; assumption.
Qed.

Lemma lookup_Forall_entry {A} (Q : string * A -> Prop) k x fs :
  Forall Q fs -> lookup k fs = Some x -> Q (k, x).
Proof.
  induction 1 as [|[k' y] fs Hy _ IH]; cbn [lookup]; [discriminate|].
  destruct (String.eqb k k') eqn:E; [|exact IH].
  apply String.eqb_eq in E. subst k'. now intros [= <-].
Qed.

Lemma mapSet_keyed entity m :
  Forall (fun ie : value * value => fst ie = get (snd ie) "id") m ->
  Forall (fun ie : value * value => fst ie = get (snd ie) "id")
    (mapSet (get entity "id") entity m).
Proof.
  induction 1 as [|[k y] m Hy Hrest IH]; cbn [mapSet].
  - now constructor.
  - destruct (strictEq (get entity "id") k); constructor; auto.
Qed.

Lemma fold_mapSet_keyed entities : forall m,
  Forall (fun ie : value * value => fst ie = get (snd ie) "id") m ->
  Forall (fun ie : value * value => fst ie = get (snd ie) "id")
    (fold_left (fun m entity => mapSet (get entity "id") entity m) entities m).
Proof.
  induction entities as [|e entities IH]; intros m Hm; cbn [fold_left];
    [exact Hm|].
  apply IH. now apply mapSet_keyed.
Qed.

Section Ledger.
Context {Store : Type}.
Variable this : PolicyUtil Store.
Variable camelCase : string -> string.
Variable TRANSACTION_FIELD_NAME : string.
Variable cuid : string.
Variable visit : string -> string -> hval -> heap -> Traversal.

Local Abbreviation justified := (Ledgers.justified this camelCase).
Local Abbreviation yields := (Ledgers.yields (Store:=Store)).

Lemma y_ret {A} (a : A) (P : A -> Prop) : P a -> yields (ret a) P.
Proof. intros Ha w b w' [= <- _]. exact Ha. Qed.

Lemma y_throw {A} e (P : A -> Prop) : yields (throw e) P.
Proof. intros w b w' [=]. Qed.

Lemma y_bind {A B} (m : M Store A) (k : A -> M Store B) (P : A -> Prop) Q :
  yields m P -> (forall a, P a -> yields (k a) Q) -> yields (bind m k) Q.
Proof.
  intros Hm Hk w b w'. unfold bind. destruct (m w) as [[a|e] w1] eqn:E;
    [|discriminate].
  apply Hk. eapply Hm. exact E.
Qed.

Lemma y_any {A} (m : M Store A) : yields m (fun _ => True).
Proof. intros w a w' _. exact I. Qed.

Lemma y_lift {A} (o : Outcome A) : yields (lift o) (fun a => o = Returned a).
Proof. intros w a w' [= -> _]. reflexivity. Qed.

Lemma y_forEachWith {A} (Inv : Ledger -> Prop) (xs : list A) body : forall ledger,
  Inv ledger ->
  (forall x l, Inv l -> yields (body x l) Inv) ->
  yields (forEachWith xs ledger body) Inv.
Proof.
  induction xs as [|x xs IH]; intros ledger Hl Hb; cbn [forEachWith].
  - now apply y_ret.
  - eapply y_bind; [apply Hb; exact Hl|]. intros l' Hl'. now apply IH.
Qed.

Lemma justified_processCreate model args ledger :
  justified ledger ->
  yields (processCreate this camelCase TRANSACTION_FIELD_NAME cuid model args ledger)
    justified.
Proof.
  intros (Hc & Hcg & Hu & Hug). unfold processCreate.
  eapply y_bind; [apply y_lift|]. intros G HG. cbv beta in HG.
  destruct (isFalse G) eqn:Hf; [apply y_throw|].
  destruct (isTrue G) eqn:Ht; cbn [negb].
  - apply y_ret. repeat split; assumption.
  - eapply y_bind; [apply y_any|]. intros _ _. apply y_ret.
    split; [now apply setAdd_NoDup|]. split; [|split; assumption].
    apply setAdd_Forall; [exact Hcg|]. exists G. auto.
Qed.

Lemma justified_fetchAndRecordPreValues model context ledger :
  justified ledger ->
  yields (fetchAndRecordPreValues this camelCase model context ledger) justified.
Proof.
  intros (Hc & Hcg & Hu & Hug). unfold fetchAndRecordPreValues.
  eapply y_bind; [apply y_lift|]. intros G HG. cbv beta in HG.
  destruct (isTrue G) eqn:Ht; cbn [negb];
    [apply y_ret; repeat split; assumption|].
  eapply y_bind; [apply y_any|]. intros subQuery _.
  eapply y_bind; [apply y_any|]. intros entities _.
  apply y_ret. split; [exact Hc|]. split; [exact Hcg|].
  split; [now apply assign_NoDup|].
  apply assign_Forall_entry; [exact Hug|]. cbn [fst snd]. split; [eauto|].
  apply fold_mapSet_keyed.
  destruct (lookup model (updatedModels ledger)) as [m|] eqn:E;
    [|constructor].
  exact (proj2 (lookup_Forall_entry _ _ _ _ Hug E)).
Qed.

Lemma justified_processUpdate model args context ledger :
  justified ledger ->
  yields (processUpdate this camelCase model args context ledger) justified.
Proof.
  intros Hl. unfold processUpdate.
  eapply y_bind; [apply y_any|]. intros G _.
  eapply y_bind; [apply y_any|]. intros _ _.
  now apply justified_fetchAndRecordPreValues.
Qed.

Lemma justified_processUpdateMany model args context ledger :
  justified ledger ->
  yields (processUpdateMany this camelCase model args context ledger) justified.
Proof.
  intros Hl. unfold processUpdateMany.
  eapply y_bind; [apply y_any|]. intros G _.
  eapply y_bind; [apply y_any|]. intros _ _.
  now apply justified_fetchAndRecordPreValues.
Qed.

Lemma justified_callback e ledger :
  justified ledger ->
  yields (callback this camelCase TRANSACTION_FIELD_NAME cuid e ledger) justified.
Proof.
  intros Hl. unfold callback.
  destruct (ev_kind e);
    try (eapply y_bind; [apply y_any|]; intros all _;
         apply y_forEachWith; [exact Hl|]; intros oneArgs l Hl').
  - now apply justified_processCreate.
  - eapply y_bind; [apply y_any|]. intros c _.
    destruct (h_truthy c); [now apply justified_processCreate | now apply y_ret].
  - now apply justified_processUpdate.
  - now apply justified_processUpdateMany.
  - eapply y_bind; [apply y_any|]. intros c _.
    eapply y_bind with (P := justified).
    { destruct (h_truthy c); [now apply justified_processCreate | now apply y_ret]. }
    intros l2 Hl2.
    eapply y_bind; [apply y_any|]. intros u _.
    destruct (h_truthy u); [|now apply y_ret].
    eapply y_bind; [apply y_any|]. intros wh _.
    eapply y_bind; [apply y_any|]. intros updateArgs _.
    now apply justified_processUpdate.
  - eapply y_bind; [apply y_any|]. intros _ _. now apply y_ret.
  - eapply y_bind; [apply y_any|]. intros _ _. now apply y_ret.
Qed.

Lemma justified_runVisitor t : forall ledger,
  justified ledger ->
  yields (runVisitor this camelCase TRANSACTION_FIELD_NAME cuid t ledger) justified.
Proof.
  induction t as [|e next IH]; intros ledger Hl w l' w'; cbn [runVisitor].
  - intros [= <- _]. exact Hl.
  - destruct (callback _ _ _ _ e ledger w) as [[ledger1|err] w1] eqn:E;
      [|discriminate].
    apply IH. exact (justified_callback e ledger Hl w ledger1 w1 E).
Qed.

Lemma justified_empty : justified {| createdModels := []; updatedModels := [] |}.
Proof. repeat split; constructor. Qed.

Lemma prepareWrite_justified model action args :
  yields (prepareWrite this camelCase TRANSACTION_FIELD_NAME cuid visit
            model action args) justified.
Proof.
  unfold prepareWrite.
  eapply y_bind; [apply y_any|]. intros select _.
  eapply y_bind; [apply y_any|]. intros _ _ w.
  apply justified_runVisitor. exact justified_empty.
Qed.

(** X13. The ledger the preparation of a write hands to the post-checks is
    justified: a model is among the created ones once, and only if its
    create guard is neither constant; a model is among the updated ones
    once, and only if its post-update guard is not the constant true; and
    every entity read before the update is recorded under its own [id]. *)
Theorem prepareWrite_ledger_justified model action args (w w1 : World Store) ledger :
  prepareWrite this camelCase TRANSACTION_FIELD_NAME cuid visit model action args w
  = (Returned ledger, w1) ->
  justified ledger.
Proof. apply prepareWrite_justified. Qed.

(** ** The post-checks *)

Local Abbreviation deniesOnly := (Ledgers.deniesOnly (Store:=Store)).
Local Abbreviation checks := (Ledgers.onlyCalls (Store:=Store) isTxCount).

Lemma d_ret {A} (a : A) : deniesOnly (ret a).
Proof. intros w e w' [=]. Qed.

Lemma d_bind {A B} (m : M Store A) (k : A -> M Store B) :
  deniesOnly m -> (forall a, deniesOnly (k a)) -> deniesOnly (bind m k).
Proof.
  intros Hm Hk w e w'. unfold bind. destruct (m w) as [[a|e1] w1] eqn:E.
  - apply Hk.
  - intros [= <- <-]. eapply Hm. exact E.
Qed.

Lemma d_forEach {A} (xs : list A) (body : A -> M Store unit) :
  (forall x, In x xs -> deniesOnly (body x)) -> deniesOnly (forEach xs body).
Proof.
  induction xs as [|x xs IH]; intros Hb; cbn [forEach]; [apply d_ret|].
  apply d_bind; [apply Hb; now left|]. intros _. apply IH.
  intros y Hy. apply Hb. now right.
Qed.

Lemma d_checkPolicyForFilter model filter operation via G :
  getAuthGuard this camelCase model operation VUndef = Returned G ->
  deniesOnly (checkPolicyForFilter this camelCase model filter operation via).
Proof.
  intros HG w e w'.
  rewrite (RuntimeProps.checkPolicyForFilter_unfold _ _ _ _ _ _ _ _ HG).
  destruct (_ <? _)%nat; intros [= <- _]. reflexivity.
Qed.

(** Whether a guard can be obtained does not depend on the pre-update
    value. *)
Lemma getAuthGuard_preValue model operation p1 p2 G :
  getAuthGuard this camelCase model operation p1 = Returned G ->
  exists G', getAuthGuard this camelCase model operation p2 = Returned G'.
Proof.
  unfold getAuthGuard. destruct (guard _ _) as [g|]; [|discriminate].
  destruct (g operation) as [[b|f]|]; [eauto | eauto | discriminate].
Qed.

Lemma d_checkPostUpdate model id via preValue G :
  getAuthGuard this camelCase model postUpdate VUndef = Returned G ->
  deniesOnly (checkPostUpdate this camelCase model id via preValue).
Proof.
  intros HG w e w'.
  destruct (getAuthGuard_preValue _ _ _ preValue _ HG) as [G' HG'].
  unfold checkPostUpdate, bind, lift, dbCount. rewrite HG'.
  destruct (_ =? 0)%nat; intros [= <- _]. reflexivity.
Qed.

Lemma d_postChecks ledger :
  justified ledger ->
  deniesOnly (postChecks this camelCase TRANSACTION_FIELD_NAME cuid ledger).
Proof.
  intros (_ & Hcg & _ & Hug). unfold postChecks. apply d_bind.
  - destruct (0 <? _)%nat; [|apply d_ret]. apply d_forEach. intros model Hin.
    rewrite List.Forall_forall in Hcg. destruct (Hcg model Hin) as (G & HG & _).
    eapply d_checkPolicyForFilter. exact HG.
  - intros _. destruct (0 <? _)%nat; [|apply d_ret]. apply d_forEach.
    intros [[model id] preValue] Hin.
    apply in_flat_map in Hin as ([m entities] & Hentry & Hin).
    apply in_map_iff in Hin as ([id' pre'] & [= <- <- <-] & _).
    rewrite List.Forall_forall in Hug.
    destruct (Hug _ Hentry) as [(G & HG & _) _].
    eapply d_checkPostUpdate. exact HG.
Qed.

Lemma checks_postChecks ledger :
  checks (postChecks this camelCase TRANSACTION_FIELD_NAME cuid ledger).
Proof.
  unfold postChecks. apply oc_bind.
  - destruct (0 <? _)%nat; [|apply oc_ret]. apply oc_forEach. intros model.
    now apply oc_checkPolicyForFilter.
  - intros _. destruct (0 <? _)%nat; [|apply oc_ret]. apply oc_forEach.
    intros [[model id] preValue]. now apply oc_checkPostUpdate.
Qed.

Lemma ks_postChecks ledger :
  keepsStore (postChecks this camelCase TRANSACTION_FIELD_NAME cuid ledger).
Proof.
  unfold postChecks. apply RuntimeProps.ks_bind.
  - destruct (0 <? _)%nat; [|apply RuntimeProps.ks_ret].
    apply RuntimeProps.ks_forEach. intros model.
    apply RuntimeProps.ks_checkPolicyForFilter.
  - intros _. destruct (0 <? _)%nat; [|apply RuntimeProps.ks_ret].
    apply RuntimeProps.ks_forEach. intros [[model id] preValue].
    unfold checkPostUpdate.
    apply RuntimeProps.ks_bind; [apply RuntimeProps.ks_lift|]. intros G.
    apply RuntimeProps.ks_bind; [apply RuntimeProps.ks_dbCount|]. intros gc.
    destruct (gc =? 0)%nat; [apply RuntimeProps.ks_throw | apply RuntimeProps.ks_ret].
Qed.

(** X14. [processWrite] once the arguments are processed, [q] being what
    they then read as.  Without obligations in the ledger the write action
    runs directly on the client, outside any transaction, and its outcome
    is the outcome of the call.  With obligations the call opens one
    transaction, runs the write action on the transaction's client and then
    only counts through that client; if the write action fails, so does the
    call, with the same error; if it returns, the call either returns the
    same result and keeps what the write action wrote, or fails with a
    policy denial and leaves the database as it was. *)
Theorem processWrite_after_preparation
    model action args writeAction (w w1 : World Store) ledger q :
  prepareWrite this camelCase TRANSACTION_FIELD_NAME cuid visit model action args w
  = (Returned ledger, w1) ->
  snapshot (w_heap w1) args = Some q ->
  let written := writeAction model q (w_store w) in
  let r := processWrite this camelCase TRANSACTION_FIELD_NAME cuid visit
             model action args writeAction w in
  (hasObligations ledger = false ->
   r = (fst written,
        {| w_heap := w_heap w1; w_store := snd written;
           w_trace := w_trace w1 ++ [CallWrite ThisDb model q] |}))
  /\ (hasObligations ledger = true ->
      (exists counts,
         w_trace (snd r)
         = w_trace w1 ++ CallTransaction :: CallWrite Tx model q :: counts
         /\ Forall (fun c => exists m a, c = CallCount Tx m a) counts)
      /\ match fst written with
         | Thrown e => fst r = Thrown e /\ w_store (snd r) = w_store w
         | Returned v =>
             (fst r = Returned v /\ w_store (snd r) = snd written)
             \/ (exists e, fst r = Thrown e /\ isPolicyDenied e = true
                           /\ w_store (snd r) = w_store w)
         end).
Proof.
  intros Hprep Hsnap written r.
  pose proof (RuntimeProps.ks_prepareWrite this camelCase TRANSACTION_FIELD_NAME
                cuid visit model action args w) as Hks.
  rewrite Hprep in Hks. cbn [snd] in Hks.
  pose proof (prepareWrite_justified model action args w ledger w1 Hprep) as Hj.
  assert (Hperf : forall via w0,
            w_heap w0 = w_heap w1 -> w_store w0 = w_store w ->
            performWrite writeAction via model args w0
            = (fst written,
               {| w_heap := w_heap w0; w_store := snd written;
                  w_trace := w_trace w0 ++ [CallWrite via model q] |})).
  { intros via [h0 s0 t0] Hh Hs. cbn [w_heap w_store w_trace] in *. subst h0 s0.
    unfold performWrite, bind, snapshotOf. cbn [w_heap]. rewrite Hsnap.
    cbn [w_heap w_store w_trace]. fold written. now destruct written. }
  assert (Hr : r = if hasObligations ledger
                   then transaction
                          (result <- performWrite writeAction Tx model args ;;
                           postChecks this camelCase TRANSACTION_FIELD_NAME cuid ledger ;;
                           ret result) w1
                   else performWrite writeAction ThisDb model args w1).
  { subst r. unfold processWrite, bind at 1. rewrite Hprep. cbv beta iota.
    unfold hasObligations.
    destruct ((length (createdModels ledger) =? 0)%nat
              && (length (updatedModels ledger) =? 0)%nat); reflexivity. }
  clearbody r. subst r. split; intros Hob; rewrite Hob.
  - now rewrite Hperf.
  - remember (transaction _ w1) as r eqn:Hr.
    unfold transaction in Hr. unfold bind at 1 in Hr.
    rewrite Hperf in Hr by (try reflexivity; exact Hks).
    unfold record in Hr. cbn [w_heap w_store w_trace] in Hr.
    destruct written as [[v|e] s'] eqn:Hwritten; cbn [fst snd] in *.
    + set (w2 := {| w_heap := w_heap w1; w_store := s';
                    w_trace := (w_trace w1 ++ [CallTransaction])
                               ++ [CallWrite Tx model q] |}) in *.
      unfold bind at 1 in Hr.
      destruct (checks_postChecks ledger w2) as (counts & Ht & Hp).
      pose proof (ks_postChecks ledger w2) as Hs.
      pose proof (d_postChecks ledger Hj w2) as Hd.
      assert (Hcounts : Forall (fun c => exists m a, c = CallCount Tx m a) counts).
      { apply List.Forall_forall. intros c Hin. rewrite forallb_forall in Hp.
        specialize (Hp c Hin).
        destruct c as [[|] m a|[|] m a| |]; try discriminate; eauto. }
      assert (Htrace : w_trace w2 ++ counts
                       = w_trace w1 ++ CallTransaction :: CallWrite Tx model q :: counts).
      { subst w2. cbn [w_trace]. now rewrite <- !app_assoc. }
      destruct (postChecks _ _ _ _ ledger w2) as [[[]|e] w3];
        unfold ret in Hr; subst r; cbn [fst snd w_heap w_store w_trace] in *.
      * split; [exists counts; rewrite Ht; auto|].
        left. split; [reflexivity | exact Hs].
      * split; [exists counts; rewrite Ht; auto|].
        right. exists e. split; [reflexivity|]. split; [|exact Hks].
        eapply Hd. reflexivity.
    + subst r. cbn [fst snd w_heap w_store w_trace].
      split; [|split; [reflexivity | exact Hks]].
      exists []. rewrite <- app_assoc. split; [reflexivity | constructor].
Qed.

End Ledger.

(** On the sample: creating a user together with a post. *)
Lemma prepareWrite_ledger_justified_witness :
  let args :=
    VObj [("data",
           VObj [("id", VStr "u3"); ("name", VStr "carol"); ("public", VBool true);
                 ("posts",
                  VObj [("create",
                         VArr [VObj [("id", VStr "p9"); ("title", VStr "new");
                                     ("published", VBool true);
                                     ("authorId", VStr "u3")]])])])] in
  let r := prepareWrite Blog.this Blog.camelCase Blog.TRANSACTION_FIELD_NAME
             Blog.cuid Blog.visit "User" "create" (fst (Blog.start args))
             (snd (Blog.start args)) in
  fst r = Returned {| createdModels := ["Post"]; updatedModels := [] |}
  /\ justified Blog.this Blog.camelCase
       {| createdModels := ["Post"]; updatedModels := [] |}.
Proof.
  intros args r.
  assert (H : fst r = Returned {| createdModels := ["Post"]; updatedModels := [] |})
    by (vm_compute; reflexivity).
  split; [exact H|].
  destruct r as [o w1] eqn:E. cbn [fst] in H. subst o.
  exact (prepareWrite_ledger_justified Blog.this Blog.camelCase
           Blog.TRANSACTION_FIELD_NAME Blog.cuid Blog.visit "User" "create"
           (fst (Blog.start args)) (snd (Blog.start args)) w1 _ E).
Defined.

Lemma processWrite_after_preparation_witness :
  let args :=
    VObj [("data",
           VObj [("id", VStr "u3"); ("name", VStr "carol"); ("public", VBool true);
                 ("posts",
                  VObj [("create",
                         VArr [VObj [("id", VStr "p9"); ("title", VStr "new");
                                     ("published", VBool true);
                                     ("authorId", VStr "u3")]])])])] in
  let q :=
    VObj [("data",
           VObj [("id", VStr "u3"); ("name", VStr "carol"); ("public", VBool true);
                 ("posts",
                  VObj [("create",
                         VArr [VObj [("id", VStr "p9"); ("title", VStr "new");
                                     ("published", VBool true);
                                     ("authorId", VStr "u3");
                                     ("zenstack_transaction",
                                      VStr "clg3x0a2k0000:create")]])])])] in
  let r := Blog.processWrite "User" "create" args in
  exists counts,
    w_trace (snd r) = CallTransaction :: CallWrite Tx "User" q :: counts
    /\ Forall (fun c => exists m a, c = CallCount Tx m a) counts.
Proof.
  intros args q r.
  pose (p := prepareWrite Blog.this Blog.camelCase Blog.TRANSACTION_FIELD_NAME
               Blog.cuid Blog.visit "User" "create" (fst (Blog.start args))
               (snd (Blog.start args))).
  assert (Hp : p = (Returned {| createdModels := ["Post"]; updatedModels := [] |},
                    snd p)) by (vm_compute; reflexivity).
  assert (Ht : w_trace (snd p) = []) by (vm_compute; reflexivity).
  assert (Hq : snapshot (w_heap (snd p)) (fst (Blog.start args)) = Some q)
    by (vm_compute; reflexivity).
  destruct (proj2 (processWrite_after_preparation Blog.this Blog.camelCase
                     Blog.TRANSACTION_FIELD_NAME Blog.cuid Blog.visit
                     "User" "create" (fst (Blog.start args)) Blog.writeAction
                     (snd (Blog.start args)) (snd p) _ q Hp Hq) eq_refl)
    as [(counts & Htrace & Hcounts) _].
  exists counts. split; [|exact Hcounts].
  rewrite Ht in Htrace. exact Htrace.
Defined.

End ObligationProps.

(** * The recursion of the post-check of a read is bounded *)

Module TerminationProps.
Import Js Runtime Vocabulary Termination.
Local Open Scope monad_scope.

Section PostProcess.
Context {Store : Type}.
Variable this : PolicyUtil Store.
Variable camelCase : string -> string.

Local Abbreviation neverOverflows := (Termination.neverOverflows (Store:=Store)).

Lemma no_ret {A} (a : A) : neverOverflows (ret a).
Proof. intros w message. discriminate. Qed.

Lemma no_throw {A} e :
  (forall message, e <> RangeError message) -> neverOverflows (@throw Store A e).
Proof. intros He w message [= H]. exact (He _ H). Qed.

Lemma no_bind {A B} (m : M Store A) (k : A -> M Store B) :
  neverOverflows m -> (forall a, neverOverflows (k a)) -> neverOverflows (bind m k).
Proof.
  intros Hm Hk w message. unfold bind. specialize (Hm w message).
  destruct (m w) as [[a|e] w1]; [apply Hk|].
  cbn [fst] in *. intros [= ->]. now apply Hm.
Qed.

Lemma no_forEach {A} (xs : list A) (body : A -> M Store unit) :
  (forall x, neverOverflows (body x)) -> neverOverflows (forEach xs body).
Proof.
  intros Hb. induction xs as [|x xs IH]; cbn [forEach];
    [apply no_ret | apply no_bind; auto].
Qed.

Lemma no_checkPolicyForFilter model filter operation via :
  neverOverflows (checkPolicyForFilter this camelCase model filter operation via).
Proof.
  unfold checkPolicyForFilter.
  apply no_bind; [intros w message; discriminate|]. intros c.
  apply no_bind.
  { intros w message. unfold lift, getAuthGuard. cbn [fst].
    destruct (guard _ _) as [g|]; [|discriminate].
    destruct (g operation) as [[b|f]|]; discriminate. }
  intros G. apply no_bind; [intros w message; discriminate|]. intros gc.
  destruct (gc <? c)%nat; [|apply no_ret]. apply no_throw. discriminate.
Qed.

Lemma no_postProcessForRead_from fuel : forall entityData model args operation,
  depth entityData < fuel ->
  neverOverflows (postProcessForRead_from this camelCase fuel entityData model
                    args operation).
Proof.
  induction fuel as [|fuel IH]; intros entityData model args operation Hd; [lia|].
  cbn [postProcessForRead_from].
  destruct (negb (truthy (get entityData "id"))); [apply no_ret|].
  destruct (nullish args); [apply no_throw; discriminate|].
  destruct (negb (truthy _)); [apply no_ret|].
  apply no_forEach. intros field.
  destruct (resolveField (modelMeta this) model field) as [fieldInfo|];
    [|apply no_ret].
  destruct (truthy (get (get entityData field) "id")) eqn:Hid;
    [|rewrite !orb_true_r; apply no_ret].
  destruct (_ || _); [apply no_ret|].
  apply no_bind; [apply no_checkPolicyForFilter|]. intros _.
  apply IH. pose proof (ReadProps.depth_get _ _ Hid). lia.
Qed.

(** X15. The recursion of [postProcessForRead] goes down the row it
    checks, one relation object at a time, so it ends: the check never
    fails for having recursed too deep, and the bound on its depth plays no
    part in its result, any bound above the nesting of the row giving the
    same outcome and the same calls. *)
Theorem postProcessForRead_terminates
    entityData model args operation (w : World Store) :
  (forall message,
     fst (postProcessForRead this camelCase entityData model args operation w)
     <> Thrown (RangeError message))
  /\ (forall fuel, depth entityData < fuel ->
        postProcessForRead_from this camelCase fuel entityData model args operation w
        = postProcessForRead this camelCase entityData model args operation w).
Proof.
  split.
  - intros message. apply no_postProcessForRead_from. lia.
  - intros fuel Hf. apply ReadProps.postProcessForRead_from_enough; lia.
Qed.

End PostProcess.

Lemma postProcessForRead_terminates_witness :
  let row := VObj [("id", VStr "p2"); ("author", VObj [("id", VStr "u2")])] in
  let args := VObj [("include", VObj [("author", VBool true)])] in
  postProcessForRead_from Blog.this Blog.camelCase 7 row "Post" args read
    (snd (Blog.start VUndef))
  = postProcessForRead Blog.this Blog.camelCase row "Post" args read
      (snd (Blog.start VUndef)).
Proof.
  intros row args.
  apply (proj2 (postProcessForRead_terminates Blog.this Blog.camelCase row "Post"
                  args read (snd (Blog.start VUndef))) 7).
  cbn. lia.
Defined.

End TerminationProps.

(** * More properties of the policy compiler *)

Module GeneratedProps.
Import Js PolicyGuardGenerator Generated.

(** ** The split of update rules, once more *)

Lemma visit_again e : forall p e',
  visitPolicyExpression e p = Some e' ->
  visitPolicyExpression e' p = Some e'.
Proof.
  assert (Hleaf : forall e p e', isLogicalNode e = false ->
            visitPolicyExpression e p = Some e' ->
            visitPolicyExpression e' p = Some e').
  { intros e0 p e' H H1. pose proof H1 as H2. revert H2.
    rewrite CompilerProps.visit_leaf, CompilerProps.visitLeaf_spec by assumption.
    destruct (Bool.eqb _ _); intros [= <-]. exact H1. }
  induction e; intros p e'; try (apply Hleaf; reflexivity).
  - destruct (String.eqb operator "!") eqn:Hop.
    + rewrite CompilerProps.visit_not by assumption.
      destruct (visitPolicyExpression e p) as [o|] eqn:E; simpl; intros [= <-].
      rewrite CompilerProps.visit_not by assumption.
      now rewrite (IHe p o E).
    + apply Hleaf. simpl. exact Hop.
  - destruct (isLogicalOperator operator) eqn:Hop.
    + rewrite CompilerProps.visit_binary by assumption.
      destruct (visitPolicyExpression e1 p) as [l|] eqn:E1,
               (visitPolicyExpression e2 p) as [r|] eqn:E2; intros [= <-].
      * rewrite CompilerProps.visit_binary by assumption.
        now rewrite (IHe1 p l E1), (IHe2 p r E2).
      * now apply (IHe1 p).
      * now apply (IHe2 p).
    + apply Hleaf. simpl. exact Hop.
Qed.

Lemma leaves_nonempty e : leaves e <> [].
Proof.
  induction e; simpl; try discriminate.
  - destruct (String.eqb operator "!"); [assumption | discriminate].
  - destruct (isLogicalOperator operator); [|discriminate].
    destruct (leaves e1); [contradiction | discriminate].
Qed.

Lemma filter_filter_none {A} (f g : A -> bool) (l : list A) :
  (forall x, f x = true -> g x = false) -> List.filter g (List.filter f l) = [].
Proof.
  intros H. induction l as [|x l IH]; [reflexivity|]. cbn [List.filter].
  destruct (f x) eqn:E; [|exact IH]. cbn [List.filter]. now rewrite (H x E).
Qed.

(** X16. The two halves of a split rule are stable and disjoint: splitting
    a half again for its own side gives the same half, and splitting it for
    the other side gives nothing; so what went before the update is never
    checked again after it, and conversely. *)
Theorem visitPolicyExpression_halves (e e' : Expression) (postUpdate : bool) :
  visitPolicyExpression e postUpdate = Some e' ->
  visitPolicyExpression e' postUpdate = Some e'
  /\ visitPolicyExpression e' (negb postUpdate) = None.
Proof.
  intros H. split; [now apply (visit_again e)|].
  pose proof (CompilerProps.visit_leaves e postUpdate) as Hl. rewrite H in Hl.
  pose proof (CompilerProps.visit_leaves e' (negb postUpdate)) as Hn.
  simpl leavesOpt in Hl. rewrite Hl in Hn.
  rewrite filter_filter_none in Hn.
  - destruct (visitPolicyExpression e' (negb postUpdate)) as [e2|]; [|reflexivity].
    simpl in Hn. now apply leaves_nonempty in Hn.
  - intros x Hx. destruct (hasFutureReference x), postUpdate; simpl in *; congruence.
Qed.

Lemma visitPolicyExpression_halves_witness :
  visitPolicyExpression futureValuePositive true = Some futureValuePositive
  /\ visitPolicyExpression futureValuePositive false = None.
Proof.
  apply (visitPolicyExpression_halves
           (BinaryExpr "&&" ownerIsAuth futureValuePositive) futureValuePositive true).
  reflexivity.
Defined.

(** ** What a generated guard function is made of *)

(** A rule that static analysis counts for an operation is among the rules
    whose expressions the generator collects for it. *)
Lemma counted_collected (op : PolicyOperationKind) (rule : DataModelAttribute) :
  match getLiteralString (arg0 rule) with
  | None => false
  | Some ops =>
      if String.eqb ops "" then false
      else if String.eqb ops "all" then true
      else JsString.includes (opName op)
             (map JsString.trim (JsString.split "," ops))
  end = true ->
  match getLiteralString (arg0 rule) with
  | None => false
  | Some opsValue =>
      if String.eqb opsValue "" then false
      else
        let ops := map JsString.trim (JsString.split "," opsValue) in
        JsString.includes (opName op) ops || JsString.includes "all" ops
  end = true.
Proof.
  destruct (getLiteralString (arg0 rule)) as [ops|]; [|easy].
  destruct (String.eqb ops "") eqn:E0; [easy|].
  destruct (String.eqb ops "all") eqn:Eall.
  - apply String.eqb_eq in Eall. subst ops. intros _. cbv zeta.
    apply orb_true_r.
  - cbv zeta. intros ->. reflexivity.
Qed.

Lemma collected_allows_nonempty model op :
  op <> update -> op <> postUpdate ->
  applicableAllows model op <> [] ->
  getPolicyExpressions model allow op <> [].
Proof.
  intros Hu Hp Hne.
  assert (Hraw : map arg1
            (List.filter (fun attr =>
               match getLiteralString (arg0 attr) with
               | None => false
               | Some opsValue =>
                   if String.eqb opsValue "" then false
                   else
                     let ops := map JsString.trim (JsString.split "," opsValue) in
                     JsString.includes (opName op) ops
                     || JsString.includes "all" ops
               end)
               (List.filter (fun attr => String.eqb (decl attr) "@@allow")
                  (attributes model))) <> []).
  { intros Hmap. apply map_eq_nil in Hmap. revert Hmap.
    eapply CompilerProps.filter_nonempty_mono; [|exact Hne].
    intros rule. apply counted_collected. }
  destruct op; try congruence; exact Hraw.
Qed.

(** X17. Whenever the generator writes a guard function for a model and an
    operation, the entry of the table names that function, the function is
    built from the allow and deny expressions collected for the operation,
    and these are not both empty; for every operation but post-update there
    is at least one allow expression.  So the branch of the function body
    that disallows any operation is never the one written. *)
Theorem generated_guard_has_rules
    (model : DataModel) (kind : PolicyOperationKind)
    (entry : GuardEntry) (func : FunctionDeclaration) :
  guardEntryFor model kind = (entry, Some func) ->
  entry = EFunc (name model ++ "_" ++ opName kind)
  /\ func = generateQueryGuardFunction model kind
              (getPolicyExpressions model allow kind)
              (getPolicyExpressions model deny kind)
  /\ (kind <> postUpdate -> fn_allows func <> [])
  /\ (fn_allows func <> [] \/ fn_denies func <> []).
Proof.
  unfold guardEntryFor.
  destruct (policies_get (analyzePolicies model) kind) as [b|] eqn:Hget;
    [discriminate|].
  assert (Hstatic : kind <> update -> kind <> postUpdate ->
                    getPolicyExpressions model allow kind <> []).
  { intros Hu Hp. apply collected_allows_nonempty; try assumption.
    unfold applicableAllows. intros Hnil.
    assert (Hs : toStaticPolicy kind (allows (analyzePolicies model))
                   (denies (analyzePolicies model)) = None)
      by (destruct kind; try congruence; exact Hget).
    rewrite CompilerProps.toStaticPolicy_unfold, Hnil in Hs.
    destruct (someConstantTrue _); discriminate. }
  destruct (op_eqb kind update) eqn:Eu; cbn [andb].
  - destruct (length (getPolicyExpressions model allow kind) =? 0)%nat eqn:El.
    + destruct (length (getPolicyExpressions model allow postUpdate) =? 0)%nat;
        discriminate.
    + assert (Hne : getPolicyExpressions model allow kind <> [])
        by (intros H; rewrite H in El; discriminate).
      destruct (op_eqb kind postUpdate && _ && _); [discriminate|].
      intros [= <- <-]. cbn [fn_allows fn_denies generateQueryGuardFunction].
      repeat split; auto.
  - destruct (op_eqb kind postUpdate) eqn:Ep; cbn [andb].
    + destruct (length (getPolicyExpressions model allow kind) =? 0)%nat eqn:El;
        cbn [andb].
      * destruct (length (getPolicyExpressions model deny kind) =? 0)%nat eqn:Ed;
          [discriminate|].
        intros [= <- <-]. cbn [fn_allows fn_denies generateQueryGuardFunction].
        repeat split.
        -- intros H. destruct kind; try discriminate. congruence.
        -- right. intros H. rewrite H in Ed. discriminate.
      * intros [= <- <-]. cbn [fn_allows fn_denies generateQueryGuardFunction].
        assert (Hne : getPolicyExpressions model allow kind <> [])
          by (intros H; rewrite H in El; discriminate).
        repeat split; auto.
    + intros [= <- <-]. cbn [fn_allows fn_denies generateQueryGuardFunction].
      assert (Hne : getPolicyExpressions model allow kind <> []).
      { apply Hstatic; intros ->; discriminate. }
      repeat split; auto.
Qed.

Lemma generated_guard_has_rules_witness :
  let model :=
    {| name := "Post";
       attributes :=
         [ {| decl := "@@allow"; arg0 := LiteralExpr (LString "read, update");
              arg1 := ownerIsAuth |} ] |} in
  fst (guardEntryFor model read) = EFunc "Post_read"
  /\ (forall func, snd (guardEntryFor model read) = Some func ->
        fn_allows func <> []).
Proof.
  intros model.
  destruct (guardEntryFor model read) as [entry [func|]] eqn:E;
    [|exfalso; revert E; vm_compute; discriminate].
  destruct (generated_guard_has_rules model read entry func E)
    as (He & _ & Hallows & _).
  split; [exact He|]. intros func' [= <-]. apply Hallows. discriminate.
Defined.

(** X23. What static analysis counts, the generator collects: the
    expression of every allow or deny rule that [forOperation] keeps for
    create, read or delete is among the expressions the generator collects
    for that operation; and for update the expression of every rule kept
    has a half among the expressions collected for update or a half among
    those collected for post-update. *)
Theorem counted_rules_are_collected
    (model : DataModel) (kind : PolicyKind) (op : PolicyOperationKind)
    (rule : DataModelAttribute) :
  In rule (forOperation op
             (List.filter (fun attr => String.eqb (decl attr) ("@@" ++ kindName kind))
                (attributes model))) ->
  match op with
  | postUpdate => True
  | update =>
      (exists half, visitPolicyExpression (arg1 rule) false = Some half
                    /\ In half (getPolicyExpressions model kind update))
      \/ (exists half, visitPolicyExpression (arg1 rule) true = Some half
                       /\ In half (getPolicyExpressions model kind postUpdate))
  | _ => In (arg1 rule) (getPolicyExpressions model kind op)
  end.
Proof.
  intros Hin. unfold forOperation in Hin. apply filter_In in Hin as [Hattr Hcounted].
  assert (Hraw : forall op', opName op' = opName op ->
            In (arg1 rule)
              (map arg1
                 (List.filter (fun attr =>
                    match getLiteralString (arg0 attr) with
                    | None => false
                    | Some opsValue =>
                        if String.eqb opsValue "" then false
                        else
                          let ops := map JsString.trim (JsString.split "," opsValue) in
                          JsString.includes (opName op') ops
                          || JsString.includes "all" ops
                    end)
                    (List.filter
                       (fun attr => String.eqb (decl attr) ("@@" ++ kindName kind))
                       (attributes model))))).
  { intros op' Hop. apply in_map. apply filter_In. split; [exact Hattr|].
    rewrite Hop. now apply counted_collected. }
  destruct op; try exact I; try (exact (Hraw _ eq_refl)).
  specialize (Hraw update eq_refl).
  unfold getPolicyExpressions, processUpdatePolicies.
  destruct (visitPolicyExpression (arg1 rule) false) as [half|] eqn:Eb.
  - left. exists half. split; [reflexivity|].
    apply list_elem_of_In, list_elem_of_omap. exists (arg1 rule).
    split; [apply list_elem_of_In; exact Hraw | exact Eb].
  - right. pose proof (CompilerProps.visit_some_side _ Eb) as Ha.
    destruct (visitPolicyExpression (arg1 rule) true) as [half|] eqn:Ea;
      [|congruence].
    exists half. split; [reflexivity|].
    apply list_elem_of_In, list_elem_of_omap. exists (arg1 rule).
    split; [apply list_elem_of_In; exact Hraw | exact Ea].
Qed.

Lemma counted_rules_are_collected_witness :
  In futureValuePositive (getPolicyExpressions counterModel allow postUpdate).
Proof.
  destruct (counted_rules_are_collected counterModel allow update
              {| decl := "@@allow"; arg0 := LiteralExpr (LString "update");
                 arg1 := futureValuePositive |})
    as [(half & Hhalf & _) | (half & Hhalf & Hin)].
  - left. reflexivity.
  - discriminate.
  - injection Hhalf as <-. exact Hin.
Defined.

(** ** Models without allow rules *)

Lemma existsb_filter_nonempty {A} (f : A -> bool) (l : list A) :
  existsb f l = true <-> List.filter f l <> [].
Proof.
  induction l as [|x l IH]; cbn [existsb List.filter]; [split; congruence|].
  destruct (f x); [split; [discriminate | reflexivity] | exact IH].
Qed.

Lemma forOperation_nil op : forOperation op [] = [].
Proof. reflexivity. Qed.

(** X18. A data model is among those [extractDataModelsWithAllowRules]
    returns exactly when it is declared and has an allow rule; and a model
    with no allow rule denies everything: [analyzePolicies] marks it
    [denyAll], and its table entries for create, read, update and delete
    are the constant [false], no guard function being generated for
    them. *)
Theorem model_without_allow_rule
    (declarations : list Declaration) (model : DataModel) :
  (In model (extractDataModelsWithAllowRules declarations)
   <-> In (DataModelDecl model) declarations
       /\ allows (analyzePolicies model) <> [])
  /\ (allows (analyzePolicies model) = [] ->
      denyAll (analyzePolicies model) = true
      /\ allowAll (analyzePolicies model) = false
      /\ forall kind, kind <> postUpdate ->
           guardEntryFor model kind = (EConst false, None)).
Proof.
  split.
  - unfold extractDataModelsWithAllowRules.
    cbn [allows analyzePolicies]. rewrite <- existsb_filter_nonempty.
    induction declarations as [|d ds IH]; simpl omap; cbn [In];
      [split; [intros [] | intros [[] _]]|].
    destruct d as [m|n].
    + destruct (existsb _ (attributes m)) eqn:Em; cbn [In].
      * rewrite IH. split.
        -- intros [-> | [H1 H2]]; [split; [now left | exact Em] | split; [now right | exact H2]].
        -- intros [[[= ->] | H1] H2]; [now left | right; split; assumption].
      * rewrite IH. split.
        -- intros [H1 H2]. split; [now right | exact H2].
        -- intros [[[= ->] | H1] H2]; [congruence | split; assumption].
    + rewrite IH. split.
      * intros [H1 H2]. split; [now right | exact H2].
      * intros [[[=] | H1] H2]. split; assumption.
  - intros Hnone.
    assert (Hstatic : forall op,
              toStaticPolicy op (allows (analyzePolicies model))
                (denies (analyzePolicies model)) = Some false).
    { intros op. rewrite CompilerProps.toStaticPolicy_unfold, Hnone, forOperation_nil.
      now destruct (someConstantTrue _). }
    assert (Hget : forall kind, kind <> postUpdate ->
              policies_get (analyzePolicies model) kind = Some false).
    { intros kind Hk. destruct kind; try congruence; apply Hstatic. }
    split; [|split].
    + cbn [allows denies analyzePolicies] in Hstatic. cbn [denyAll analyzePolicies].
      rewrite (Hstatic create), (Hstatic read), (Hstatic update), (Hstatic delete).
      reflexivity.
    + cbn [allows denies analyzePolicies] in Hstatic. cbn [allowAll analyzePolicies].
      rewrite (Hstatic create). reflexivity.
    + intros kind Hk. unfold guardEntryFor. now rewrite (Hget kind Hk).
Qed.

Lemma model_without_allow_rule_witness :
  let model :=
    {| name := "Secret";
       attributes :=
         [ {| decl := "@@deny"; arg0 := LiteralExpr (LString "read");
              arg1 := ownerIsAuth |} ] |} in
  denyAll (analyzePolicies model) = true
  /\ guardEntryFor model read = (EConst false, None)
  /\ ~ In model (extractDataModelsWithAllowRules
                   [OtherDecl "db"; DataModelDecl model; DataModelDecl counterModel]).
Proof.
  intros model.
  destruct (model_without_allow_rule
              [OtherDecl "db"; DataModelDecl model; DataModelDecl counterModel] model)
    as [Hin Hdeny].
  destruct (Hdeny eq_refl) as (Hd & _ & He).
  split; [exact Hd|]. split; [apply He; discriminate|].
  intros H. apply Hin in H as [_ H]. now apply H.
Defined.

(** ** The post-update entry *)

(** X20. The entry of the table for post-update is never the constant
    [false]; it is the constant [true] exactly when no update rule of the
    model has a post-update side, and a guard function otherwise.  And when
    static analysis leaves update open while the entry for update is the
    constant [true], the check is not lost: the post-update entry is then a
    guard function with at least one allow expression. *)
Theorem postUpdate_entry (model : DataModel) :
  fst (guardEntryFor model postUpdate) <> EConst false
  /\ (fst (guardEntryFor model postUpdate) = EConst true
      <-> getPolicyExpressions model allow postUpdate = []
          /\ getPolicyExpressions model deny postUpdate = [])
  /\ (policies_get (analyzePolicies model) update = None ->
      fst (guardEntryFor model update) = EConst true ->
      exists func,
        guardEntryFor model postUpdate
        = (EFunc (name model ++ "_" ++ opName postUpdate), Some func)
        /\ fn_allows func <> []).
Proof.
  assert (Hpost : guardEntryFor model postUpdate
                  = if (length (getPolicyExpressions model allow postUpdate) =? 0)%nat
                       && (length (getPolicyExpressions model deny postUpdate) =? 0)%nat
                    then (EConst true, None)
                    else (EFunc (name model ++ "_" ++ opName postUpdate),
                          Some (generateQueryGuardFunction model postUpdate
                                  (getPolicyExpressions model allow postUpdate)
                                  (getPolicyExpressions model deny postUpdate))))
    by reflexivity.
  split; [|split].
  - rewrite Hpost. destruct (_ && _); discriminate.
  - rewrite Hpost.
    destruct (getPolicyExpressions model allow postUpdate) as [|a al],
             (getPolicyExpressions model deny postUpdate) as [|d dl];
      cbn [length Nat.eqb andb fst]; split; try discriminate; auto;
      intros [H1 H2]; discriminate.
  - intros Hopen. unfold guardEntryFor at 1. rewrite Hopen.
    cbn [op_eqb andb].
    destruct (length (getPolicyExpressions model allow update) =? 0)%nat.
    + destruct (length (getPolicyExpressions model allow postUpdate) =? 0)%nat eqn:El;
        [discriminate|].
      intros _. rewrite Hpost. cbn [andb]. eexists. split; [reflexivity|].
      cbn [fn_allows generateQueryGuardFunction]. intros H. rewrite H in El.
      discriminate.
    + discriminate.
Qed.

Lemma postUpdate_entry_witness :
  exists func,
    guardEntryFor counterModel postUpdate = (EFunc "Counter_postUpdate", Some func)
    /\ fn_allows func <> [].
Proof.
  exact (proj2 (proj2 (postUpdate_entry counterModel)) eq_refl eq_refl).
Defined.

End GeneratedProps.

(** * What a generated guard accepts *)

Module GuardObjectProps.
Import Js Runtime ReferenceStore PolicyGuardGenerator Generated.

Section Accepts.
Variable meta : ModelMeta.
Variable D : Database.
Variable write : Expression -> value.
Variable GUARD_FIELD_NAME : string.

Lemma matches_NOT model v row :
  matches meta D model (VObj [("NOT", v)]) row = negb (matches meta D model v row).
Proof. cbn [matches]. cbn [String.eqb Ascii.eqb Bool.eqb]. apply andb_true_r. Qed.

Lemma matches_writeDenies model denies row :
  denies <> [] ->
  matches meta D model (writeDenies write denies) row
  = forallb (fun d => negb (matches meta D model (write d) row)) denies.
Proof.
  intros Hne. unfold writeDenies.
  destruct denies as [|d [|d' rest]]; [congruence| |].
  - cbn [map forallb]. now rewrite matches_NOT, andb_true_r.
  - cbn [map].
    change (VObj [("NOT", write d)] :: VObj [("NOT", write d')]
            :: map (fun expr => VObj [("NOT", write expr)]) rest)
      with (map (fun expr => VObj [("NOT", write expr)]) (d :: d' :: rest)).
    rewrite RuntimeProps.matches_AND. generalize (d :: d' :: rest). intros l.
    induction l as [|x l IH]; [reflexivity|]. cbn [map forallb].
    now rewrite matches_NOT, IH.
Qed.

Lemma matches_writeAllows model allows row :
  allows <> [] ->
  matches meta D model (writeAllows write allows) row
  = existsb (fun a => matches meta D model (write a) row) allows.
Proof.
  intros Hne. unfold writeAllows.
  destruct allows as [|a [|a' rest]]; [congruence| |].
  - cbn [map existsb]. now rewrite orb_false_r.
  - cbn [map].
    change (write a :: write a' :: map write rest)
      with (map write (a :: a' :: rest)).
    rewrite ConditionProps.matches_OR. generalize (a :: a' :: rest). intros l.
    induction l as [|x l IH]; [reflexivity|]. cbn [map existsb].
    now rewrite IH.
Qed.

(** X19. The object a generated guard function returns, read as a filter:
    when there is a deny or an allow expression, a row satisfies it exactly
    when the row satisfies none of the deny expressions and, if there are
    allow expressions, at least one of them.  A deny expression that holds
    of a row thus rejects it whatever the allow expressions say. *)
Theorem guardObject_deny_overrides model (allows denies : list Expression) row :
  allows <> [] \/ denies <> [] ->
  matches meta D model (guardObject write GUARD_FIELD_NAME allows denies) row
  = forallb (fun d => negb (matches meta D model (write d) row)) denies
    && match allows with
       | [] => true
       | _ => existsb (fun a => matches meta D model (write a) row) allows
       end.
Proof.
  intros Hsome. unfold guardObject.
  destruct allows as [|a allows'], denies as [|d denies']; cbn [length Nat.ltb Nat.leb andb].
  - destruct Hsome; congruence.
  - rewrite matches_writeDenies by discriminate. now rewrite andb_true_r.
  - rewrite matches_writeAllows by discriminate. reflexivity.
  - rewrite RuntimeProps.matches_AND. cbn [forallb].
    rewrite matches_writeDenies, matches_writeAllows by discriminate.
    now rewrite andb_true_r.
Qed.

End Accepts.

Lemma guardObject_deny_overrides_witness :
  let write := fun e : Expression =>
    match e with
    | ReferenceExpr field => VObj [(field, VBool true)]
    | _ => VUndef
    end in
  let guard := guardObject write "zenstack_guard"
                 [ReferenceExpr "published"] [ReferenceExpr "draft"] in
  matches Blog.meta Blog.database "Post" guard
    (VObj [("id", VStr "p1"); ("published", VBool true); ("draft", VBool true)])
  = false
  /\ matches Blog.meta Blog.database "Post" guard
       (VObj [("id", VStr "p2"); ("published", VBool true); ("draft", VBool false)])
     = true.
Proof.
  intros write guard. subst guard.
  split; rewrite guardObject_deny_overrides by (left; discriminate); reflexivity.
Defined.

End GuardObjectProps.

(** * Enforcement against the reference store *)

Module EnforcementProps.
Import Js Runtime ReferenceStore Vocabulary Conditions.
Local Open Scope monad_scope.

Lemma filter_and_length {A} (p q : A -> bool) (l : list A) :
  length (List.filter (fun x => p x && q x) l)
  + length (List.filter (fun x => negb (q x)) (List.filter p l))
  = length (List.filter p l).
Proof.
  induction l as [|x l IH]; [reflexivity|]. cbn [List.filter].
  destruct (p x); cbn [andb List.filter]; [|exact IH].
  destruct (q x); cbn [negb length]; lia.
Qed.

Lemma filter_negb_none {A} (q : A -> bool) (l : list A) :
  length (List.filter (fun x => negb (q x)) l) = 0 <-> forallb q l = true.
Proof.
  induction l as [|x l IH]; cbn [List.filter forallb]; [tauto|].
  destruct (q x); cbn [negb andb length]; [exact IH | split; discriminate].
Qed.

Lemma holds_filter meta D model filter row :
  isFilter filter -> holds meta D model filter row = matches meta D model filter row.
Proof.
  intros [-> | Hobj]; [reflexivity|]. unfold holds. rewrite Hobj.
  destruct filter; try discriminate; reflexivity.
Qed.

Section Reference.
Variable meta : ModelMeta.
Variable this : PolicyUtil Database.
Variable camelCase : string -> string.
Hypothesis this_db : db this = referenceDb meta.

Lemma count_selected model filter (D : Database) :
  count (db this) model (whereOnly filter) D
  = length (selected meta D model filter).
Proof. rewrite this_db. reflexivity. Qed.

Lemma selected_and model filter G (D : Database) :
  idIsScalar meta model -> isFilter filter ->
  selected meta D model (and [filter; G])
  = List.filter (fun row => matches meta D model filter row
                            && holds meta D model G row) (table D model).
Proof.
  intros Hid Hf. unfold selected. apply PathProps.filter_ext_in. intros row _.
  rewrite (ConditionProps.matches_and _ _ _ _ _ Hid). cbn [forallb].
  now rewrite andb_true_r, holds_filter.
Qed.

Lemma checkPolicyForFilter_selected
    model filter operation via G (w : World Database) :
  idIsScalar meta model ->
  isFilter filter ->
  getAuthGuard this camelCase model operation VUndef = Returned G ->
  let rows := selected meta (w_store w) model filter in
  let failing := List.filter (fun row => negb (holds meta (w_store w) model G row)) rows in
  fst (checkPolicyForFilter this camelCase model filter operation via w)
  = if forallb (holds meta (w_store w) model G) rows then Returned tt
    else Thrown (deniedByPolicy model operation
                   (Some (String.append (pretty (length failing))
                            " entities failed policy check"))).
Proof.
  intros Hid Hf HG rows failing.
  rewrite (RuntimeProps.checkPolicyForFilter_unfold _ _ _ _ _ _ _ _ HG). cbn [fst].
  rewrite !count_selected, (selected_and _ _ _ _ Hid Hf).
  pose proof (filter_and_length (matches meta (w_store w) model filter)
                (holds meta (w_store w) model G) (table (w_store w) model)) as Hsum.
  fold (selected meta (w_store w) model filter) in Hsum. fold rows failing in Hsum.
  fold rows.
  set (gc := length (List.filter
                 (fun row => matches meta (w_store w) model filter row
                             && holds meta (w_store w) model G row)
                 (table (w_store w) model))) in *.
  pose proof (filter_negb_none (holds meta (w_store w) model G) rows) as Hnone.
  fold failing in Hnone.
  destruct (forallb (holds meta (w_store w) model G) rows).
  - assert (length failing = 0) by now apply Hnone.
    destruct (Nat.ltb_spec gc (length rows)); [lia | reflexivity].
  - assert (length failing <> 0) by (intros H; apply Hnone in H; discriminate).
    destruct (Nat.ltb_spec gc (length rows)); [|lia].
    replace (length rows - gc) with (length failing) by lia. reflexivity.
Qed.

(** X21. The count comparison against a store that evaluates filters as
    the reference store does: the check passes exactly when every row the
    filter selects satisfies the guard; otherwise it is denied, and the
    number it reports is the number of selected rows that do not satisfy
    the guard. *)
Theorem checkPolicyForFilter_all_selected_rows
    model filter operation via G (w : World Database) :
  idIsScalar meta model ->
  isFilter filter ->
  getAuthGuard this camelCase model operation VUndef = Returned G ->
  let rows := selected meta (w_store w) model filter in
  let failing := List.filter (fun row => negb (holds meta (w_store w) model G row)) rows in
  fst (checkPolicyForFilter this camelCase model filter operation via w)
  = if forallb (holds meta (w_store w) model G) rows then Returned tt
    else Thrown (deniedByPolicy model operation
                   (Some (String.append (pretty (length failing))
                            " entities failed policy check"))).
Proof. apply checkPolicyForFilter_selected. Qed.

(** X26. A top-level update or delete under a guard that is not a constant,
    against the reference store, is decided before anything is written: an
    update whose argument object carries the filter [where] (and whose
    model has no post-update rule), and a delete whose arguments are the
    filter, pass exactly when every row the filter selects satisfies the
    guard of the operation, and are otherwise denied with the number of
    rows that do not; an update without [where] fails with an unknown
    request error. *)
Theorem top_level_write_checked model context G (w : World Database) :
  idIsScalar meta model ->
  isToOneRelation (field context) = false ->
  isFalse G = false -> isTrue G = false ->
  let verdict := fun operation filter =>
    let rows := selected meta (w_store w) model filter in
    if forallb (holds meta (w_store w) model G) rows then None
    else Some (deniedByPolicy model operation
                 (Some (String.append
                          (pretty (length (List.filter
                             (fun row => negb (holds meta (w_store w) model G row))
                             rows)))
                          " entities failed policy check"))) in
  (forall args fs ledger,
     getAuthGuard this camelCase model update VUndef = Returned G ->
     getAuthGuard this camelCase model postUpdate VUndef = Returned (VBool true) ->
     Reading.objectAt (w_heap w) args fs ->
     (truthy (get (VObj fs) "where") = false ->
      fst (processUpdate this camelCase model args context ledger w)
      = Thrown (unknownError "Missing 'where' in update args"))
     /\ (isObject (get (VObj fs) "where") = true ->
         fst (processUpdate this camelCase model args context ledger w)
         = match verdict update (get (VObj fs) "where") with
           | None => Returned ledger
           | Some denial => Thrown denial
           end))
  /\ (forall args filter,
        getAuthGuard this camelCase model delete VUndef = Returned G ->
        snapshot (w_heap w) args = Some filter ->
        isFilter filter ->
        fst (processDelete this camelCase model args context w)
        = match verdict delete filter with
          | None => Returned tt
          | Some denial => Thrown denial
          end).
Proof.
  intros Hid Hone Hf Ht verdict. split.
  - intros args fs ledger HGu HGp [Rg Hobj].
    destruct (ReadingProps.objectIn_location _ _ _ _ Hobj) as (l & -> & Hl & _).
    destruct (ReadingProps.objectIn_get _ _ _ _ "where" Hobj) as (x' & Hget & Hx & Hd).
    destruct (ReadingProps.represents_classes _ _ _ _ Hx) as (Htr & _).
    assert (Hsnap : snapshot (w_heap w) x' = Some (get (VObj fs) "where")).
    { unfold snapshot. eapply ReadingProps.represents_reads; [exact Hx | lia]. }
    assert (Hrun : processUpdate this camelCase model (HRef l) context ledger w
                   = if h_truthy x'
                     then (checkPolicyForFilter this camelCase model
                             (get (VObj fs) "where") update ThisDb ;;
                           ret ledger) w
                     else (Thrown (unknownError "Missing 'where' in update args"), w)).
    { unfold processUpdate, fetchAndRecordPreValues, bind, lift, getProp,
        snapshotOf, ret.
      rewrite HGu. cbv beta iota. rewrite Hf, Ht, Hone. cbn [negb]. cbv beta iota.
      rewrite Hget. cbv beta iota.
      destruct (h_truthy x'); cbn [negb]; cbv beta iota; [|reflexivity].
      rewrite Hsnap. cbv beta iota.
      destruct (checkPolicyForFilter _ _ _ _ _ _ w) as [[[]|e] w1];
        [|reflexivity].
      now rewrite HGp. }
    rewrite Hrun, Htr. split.
    + intros ->. reflexivity.
    + intros Hobjw.
      assert (truthy (get (VObj fs) "where") = true) as ->
        by (unfold isObject in Hobjw; now apply andb_prop in Hobjw).
      pose proof (checkPolicyForFilter_selected model (get (VObj fs) "where") update
                    ThisDb G w Hid (or_intror Hobjw) HGu) as Hcheck.
      cbv zeta in Hcheck. unfold bind, ret.
      destruct (checkPolicyForFilter _ _ _ _ _ _ w) as [[[]|e] w1]; cbn [fst] in *;
        subst verdict; cbv beta zeta;
        destruct (forallb _ _); congruence.
  - intros args filter HGd Hsnap Hfilter.
    unfold processDelete, bind, lift, snapshotOf.
    rewrite HGd. cbv beta iota. rewrite Hf, Ht, Hone. cbn [negb]. cbv beta iota.
    rewrite Hsnap. cbv beta iota.
    pose proof (checkPolicyForFilter_selected model filter delete
                  ThisDb G w Hid Hfilter HGd) as Hcheck.
    cbv zeta in Hcheck.
    destruct (checkPolicyForFilter _ _ _ _ _ _ w) as [[[]|e] w1]; cbn [fst] in *;
      subst verdict; cbv beta zeta;
      destruct (forallb _ _); congruence.
Qed.

Lemma nestFilters_object segments q :
  nestFilters segments = Some q -> isObject q = true.
Proof.
  destruct segments as [|segment [|next above]]; cbn [nestFilters];
    [discriminate | now intros [= <-] |].
  destruct (segmentBackLink segment); [|discriminate].
  destruct (match above with [] => _ | _ => _ end); [|discriminate].
  now intros [= <-].
Qed.

(** X27. A nested update or delete through a to-one relation, under a guard
    that is not a constant, against the reference store: when the nesting
    path is linked (every level below the root has a back-link that
    reverses its relation), the operation passes exactly when every row of
    the model that is reachable along the path satisfies the guard, and is
    otherwise denied with the number of reachable rows that do not; the
    arguments of the operation itself are not consulted. *)
Theorem nested_to_one_write_checked model context G (w : World Database) :
  idIsScalar meta model ->
  isToOneRelation (field context) = true ->
  linkedPath meta (w_store w) model (rev (nestingPath context)) ->
  isFalse G = false -> isTrue G = false ->
  let rows := List.filter (reachable meta (w_store w) model (rev (nestingPath context)))
                (table (w_store w) model) in
  let verdict := fun operation =>
    if forallb (holds meta (w_store w) model G) rows then None
    else Some (deniedByPolicy model operation
                 (Some (String.append
                          (pretty (length (List.filter
                             (fun row => negb (holds meta (w_store w) model G row))
                             rows)))
                          " entities failed policy check"))) in
  (forall args ledger,
     getAuthGuard this camelCase model update VUndef = Returned G ->
     getAuthGuard this camelCase model postUpdate VUndef = Returned (VBool true) ->
     fst (processUpdate this camelCase model args context ledger w)
     = match verdict update with
       | None => Returned ledger
       | Some denial => Thrown denial
       end)
  /\ (forall args,
        getAuthGuard this camelCase model delete VUndef = Returned G ->
        fst (processDelete this camelCase model args context w)
        = match verdict delete with
          | None => Returned tt
          | Some denial => Thrown denial
          end).
Proof.
  intros Hid Hone Hlinked Hf Ht rows verdict.
  destruct (PathProps.nestFilters_linked meta (w_store w) model _ Hlinked)
    as (q & Hq & Hsel).
  pose proof (PathProps.buildReversedQuery_nestFilters context q Hq) as Hbuild.
  assert (Hrows : selected meta (w_store w) model q = rows).
  { unfold selected. subst rows. apply PathProps.filter_ext_in. exact Hsel. }
  assert (Hfilter : isFilter q) by (right; eapply nestFilters_object; exact Hq).
  split.
  - intros args ledger HGu HGp.
    pose proof (checkPolicyForFilter_selected model q update ThisDb G w
                  Hid Hfilter HGu) as Hcheck.
    cbv zeta in Hcheck. rewrite Hrows in Hcheck.
    unfold processUpdate, fetchAndRecordPreValues, bind, lift, ret.
    rewrite HGu. cbv beta iota. rewrite Hf, Ht, Hone. cbn [negb]. cbv beta iota.
    rewrite Hbuild. cbv beta iota.
    destruct (checkPolicyForFilter _ _ _ _ _ _ w) as [[[]|e] w1]; cbn [fst] in *.
    + rewrite HGp. cbv beta iota. cbn [isTrue strictEq Bool.eqb negb fst].
      subst verdict. cbv beta zeta. destruct (forallb _ _); congruence.
    + subst verdict. cbv beta zeta. destruct (forallb _ _); congruence.
  - intros args HGd.
    pose proof (checkPolicyForFilter_selected model q delete ThisDb G w
                  Hid Hfilter HGd) as Hcheck.
    cbv zeta in Hcheck. rewrite Hrows in Hcheck.
    unfold processDelete, bind, lift.
    rewrite HGd. cbv beta iota. rewrite Hf, Ht, Hone. cbn [negb]. cbv beta iota.
    rewrite Hbuild. cbv beta iota.
    destruct (checkPolicyForFilter _ _ _ _ _ _ w) as [[[]|e] w1]; cbn [fst] in *;
      subst verdict; cbv beta zeta;
      destruct (forallb _ _); congruence.
Qed.

(** X22. A read without [select] and [include] against the reference
    store returns exactly the rows the caller may see: the rows of the
    table that satisfy the caller's filter and the read guard of the model,
    in the order of the table, each with all its fields; no other row, and
    none of these left out. *)
Theorem readWithCheck_plain_rows model args G fs (w : World Database) :
  idIsScalar meta model ->
  snapshot (w_heap w) args = Some (VObj fs) ->
  truthy (get (VObj fs) "select") = false ->
  truthy (get (VObj fs) "include") = false ->
  isFilter (get (VObj fs) "where") ->
  getAuthGuard this camelCase model read VUndef = Returned G ->
  fst (readWithCheck this camelCase model args w)
  = Returned
      (map (fun row => VObj (spread row))
         (List.filter
            (fun row => matches meta (w_store w) model (get (VObj fs) "where") row
                        && holds meta (w_store w) model G row)
            (table (w_store w) model))).
Proof.
  intros Hid Hsnap Hsel Hinc Hf HG.
  assert (Hnone : noRelationAmong (modelMeta this) model
                    (coalesce (get (VObj fs) "select") (get (VObj fs) "include"))).
  { apply ReadingProps.noRelationAmong_falsy. unfold coalesce.
    now destruct (nullish (get (VObj fs) "select")). }
  destruct (ReadingProps.readWithCheck_plain_run this camelCase model args G fs w
              Hsnap Hnone HG) as (h2 & Hrun).
  rewrite Hrun. cbn [fst]. f_equal. rewrite this_db. cbn [findMany referenceDb].
  set (query := VObj (assign "where" (and [get (VObj fs) "where"; G]) fs)).
  assert (Hwhere : get query "where" = and [get (VObj fs) "where"; G]).
  { subst query. cbn [get]. now rewrite PathProps.lookup_assign. }
  assert (Hqs : get query "select" = get (VObj fs) "select").
  { subst query. cbn [get]. now rewrite ReadingProps.lookup_assign_ne. }
  assert (Hqi : get query "include" = get (VObj fs) "include").
  { subst query. cbn [get]. now rewrite ReadingProps.lookup_assign_ne. }
  rewrite Hwhere, (selected_and _ _ _ _ Hid Hf).
  apply map_ext. intros row. cbn [project].
  rewrite Hqs, Hqi, Hsel, Hinc. now rewrite app_nil_r.
Qed.

End Reference.

Lemma checkPolicyForFilter_all_selected_rows_witness :
  fst (checkPolicyForFilter Blog.this Blog.camelCase "Post"
         (VObj [("authorId", VStr "u1")]) read ThisDb (snd (Blog.start VUndef)))
  = Thrown (deniedByPolicy "Post" read (Some "1 entities failed policy check")).
Proof.
  rewrite (checkPolicyForFilter_all_selected_rows Blog.meta Blog.this Blog.camelCase
             eq_refl "Post" (VObj [("authorId", VStr "u1")]) read ThisDb
             (VObj [("published", VBool true)]) _
             (RuntimeProps.blog_id_scalar "Post") (or_intror eq_refl) eq_refl).
  reflexivity.
Defined.

Lemma readWithCheck_plain_rows_witness :
  let fs := [("where", VObj [("authorId", VStr "u1")])] in
  fst (readWithCheck Blog.this Blog.camelCase "Post" (fst (Blog.start (VObj fs)))
         (snd (Blog.start (VObj fs))))
  = Returned [Blog.postRow "p1" "hello" true "u1"; Blog.postRow "p4" "other" true "u1"].
Proof.
  intros fs.
  rewrite (readWithCheck_plain_rows Blog.meta Blog.this Blog.camelCase eq_refl
             "Post" (fst (Blog.start (VObj fs))) (VObj [("published", VBool true)])
             fs (snd (Blog.start (VObj fs)))
             (RuntimeProps.blog_id_scalar "Post") eq_refl eq_refl eq_refl
             (or_intror eq_refl) eq_refl).
  reflexivity.
Defined.

(** On the sample: the caller [u1] updates the posts titled hello, one of
    which is not the caller's. *)
Lemma top_level_write_checked_witness :
  let fs := [("where", VObj [("title", VStr "hello")]);
             ("data", VObj [("title", VStr "bye")])] in
  let ledger := {| createdModels := []; updatedModels := [] |} in
  fst (processUpdate Blog.this Blog.camelCase "Post" (fst (Blog.start (VObj fs)))
         (Blog.rootContext HUndef VUndef) ledger (snd (Blog.start (VObj fs))))
  = Thrown (deniedByPolicy "Post" update (Some "1 entities failed policy check")).
Proof.
  intros fs ledger.
  destruct (top_level_write_checked Blog.meta Blog.this Blog.camelCase eq_refl
              "Post" (Blog.rootContext HUndef VUndef)
              (VObj [("authorId", VStr "u1")]) (snd (Blog.start (VObj fs)))
              (RuntimeProps.blog_id_scalar "Post") eq_refl eq_refl eq_refl)
    as [Hupdate _].
  destruct (Hupdate (fst (Blog.start (VObj fs))) fs ledger eq_refl eq_refl
              (ReadingProps.start_objectAt fs)) as [_ H].
  rewrite H by reflexivity. reflexivity.
Defined.

(** On the chain A - B - C: the update of the [c] of the [b] of [a1]
    reaches [c1] alone, and a guard that only [c2] satisfies denies it. *)
Lemma nested_to_one_write_checked_witness :
  let this :=
    {| db := referenceDb Chain.meta;
       modelMeta := Chain.meta;
       policy :=
         {| guard := fun _ => Some (fun op =>
              match op with
              | postUpdate => Some (ConstantPolicy true)
              | _ => Some (PolicyFunc (fun _ => VObj [("id", VStr "c2")]))
              end) |};
       user := VUndef |} in
  let context :=
    {| parent := HUndef; field := Some Chain.cOfB; nestingPath := Chain.pathToC |} in
  let w := {| w_heap := []; w_store := Chain.database; w_trace := [] |} in
  let ledger := {| createdModels := []; updatedModels := [] |} in
  fst (processUpdate this (fun s => s) "C" HUndef context ledger w)
  = Thrown (deniedByPolicy "C" update (Some "1 entities failed policy check")).
Proof.
  intros this context w ledger.
  destruct (nested_to_one_write_checked Chain.meta this (fun s => s) eq_refl
              "C" context (VObj [("id", VStr "c2")]) w
              I eq_refl PathProps.chain_linked eq_refl eq_refl)
    as [Hupdate _].
  rewrite (Hupdate HUndef ledger eq_refl eq_refl). reflexivity.
Defined.

End EnforcementProps.

(** * Guards that ask nothing, and guards that cannot be found *)

Module ProcessorProps.
Import Js Runtime Vocabulary.
Local Open Scope monad_scope.

Section Processors.
Context {Store : Type}.
Variable this : PolicyUtil Store.
Variable camelCase : string -> string.

(** X24. Looking up a guard fails only for want of a table or of an entry,
    with an unknown request error that is never a policy denial; and
    whether the lookup fails, and how, does not depend on the pre-update
    value passed: if it returns for one, it returns for any other. *)
Theorem getAuthGuard_failure model operation (preValue preValue' : value) :
  match getAuthGuard this camelCase model operation preValue with
  | Thrown e =>
      isPolicyDenied e = false
      /\ (exists message, e = unknownError message)
      /\ getAuthGuard this camelCase model operation preValue' = Thrown e
  | Returned G =>
      exists G', getAuthGuard this camelCase model operation preValue' = Returned G'
  end.
Proof.
  unfold getAuthGuard. destruct (guard _ _) as [g|]; [|eauto].
  destruct (g operation) as [[b|f]|]; eauto.
Qed.

(** X25. Where the guard is the constant [true] the processing of an
    operation asks nothing of the database and touches no object: an update
    or an [updateMany] on a model whose update and post-update guards are
    both [true], and a delete or a [deleteMany] on a model whose delete
    guard is [true], return at once with the ledger and the world as they
    were. *)
Theorem true_guard_costs_nothing (model : string) :
  (getAuthGuard this camelCase model update VUndef = Returned (VBool true) ->
   getAuthGuard this camelCase model postUpdate VUndef = Returned (VBool true) ->
   forall args context ledger (w : World Store),
     processUpdate this camelCase model args context ledger w = (Returned ledger, w)
     /\ processUpdateMany this camelCase model args context ledger w
        = (Returned ledger, w))
  /\ (getAuthGuard this camelCase model delete VUndef = Returned (VBool true) ->
      forall args context (w : World Store),
        processDelete this camelCase model args context w = (Returned tt, w)
        /\ processDeleteMany this camelCase model args context w = (Returned tt, w)).
Proof.
  split.
  - intros Hu Hp args context ledger w. split.
    + unfold processUpdate, fetchAndRecordPreValues, bind, lift.
      now rewrite Hu, Hp.
    + unfold processUpdateMany, fetchAndRecordPreValues, bind, lift.
      now rewrite Hu, Hp.
  - intros Hd args context w. split.
    + unfold processDelete, bind, lift. now rewrite Hd.
    + unfold processDeleteMany, bind, lift. now rewrite Hd.
Qed.

End Processors.

Lemma true_guard_costs_nothing_witness :
  let this :=
    {| db := ReferenceStore.referenceDb Blog.meta;
       modelMeta := Blog.meta;
       policy := {| guard := fun _ => Some (fun _ => Some (ConstantPolicy true)) |};
       user := VUndef |} in
  let w := snd (Blog.start VUndef) in
  processUpdate this Blog.camelCase "Post" HUndef (Blog.rootContext HUndef VUndef)
    {| createdModels := []; updatedModels := [] |} w
  = (Returned {| createdModels := []; updatedModels := [] |}, w)
  /\ processDelete this Blog.camelCase "Post" HUndef (Blog.rootContext HUndef VUndef) w
     = (Returned tt, w).
Proof.
  intros this w.
  destruct (true_guard_costs_nothing this Blog.camelCase "Post") as [Hu Hd].
  split.
  - apply (proj1 (Hu eq_refl eq_refl HUndef (Blog.rootContext HUndef VUndef)
                    {| createdModels := []; updatedModels := [] |} w)).
  - apply (proj1 (Hd eq_refl HUndef (Blog.rootContext HUndef VUndef) w)).
Defined.

End ProcessorProps.
